(** * Replay buffer and samplers of [rl/dataset.py], reward shaping of
    [env/pusher.py]

    A shallow embedding of [ReplayBuffer], [LearnedRewardReplayBuffer],
    [RandomSampler] and [HERSampler], and of the reward arithmetic of
    [PusherEnv].  Python objects that the code
    mutates in place (the buffer dictionary, the fields of the buffer
    object, the process-wide random generator) live in an explicit
    [world]; a method is a computation in a state-and-exception monad
    over that world. *)

From Stdlib Require Import ZArith QArith Lia Lqa.
From stdpp Require Import base option list strings gmap.

Set Warnings "-register-all".

(** ** Python values *)

(** A numeric array as numpy holds it, nested along its first axis: a
    number (a Python float or a 0-d array) is [Sc], an array with a first
    axis is [Ax] of its rows.  Floats are read as the rationals they
    denote. *)
Inductive nd : Type :=
| Sc (x : Q)
| Ax (rows : list nd).

(** What one step of an episode stores under a key: an array (or a
    number), a mapping of named components ([dict], [OrderedDict]), or a
    Python list. *)
Inductive value : Type :=
| VArr (a : nd)
| VDict (d : list (string * value))
| VList (l : list value).

Definition scalar (x : Q) : value := VArr (Sc x).

(** ** Exceptions and results *)

Inductive exn : Type :=
| KeyError
| IndexError
| AssertionError
| ValueError
| ZeroDivisionError
| TypeError
| OSError
| UnpicklingError
| EOFError
| AttributeError
| ImportError.

Inductive res (A : Type) : Type :=
| Ok (a : A)
| Raise (e : exn).
Arguments Ok {A} a.
Arguments Raise {A} e.

#[global] Instance res_ret : MRet res := λ A a, Ok a.

#[global] Instance res_bind : MBind res := λ A B f m,
  match m with
  | Ok a => f a
  | Raise e => Raise e
  end.

Definition of_opt {A} (e : exn) (o : option A) : res A :=
  match o with
  | Some a => Ok a
  | None => Raise e
  end.

Fixpoint fold_res {A S} (body : S → A → res S) (l : list A) (st : S) : res S :=
  match l with
  | [] => Ok st
  | x :: r => st' ← body st x; fold_res body r st'
  end.

(** ** Insertion-ordered dictionaries *)

Definition dict (V : Type) : Type := list (string * V).

Fixpoint dict_get {V} (d : dict V) (k : string) : option V :=
  match d with
  | [] => None
  | (k', v) :: r => if String.eqb k' k then Some v else dict_get r k
  end.

(** [d[k] = v]: an existing key keeps its position, a new key goes last. *)
Fixpoint dict_set {V} (d : dict V) (k : string) (v : V) : dict V :=
  match d with
  | [] => [(k, v)]
  | (k', v') :: r =>
      if String.eqb k' k then (k, v) :: r else (k', v') :: dict_set r k v
  end.

Definition dict_mem {V} (d : dict V) (k : string) : bool :=
  match dict_get d k with Some _ => true | None => false end.

Definition dict_keys {V} (d : dict V) : list string := d.*1.

(** ** Sequences: [len], indexing with negative indices, item assignment *)

Definition len {A} (l : list A) : Z := Z.of_nat (length l).

Definition py_index {A} (l : list A) (i : Z) : option A :=
  if (0 <=? i)%Z then l !! Z.to_nat i
  else if (0 <=? len l + i)%Z then l !! Z.to_nat (len l + i)
  else None.

Definition py_setitem {A} (l : list A) (i : Z) (x : A) : option (list A) :=
  if (0 <=? i)%Z then
    if (i <? len l)%Z then Some (<[Z.to_nat i := x]> l) else None
  else if (0 <=? len l + i)%Z then Some (<[Z.to_nat (len l + i) := x]> l)
  else None.

(** ** Objects and the world *)

Definition loc : Type := nat.

(** An episode is the list of its steps; the buffer dictionary maps a key
    to the list of episode slots.  [default_factory] tells a
    [defaultdict(list)] from a plain [dict]. *)
Definition episode : Type := list value.

Record pydict : Type := PyDict {
  default_factory : bool;
  items : dict (list episode)
}.

Record HERSampler : Type := mkHERSampler {
  replay_strategy : string;
  future_p : Q;
  reward_func : option (value → value → Q)
}.

(** The callable handed to [ReplayBuffer.__init__] as [sample_func]. *)
Inductive sampler : Type :=
| RandomSampler_sample_func
| HERSampler_sample_her_transitions (h : HERSampler).

Record ReplayBuffer : Type := mkReplayBuffer {
  _size : Z;
  _keys : list string;
  _sample_func : sampler;
  _idx : Z;
  _current_size : Z;
  _new_episode : bool;
  _buffer : loc
}.

(** [self] is the buffer object a method runs on, [heap] holds the
    dictionary objects, and [rng_src], [rng_pos] are numpy's global
    generator: the stream of raw words it will produce and how many were
    consumed. *)
Record world : Type := mkWorld {
  self : ReplayBuffer;
  heap : gmap loc pydict;
  rng_src : nat → Z;
  rng_pos : nat
}.

#[global] Instance pydict_inhabited : Inhabited pydict := populate (PyDict true []).

Definition M (A : Type) : Type := world → res A * world.

Definition ret {A} (a : A) : M A := λ w, (Ok a, w).

Definition raise {A} (e : exn) : M A := λ w, (Raise e, w).

Definition bind {A B} (m : M A) (f : A → M B) : M B := λ w,
  match m w with
  | (Ok a, w') => f a w'
  | (Raise e, w') => (Raise e, w')
  end.

Notation "x <- m ;; k" := (bind m (λ x, k))
  (at level 100, m at next level, right associativity).
Notation "m ;; k" := (bind m (λ _, k))
  (at level 100, right associativity).

Definition lift_res {A} (r : res A) : M A := λ w, (r, w).

Definition lift_opt {A} (e : exn) (o : option A) : M A := lift_res (of_opt e o).

Fixpoint map_M {A B} (f : A → M B) (l : list A) : M (list B) :=
  match l with
  | [] => ret []
  | x :: r => y <- f x ;; ys <- map_M f r ;; ret (y :: ys)
  end.

Fixpoint for_ {A} (l : list A) (body : A → M unit) : M unit :=
  match l with
  | [] => ret tt
  | x :: r => body x ;; for_ r body
  end.

(** *** The fields of [self] *)

Definition get_self : M ReplayBuffer := λ w, (Ok (self w), w).

Definition set_self (b : ReplayBuffer) : M unit := λ w,
  (Ok tt, mkWorld b (heap w) (rng_src w) (rng_pos w)).

Definition with_idx (i : Z) (b : ReplayBuffer) : ReplayBuffer :=
  mkReplayBuffer (_size b) (_keys b) (_sample_func b) i (_current_size b)
    (_new_episode b) (_buffer b).

Definition with_current_size (n : Z) (b : ReplayBuffer) : ReplayBuffer :=
  mkReplayBuffer (_size b) (_keys b) (_sample_func b) (_idx b) n
    (_new_episode b) (_buffer b).

Definition with_new_episode (f : bool) (b : ReplayBuffer) : ReplayBuffer :=
  mkReplayBuffer (_size b) (_keys b) (_sample_func b) (_idx b)
    (_current_size b) f (_buffer b).

Definition with_buffer (l : loc) (b : ReplayBuffer) : ReplayBuffer :=
  mkReplayBuffer (_size b) (_keys b) (_sample_func b) (_idx b)
    (_current_size b) (_new_episode b) l.

Definition modify_self (f : ReplayBuffer → ReplayBuffer) : M unit :=
  s <- get_self ;; set_self (f s).

(** *** Dictionary objects *)

Definition heap_get (l : loc) : M pydict := λ w, (Ok (heap w !!! l), w).

Definition heap_put (l : loc) (d : pydict) : M unit := λ w,
  (Ok tt, mkWorld (self w) (<[l:=d]> (heap w)) (rng_src w) (rng_pos w)).

(** [defaultdict(list)()]: a new dictionary object. *)
Definition new_defaultdict : M loc := λ w,
  let l := fresh (dom (heap w)) in
  (Ok l, mkWorld (self w) (<[l:=PyDict true []]> (heap w)) (rng_src w) (rng_pos w)).

(** [d[k]]: a [defaultdict(list)] inserts and returns a new empty list
    for a missing key, a plain [dict] raises [KeyError]. *)
Definition getitem (l : loc) (k : string) : M (list episode) :=
  d <- heap_get l ;;
  match dict_get (items d) k with
  | Some v => ret v
  | None =>
      if default_factory d
      then heap_put l (PyDict true (dict_set (items d) k [])) ;; ret []
      else raise KeyError
  end.

Definition setitem (l : loc) (k : string) (v : list episode) : M unit :=
  d <- heap_get l ;;
  heap_put l (PyDict (default_factory d) (dict_set (items d) k v)).

(** [k in d] *)
Definition contains (l : loc) (k : string) : M bool :=
  d <- heap_get l ;; ret (dict_mem (items d) k).

Definition keys (l : loc) : M (list string) :=
  d <- heap_get l ;; ret (dict_keys (items d)).

(** *** Truth value of a step entry, as [if x:] computes it *)

Fixpoint nd_data (a : nd) : list Q :=
  match a with
  | Sc x => [x]
  | Ax rows =>
      (fix go (l : list nd) : list Q :=
         match l with
         | [] => []
         | r :: l' => nd_data r ++ go l'
         end) rows
  end.

(** An array with more than one element has no truth value
    ([ValueError]); an empty one is false. *)
Definition truthy (v : value) : option bool :=
  match v with
  | VArr a =>
      match nd_data a with
      | [] => Some false
      | [x] => Some (negb (Qeq_bool x 0))
      | _ => None
      end
  | VDict d => Some (negb (bool_decide (d = [])))
  | VList l => Some (negb (bool_decide (l = [])))
  end.

(** ** [ReplayBuffer] *)

Definition rollout_t : Type := dict (list value).

Definition clear : M unit :=
  modify_self (with_idx 0%Z) ;;
  modify_self (with_current_size 0%Z) ;;
  modify_self (with_new_episode true) ;;
  l <- new_defaultdict ;;
  modify_self (with_buffer l).

(** [ReplayBuffer(config, keys, sample_func)], with [buffer_size] the
    value of [config.buffer_size]. *)
Definition ReplayBuffer_init (buffer_size : Z) (keys : list string)
    (sample_func : sampler) : M unit :=
  set_self (mkReplayBuffer buffer_size keys sample_func 0%Z 0%Z true 0%nat) ;;
  clear.

(** The body of the loop over [self._keys] when a new episode starts:
    append a slot while there is room, overwrite the slot at the cursor
    otherwise. *)
Definition store_new_key (rollout : rollout_t) (k : string) : M unit :=
  s <- get_self ;;
  if (_current_size s <? _size s)%Z then
    slots <- getitem (_buffer s) k ;;
    x <- lift_opt KeyError (dict_get rollout k) ;;
    setitem (_buffer s) k (slots ++ [x])
  else
    x <- lift_opt KeyError (dict_get rollout k) ;;
    slots <- getitem (_buffer s) k ;;
    slots' <- lift_opt IndexError (py_setitem slots (_idx s) x) ;;
    setitem (_buffer s) k slots'.

(** The body of the loop when an episode is in progress: [append] adds
    its argument, a list, as one element of the slot at the cursor. *)
Definition store_step_key (rollout : rollout_t) (k : string) : M unit :=
  s <- get_self ;;
  slots <- getitem (_buffer s) k ;;
  slot <- lift_opt IndexError (py_index slots (_idx s)) ;;
  x <- lift_opt KeyError (dict_get rollout k) ;;
  let x' := if String.eqb k "ob" then drop 1 x else x in
  slots' <- lift_opt IndexError (py_setitem slots (_idx s) (slot ++ [VList x'])) ;;
  setitem (_buffer s) k slots'.

(** The integrity assertion. *)
Definition check_lengths : M unit :=
  s <- get_self ;;
  has_ac <- contains (_buffer s) "ac" ;;
  if has_ac then
    obs <- getitem (_buffer s) "ob" ;;
    ob <- lift_opt IndexError (py_index obs (_idx s)) ;;
    acs <- getitem (_buffer s) "ac" ;;
    ac <- lift_opt IndexError (py_index acs (_idx s)) ;;
    if (len ob =? len ac + 1)%Z then ret tt else raise AssertionError
  else ret tt.

(** The last statement: close the episode when [rollout["done"][-1]] is
    true. *)
Definition close_if_done (rollout : rollout_t) : M unit :=
  done <- lift_opt KeyError (dict_get rollout "done") ;;
  last <- lift_opt IndexError (py_index done (-1)%Z) ;;
  flag <- lift_opt ValueError (truthy last) ;;
  if flag then
    s <- get_self ;;
    (if (_size s =? 0)%Z then raise ZeroDivisionError else ret tt) ;;
    modify_self (with_idx ((_idx s + 1) mod _size s)%Z) ;;
    modify_self (λ s, with_current_size (_current_size s + 1)%Z s) ;;
    modify_self (with_new_episode true)
  else ret tt.

Definition store_episode (rollout : rollout_t) : M unit :=
  s <- get_self ;;
  (if _new_episode s
   then for_ (_keys s) (store_new_key rollout)
   else for_ (_keys s) (store_step_key rollout)) ;;
  check_lengths ;;
  close_if_done rollout.

Definition state_dict : M loc :=
  s <- get_self ;; ret (_buffer s).

Definition load_state_dict (state_dict : loc) : M unit :=
  modify_self (with_buffer state_dict) ;;
  s <- get_self ;;
  acs <- getitem (_buffer s) "ac" ;;
  modify_self (with_current_size (len acs)).

(** *** Demonstration files *)

Record DirEntry : Type := mkDirEntry {
  path : string;
  is_file : bool
}.

(** What the loader sees of the file system: the entries [os.scandir]
    yields for a folder, in its order ([None] when the folder cannot be
    scanned, an [OSError]); what [open] followed by [pickle.load]
    returns for the file at a path; and, when they return nothing, the
    exception they raise, [load_error]: [OSError] for a file that cannot
    be opened, [pickle.UnpicklingError], [EOFError] or another exception
    of the unpickler for a file whose contents do not unpickle. *)
Record filesystem : Type := mkFilesystem {
  scandir : string → option (list DirEntry);
  pickle_load : string → option (dict (list value));
  load_error : string → exn
}.

Definition endswith (s suffix : string) : bool :=
  let n := String.length s in
  let m := String.length suffix in
  if (m <=? n)%nat then String.eqb (String.substring (n - m) m s) suffix else false.

(** [d.is_file() and d.path.endswith("pkl")] *)
Definition is_demo (d : DirEntry) : bool :=
  is_file d && endswith (path d) "pkl".

(** The scanning loop of [load_demonstrations], with its [break]. *)
Fixpoint scan_demos (entries : list DirEntry) (num_demos : Z)
    (demos : list string) (i : Z) : list string :=
  match entries with
  | [] => demos
  | d :: rest =>
      let '(demos, i) :=
        if is_demo d
        then (demos ++ [path d], (i + 1)%Z)
        else (demos, i) in
      if (num_demos <? i)%Z then demos else scan_demos rest num_demos demos i
  end.

(** [np.zeros(n)] followed by [done[-1] = 1]. *)
Definition np_zeros (n : nat) : list value := replicate n (scalar 0).

Definition load_demo (fs : filesystem) (path : string) : M unit :=
  data <- lift_opt (load_error fs path) (pickle_load fs path) ;;
  obs <- lift_opt KeyError (dict_get data "obs") ;;
  let rollout := dict_set [] "ob" obs in
  actions <- lift_opt KeyError (dict_get data "actions") ;;
  let rollout := dict_set rollout "ac" ((λ ac, VDict [("default", ac)]) <$> actions) in
  rewards <- lift_opt KeyError (dict_get data "rewards") ;;
  let rollout := dict_set rollout "rew" rewards in
  actions <- lift_opt KeyError (dict_get data "actions") ;;
  let done := np_zeros (length actions) in
  done <- lift_opt IndexError (py_setitem done (-1)%Z (scalar 1)) ;;
  let rollout := dict_set rollout "done" done in
  store_episode rollout.

Definition load_demonstrations (fs : filesystem) (demo_folder : string)
    (num_demos : Z) : M unit :=
  entries <- lift_opt OSError (scandir fs demo_folder) ;;
  let demos := scan_demos entries num_demos [] 0%Z in
  for_ demos (load_demo fs).

(** ** numpy *)

Fixpoint foldM {A S} (body : S → A → M S) (l : list A) (st : S) : M S :=
  match l with
  | [] => ret st
  | x :: r => st' <- body st x ;; foldM body r st'
  end.

(** [for i, x in enumerate(l)] over a loop-carried state, counting from [i]. *)
Fixpoint for_enumerate {A S} (body : Z → A → S → M S) (l : list A) (i : Z)
    (st : S) : M S :=
  match l with
  | [] => ret st
  | x :: r => st' <- body i x st ;; for_enumerate body r (i + 1)%Z st'
  end.

Fixpoint shape (a : nd) : list nat :=
  match a with
  | Sc _ => []
  | Ax rows => length rows :: match rows with [] => [] | r :: _ => shape r end
  end.

(** [np.stack]: at least one array, all of one shape; the result has them
    as its rows. *)
Definition np_stack (arrays : list nd) : option nd :=
  match arrays with
  | [] => None
  | a :: rest =>
      if forallb (λ b, bool_decide (shape b = shape a)) rest
      then Some (Ax arrays) else None
  end.

(** [np.asanyarray]: an array is itself, a list of arrays of one shape is
    the array of its rows.  A mapping has no numeric array (numpy would
    wrap it as an object; no buffer column is stacked that way), and the
    model rejects it. *)
Fixpoint as_array (v : value) : option nd :=
  match v with
  | VArr a => Some a
  | VDict _ => None
  | VList l =>
      rows ← (fix go (l : list value) : option (list nd) :=
                match l with
                | [] => Some []
                | x :: r => a ← as_array x; rs ← go r; Some (a :: rs)
                end) l;
      match rows with
      | [] => Some (Ax [])
      | _ => np_stack rows
      end
  end.

Definition np_array (l : list value) : option nd := as_array (VList l).


(** [a.ndim]: the number of axes.  An array without rows is read as
    one-dimensional. *)
Definition ndim (a : nd) : nat := length (shape a).

(** [a] under [k] new leading axes of length 1. *)
Fixpoint expand_dims (k : nat) (a : nd) : nd :=
  match k with
  | O => a
  | S k' => Ax [expand_dims k' a]
  end.

(** Broadcasting two arrays of one rank, axis by axis as numpy does:
    axes of equal length are paired entry by entry, an axis of length 1
    is repeated along the axis of the other operand, and other lengths
    do not broadcast. *)
Fixpoint nd_broadcast (f : Q → Q → Q) (a b : nd) : option nd :=
  match a, b with
  | Sc x, Sc y => Some (Sc (f x y))
  | Ax ra, Ax rb =>
      rows ←
        (if (length ra =? length rb)%nat then
           (fix pair (ra rb : list nd) : option (list nd) :=
              match ra, rb with
              | x :: ra', y :: rb' =>
                  z ← nd_broadcast f x y; zs ← pair ra' rb'; Some (z :: zs)
              | _, _ => Some []
              end) ra rb
         else
           match ra, rb with
           | [x], _ =>
               (fix along (rb : list nd) : option (list nd) :=
                  match rb with
                  | [] => Some []
                  | y :: rb' =>
                      z ← nd_broadcast f x y; zs ← along rb'; Some (z :: zs)
                  end) rb
           | _, [y] =>
               (fix along (ra : list nd) : option (list nd) :=
                  match ra with
                  | [] => Some []
                  | x :: ra' =>
                      z ← nd_broadcast f x y; zs ← along ra'; Some (z :: zs)
                  end) ra
           | _, _ => None
           end);
      Some (Ax rows)
  | _, _ => None
  end.

(** [a + b] on arrays, with numpy's broadcasting: the operand of lower
    rank gets leading axes of length 1, then the axes are matched one by
    one.  [None] stands for the [ValueError] of shapes that do not
    broadcast.  The sum of two floats is the exact sum. *)
Definition np_add (a b : nd) : option nd :=
  nd_broadcast Qplus
    (expand_dims (ndim b - ndim a) a)
    (expand_dims (ndim a - ndim b) b).

(** The rows of an array, as iterating over it yields them.  A 0-d array
    has none: indexing it raises [IndexError] as indexing [[]] does. *)
Definition array_rows (a : nd) : list value :=
  match a with
  | Sc _ => []
  | Ax rows => VArr <$> rows
  end.

(** *** The global generator *)

Definition next_raw : M Z := λ w,
  (Ok (rng_src w (rng_pos w)),
   mkWorld (self w) (heap w) (rng_src w) (S (rng_pos w))).

(** [np.random.randint(low, high)]: raises on an empty range, and
    otherwise maps the next raw word into [[low, high)]. *)
Definition randint (low high : Z) : M Z :=
  if (high <=? low)%Z then raise ValueError
  else r <- next_raw ;; ret (low + r mod (high - low))%Z.

(** [np.random.randint(low, high, size)]: an array of [size] draws; a
    zero [size] gives the empty array before the range is looked at. *)
Definition randint_n (low high size : Z) : M (list Z) :=
  if (size <? 0)%Z then raise ValueError
  else if (size =? 0)%Z then ret []
  else map_M (λ _, randint low high) (replicate (Z.to_nat size) tt).

(** [np.random.uniform()]: a float in [[0, 1)] with 53 random bits. *)
Definition uniform_of (r : Z) : Q := Qmake (r mod 2 ^ 53) (2 ^ 53).

Definition uniform : M Q :=
  r <- next_raw ;; ret (uniform_of r).

Definition Qltb (x y : Q) : bool := negb (Qle_bool y x).

(** ** Samplers *)

(** A stacked batch column: one array, or one array per component. *)
Inductive stacked : Type :=
| SArr (a : nd)
| SDict (d : dict nd).

Definition transitions_t : Type := dict (list value).

Definition batch_t : Type := dict stacked.

(** [episode_batch[key][episode_idx][t]] *)
Definition lookup_step (episode_batch : loc) (key : string) (episode_idx t : Z)
    : M value :=
  slots <- getitem episode_batch key ;;
  ep <- lift_opt IndexError (py_index slots episode_idx) ;;
  lift_opt IndexError (py_index ep t).

(** [len(episode_batch["ac"][episode_idx])] *)
Definition episode_length (episode_batch : loc) (episode_idx : Z) : M Z :=
  acs <- getitem episode_batch "ac" ;;
  ep <- lift_opt IndexError (py_index acs episode_idx) ;;
  ret (len ep).

Definition np_stack_values (v : list value) : res nd :=
  arrays ← of_opt TypeError (mapM (M:=option) as_array v);
  of_opt ValueError (np_stack arrays).

(** [v_[sub_key]] *)
Definition subscript (v_ : value) (sub_key : string) : res value :=
  match v_ with
  | VDict d => of_opt KeyError (dict_get d sub_key)
  | VArr _ => Raise IndexError
  | VList _ => Raise TypeError
  end.

(** The body of the stacking loop every sampler ends with. *)
Definition stack_column (v : list value) : res stacked :=
  v0 ← of_opt IndexError (py_index v 0%Z);
  match v0 with
  | VDict d0 =>
      let sub_keys := dict_keys d0 in
      cols ← fold_res (λ acc sub_key,
               col ← mapM (λ v_, subscript v_ sub_key) v;
               a ← np_stack_values col;
               Ok (dict_set acc sub_key a)) sub_keys [];
      Ok (SDict cols)
  | _ => a ← np_stack_values v; Ok (SArr a)
  end.

Definition stack_transitions (transitions : transitions_t) : res batch_t :=
  fold_res (λ new_transitions kv,
    c ← stack_column kv.2; Ok (dict_set new_transitions kv.1 c))
    transitions [].

Definition RandomSampler_func (episode_batch : loc)
    (batch_size_in_transitions : Z) : M batch_t :=
  acs <- getitem episode_batch "ac" ;;
  let rollout_batch_size := len acs in
  let batch_size := batch_size_in_transitions in
  episode_idxs <- randint_n 0%Z rollout_batch_size batch_size ;;
  t_samples <- map_M (λ episode_idx,
                 n <- episode_length episode_batch episode_idx ;;
                 randint 0%Z n) episode_idxs ;;
  ks <- keys episode_batch ;;
  transitions <- foldM (λ transitions key,
                   col <- map_M (λ et, lookup_step episode_batch key et.1 et.2)
                            (zip episode_idxs t_samples) ;;
                   ret (dict_set transitions key col)) ks [] ;;
  ob_next <- map_M (λ et, lookup_step episode_batch "ob" et.1 (et.2 + 1)%Z)
               (zip episode_idxs t_samples) ;;
  let transitions := dict_set transitions "ob_next" ob_next in
  lift_res (stack_transitions transitions).

(** [HERSampler(replay_strategy, replace_future, reward_func)] *)
Definition HERSampler_init (replay_strategy : string) (replace_future : Q)
    (reward_func : option (value → value → Q)) : HERSampler :=
  mkHERSampler replay_strategy
    (if String.eqb replay_strategy "future" then replace_future else 0%Q)
    reward_func.

(** [self.reward_func(ag, g, None)]: calling [None] is a [TypeError]. *)
Definition call_reward_func (h : HERSampler) (ag g : value) : M Q :=
  match reward_func h with
  | Some f => ret (f ag g)
  | None => raise TypeError
  end.

(** One round of the hindsight loop, for sample [i] drawn at
    [(episode_idx, t)]. *)
Definition her_step (h : HERSampler) (episode_batch : loc) (i : Z)
    (et : Z * Z) (transitions : transitions_t) : M transitions_t :=
  let episode_idx := et.1 in
  let t := et.2 in
  u <- uniform ;;
  let replace_goal := Qltb u (future_p h) in
  transitions <-
    (if replace_goal then
       n <- episode_length episode_batch episode_idx ;;
       future_t <- randint (t + 1)%Z (n + 1)%Z ;;
       future_ag <- lookup_step episode_batch "ag" episode_idx future_t ;;
       ag_t <- lookup_step episode_batch "ag" episode_idx t ;;
       r <- call_reward_func h ag_t future_ag ;;
       if Qltb r 0 then
         g <- lift_opt KeyError (dict_get transitions "g") ;;
         g' <- lift_opt IndexError (py_setitem g i future_ag) ;;
         ret (dict_set transitions "g" g')
       else ret transitions
     else ret transitions) ;;
  ag_next <- lookup_step episode_batch "ag" episode_idx (t + 1)%Z ;;
  g <- lift_opt KeyError (dict_get transitions "g") ;;
  g_i <- lift_opt IndexError (py_index g i) ;;
  r <- call_reward_func h ag_next g_i ;;
  rs <- lift_opt KeyError (dict_get transitions "r") ;;
  rs' <- lift_opt IndexError (py_setitem rs i (scalar r)) ;;
  ret (dict_set transitions "r" rs').

Definition sample_her_transitions (h : HERSampler) (episode_batch : loc)
    (batch_size_in_transitions : Z) : M batch_t :=
  acs <- getitem episode_batch "ac" ;;
  let rollout_batch_size := len acs in
  let batch_size := batch_size_in_transitions in
  episode_idxs <- randint_n 0%Z rollout_batch_size batch_size ;;
  t_samples <- map_M (λ episode_idx,
                 n <- episode_length episode_batch episode_idx ;;
                 randint 0%Z n) episode_idxs ;;
  ks <- keys episode_batch ;;
  transitions <- foldM (λ transitions key,
                   col <- map_M (λ et, lookup_step episode_batch key et.1 et.2)
                            (zip episode_idxs t_samples) ;;
                   ret (dict_set transitions key col)) ks [] ;;
  ob_next <- map_M (λ et, lookup_step episode_batch "ob" et.1 (et.2 + 1)%Z)
               (zip episode_idxs t_samples) ;;
  let transitions := dict_set transitions "ob_next" ob_next in
  let transitions := dict_set transitions "r" (np_zeros (Z.to_nat batch_size)) in
  transitions <- for_enumerate (her_step h episode_batch)
                   (zip episode_idxs t_samples) 0%Z transitions ;;
  lift_res (stack_transitions transitions).

Definition call_sampler (f : sampler) (episode_batch : loc) (batch_size : Z)
    : M batch_t :=
  match f with
  | RandomSampler_sample_func => RandomSampler_func episode_batch batch_size
  | HERSampler_sample_her_transitions h =>
      sample_her_transitions h episode_batch batch_size
  end.

(** [ReplayBuffer.sample] *)
Definition sample (batch_size : Z) : M batch_t :=
  s <- get_self ;;
  call_sampler (_sample_func s) (_buffer s) batch_size.

(** ** [LearnedRewardReplayBuffer]

    The subclass adds the field [_rew], the injected intrinsic reward
    function; it is the first argument here. *)
Definition LearnedRewardReplayBuffer_sample
    (_rew : list value → list value → nd) (batch_size_in_transitions : Z)
    : M batch_t :=
  s <- get_self ;;
  let episode_batch := _buffer s in
  acs <- getitem episode_batch "ac" ;;
  let rollout_batch_size := len acs in
  let batch_size := batch_size_in_transitions in
  episode_idxs <- randint_n 0%Z rollout_batch_size batch_size ;;
  t_samples <- map_M (λ episode_idx,
                 n <- episode_length episode_batch episode_idx ;;
                 randint 0%Z n) episode_idxs ;;
  ks <- keys episode_batch ;;
  transitions <- foldM (λ transitions key,
                   col <- map_M (λ et, lookup_step episode_batch key et.1 et.2)
                            (zip episode_idxs t_samples) ;;
                   ret (dict_set transitions key col)) ks [] ;;
  ob_next <- map_M (λ et, lookup_step episode_batch "ob" et.1 (et.2 + 1)%Z)
               (zip episode_idxs t_samples) ;;
  let transitions := dict_set transitions "ob_next" ob_next in
  ob <- lift_opt KeyError (dict_get transitions "ob") ;;
  ob_next <- lift_opt KeyError (dict_get transitions "ob_next") ;;
  let intr_rew := _rew ob ob_next in
  env_rew <- lift_opt KeyError (dict_get transitions "env_rew") ;;
  env_rew <- lift_opt ValueError (np_array env_rew) ;;
  rew <- lift_opt ValueError (np_add env_rew intr_rew) ;;
  let transitions := dict_set transitions "rew" (array_rows rew) in
  lift_res (stack_transitions transitions).



(** ** Reading the world *)

(** The episode slots stored under [k]; a key that is absent holds none. *)
Definition slots_of (d : dict (list episode)) (k : string) : list episode :=
  default [] (dict_get d k).

Definition buffer_at (w : world) (l : loc) : dict (list episode) :=
  items (heap w !!! l).

(** The dictionary [self._buffer] refers to. *)
Definition buffer_of (w : world) : dict (list episode) :=
  buffer_at w (_buffer (self w)).

(** [m] returns normally from [w], and the result and the world it leaves
    satisfy [Q]. *)
Definition wp {A} (m : M A) (Q : A → world → Prop) (w : world) : Prop :=
  match m w with
  | (Ok a, w') => Q a w'
  | (Raise _, _) => False
  end.

(** [m] raises from [w]. *)
Definition raises {A} (m : M A) (w : world) : Prop :=
  match m w with
  | (Ok _, _) => False
  | (Raise _, _) => True
  end.

(** ** What [store_episode] does to the dictionary *)

Definition rollout_get (r : rollout_t) (k : string) : list value :=
  default [] (dict_get r k).

(** A new slot for [k] at the end. *)
Definition append_key (r : rollout_t) (it : dict (list episode)) (k : string)
    : dict (list episode) :=
  dict_set it k (slots_of it k ++ [rollout_get r k]).

(** The slot of [k] at index [i] replaced. *)
Definition overwrite_key (r : rollout_t) (i : nat) (it : dict (list episode))
    (k : string) : dict (list episode) :=
  dict_set it k (<[i:=rollout_get r k]> (slots_of it k)).

(** [w'] is [w] except for the contents of the dictionary at [l]. *)
Definition frame (l : loc) (w w' : world) : Prop :=
  self w' = self w ∧
  rng_src w' = rng_src w ∧
  rng_pos w' = rng_pos w ∧
  default_factory (heap w' !!! l) = default_factory (heap w !!! l) ∧
  ∀ l', l' ≠ l → heap w' !! l' = heap w !! l'.

(** The fields of [self] after an episode is closed. *)
Definition closed (b : ReplayBuffer) : ReplayBuffer :=
  with_new_episode true
    (with_current_size (_current_size b + 1)%Z
       (with_idx ((_idx b + 1) mod _size b)%Z b)).

(** The dictionary after the loop of a call that starts a new episode. *)
Definition stored_new (s : ReplayBuffer) (r : rollout_t)
    (it : dict (list episode)) : dict (list episode) :=
  if (_current_size s <? _size s)%Z
  then fold_left (append_key r) (_keys s) it
  else fold_left (overwrite_key r (Z.to_nat (_idx s))) (_keys s) it.

(** ** The ring of episode slots *)

(** After the values [xs] were stored one by one, a ring of capacity [n]
    holds the last [min (length xs) n] of them, and value number [i] sits
    in slot [i mod n].  So the newest is in slot [(length xs - 1) mod n],
    and once [n <= length xs] the slot [length xs mod n], where the next
    write goes, holds the oldest value still kept, number
    [length xs - n]. *)
Definition ring (n : nat) (xs slots : list episode) : Prop :=
  length slots = Nat.min (length xs) n ∧
  ∀ i, length xs - n ≤ i < length xs → slots !! (i mod n) = xs !! i.

(** What [store_episode] needs of a rollout: a value for every tracked
    key, one more observation than actions, rewards and [done] flags as
    many as actions, and a last [done] flag with a truth value, [flag]. *)
Definition contract (ks : list string) (r : rollout_t) (flag : bool) : Prop :=
  (∀ k, k ∈ ks → is_Some (dict_get r k)) ∧
  length (rollout_get r "ob") = length (rollout_get r "ac") + 1 ∧
  (∀ k, k ∈ ["rew"; "env_rew"; "done"] → is_Some (dict_get r k) →
        length (rollout_get r k) = length (rollout_get r "ac")) ∧
  ∃ done last,
    dict_get r "done" = Some done ∧
    py_index done (-1)%Z = Some last ∧
    truthy last = Some flag.

(** The values the rollouts [rs] carry under [k], in the order stored. *)
Definition history (rs : list rollout_t) (k : string) : list episode :=
  (λ r, rollout_get r k) <$> rs.

(** The state of a buffer of capacity [n] tracking [ks] after exactly the
    rollouts [rs] were stored, each closing its episode. *)
Definition ring_inv (n : Z) (ks : list string) (rs : list rollout_t)
    (w : world) : Prop :=
  _size (self w) = n ∧
  _keys (self w) = ks ∧
  _new_episode (self w) = true ∧
  default_factory (heap w !!! _buffer (self w)) = true ∧
  _current_size (self w) = len rs ∧
  _idx (self w) = (len rs mod n)%Z ∧
  ∀ k, k ∈ ks → ring (Z.to_nat n) (history rs k) (slots_of (buffer_of w) k).

(** ** A small buffer to run the code on *)

Definition ex_ob (n : Z) : value :=
  VDict [("robot_ob", VArr (Ax [Sc (inject_Z n); Sc 0]))].

Definition ex_ac (n : Z) : value :=
  VDict [("default", VArr (Ax [Sc (inject_Z n)]))].

(** An episode of two steps whose observations count up from [b];
    [d] is its last [done] flag. *)
Definition ex_rollout (b : Z) (d : Q) : rollout_t :=
  [("ob", [ex_ob b; ex_ob (b + 1); ex_ob (b + 2)]);
   ("ac", [ex_ac b; ex_ac (b + 1)]);
   ("rew", [scalar 1; scalar 2]);
   ("done", [scalar 0; scalar d])].

Definition ex_keys : list string := ["ob"; "ac"; "rew"; "done"].

Definition ex_world : world :=
  mkWorld (mkReplayBuffer 0 [] RandomSampler_sample_func 0 0 true 0%nat) ∅
    (λ n, Z.of_nat n * 7 + 3)%Z 0.

(** The buffer just constructed, with capacity 2. *)
Definition ex_fresh : world :=
  (ReplayBuffer_init 2 ex_keys RandomSampler_sample_func ex_world).2.

(** A demonstration file of two steps. *)
Definition ex_demo (b : Z) : dict (list value) :=
  [("obs", [ex_ob b; ex_ob (b + 1); ex_ob (b + 2)]);
   ("actions", [VArr (Ax [Sc (inject_Z b)]); VArr (Ax [Sc (inject_Z (b + 1))])]);
   ("rewards", [scalar 1; scalar 2])].

(** A folder [demos] with three demonstration files, a text file and a
    sub-folder, and an empty folder [none]. *)
Definition ex_fs : filesystem :=
  mkFilesystem
    (λ folder,
       if String.eqb folder "demos" then
         Some [mkDirEntry "demos/a.pkl" true; mkDirEntry "demos/notes.txt" true;
               mkDirEntry "demos/b.pkl" true; mkDirEntry "demos/old.pkl" false;
               mkDirEntry "demos/c.pkl" true]
       else if String.eqb folder "none" then Some [mkDirEntry "none/readme.md" true]
       else None)
    (λ p,
       if String.eqb p "demos/a.pkl" then Some (ex_demo 0)
       else if String.eqb p "demos/b.pkl" then Some (ex_demo 10)
       else if String.eqb p "demos/c.pkl" then Some (ex_demo 20)
       else None)
    (λ _, OSError).

(** ** Episode integrity *)

(** Slot by slot: one more observation than actions, and as many rewards
    and [done] flags as actions. *)
Definition lengths_ok (it : dict (list episode)) : Prop :=
  ∀ i ac, slots_of it "ac" !! i = Some ac →
    (∀ ob, slots_of it "ob" !! i = Some ob → length ob = length ac + 1) ∧
    (∀ k e, k ∈ ["rew"; "env_rew"; "done"] → slots_of it k !! i = Some e →
            length e = length ac).

(** What holds of a buffer of capacity [n] tracking [ks] between calls of
    [store_episode], whether or not they closed their episodes; [cnt] is
    the number of slots every tracked key has. *)
Definition store_inv (n : Z) (ks : list string) (w : world) : Prop :=
  let s := self w in
  _size s = n ∧
  _keys s = ks ∧
  _new_episode s = true ∧
  default_factory (heap w !!! _buffer s) = true ∧
  (0 ≤ _idx s < n)%Z ∧
  (∃ cnt : nat,
     (∀ k, k ∈ ks → length (slots_of (buffer_of w) k) = cnt) ∧
     (_current_size s < n → _idx s = _current_size s ∧ _idx s ≤ Z.of_nat cnt)%Z ∧
     (n ≤ _current_size s → n ≤ Z.of_nat cnt)%Z) ∧
  (∀ k, k ∉ ks → slots_of (buffer_of w) k = []) ∧
  lengths_ok (buffer_of w).

(** ** Reading a batch *)

(** The number of rows of an array with a first axis. *)
Definition rows_of (a : nd) : option nat :=
  match a with
  | Sc _ => None
  | Ax rows => Some (length rows)
  end.

(** A stacked column holds [n] transitions. *)
Definition batch_rows (n : nat) (c : stacked) : Prop :=
  match c with
  | SArr a => rows_of a = Some n
  | SDict d => ∀ k a, dict_get d k = Some a → rows_of a = Some n
  end.

(** [it[key][e][t]] where all three exist. *)
Definition step_at (it : dict (list episode)) (key : string) (e t : Z)
    : option value :=
  slots ← dict_get it key; ep ← py_index slots e; py_index ep t.

(** ** The statements the three samplers begin with

    Each sampler draws the episodes and the time steps, gathers every
    key of the store at the draws and adds [ob_next]; [draw_and_gather]
    is that common beginning, returning the draws and the gathered
    columns. *)
Definition draw_and_gather (episode_batch : loc) (batch_size : Z)
    : M (list (Z * Z) * transitions_t) :=
  acs <- getitem episode_batch "ac" ;;
  let rollout_batch_size := len acs in
  episode_idxs <- randint_n 0%Z rollout_batch_size batch_size ;;
  t_samples <- map_M (λ episode_idx,
                 n <- episode_length episode_batch episode_idx ;;
                 randint 0%Z n) episode_idxs ;;
  ks <- keys episode_batch ;;
  transitions <- foldM (λ transitions key,
                   col <- map_M (λ et, lookup_step episode_batch key et.1 et.2)
                            (zip episode_idxs t_samples) ;;
                   ret (dict_set transitions key col)) ks [] ;;
  ob_next <- map_M (λ et, lookup_step episode_batch "ob" et.1 (et.2 + 1)%Z)
               (zip episode_idxs t_samples) ;;
  ret (zip episode_idxs t_samples, dict_set transitions "ob_next" ob_next).

(** ** The draws as functions of the raw words *)

(** The world after [k] more raw words were consumed. *)
Definition advance (k : nat) (w : world) : world :=
  mkWorld (self w) (heap w) (rng_src w) (k + rng_pos w).

(** The [i]-th raw word the generator will produce from [w] on. *)
Definition raw (w : world) (i : nat) : Z := rng_src w (i + rng_pos w).

(** The time step drawn for episode [e] from the raw word [r]. *)
Definition t_draw (acs : list episode) (r : Z) (e : Z) : option Z :=
  ep ← py_index acs e;
  if (len ep <=? 0)%Z then None else Some (r mod len ep)%Z.

(** The time steps drawn for the episodes [es] from the raw words number
    [p], [p + 1], ... *)
Fixpoint t_draws (acs : list episode) (src : nat → Z) (p : nat) (es : list Z)
    : option (list Z) :=
  match es with
  | [] => Some []
  | e :: es' =>
      t ← t_draw acs (src p) e;
      ts ← t_draws acs src (S p) es';
      Some (t :: ts)
  end.

(** The columns gathered for the keys [ks] at the draws [pairs]. *)
Fixpoint gather_cols (it : dict (list episode)) (pairs : list (Z * Z))
    (ks : list string) (acc : transitions_t) : option transitions_t :=
  match ks with
  | [] => Some acc
  | key :: ks' =>
      col ← mapM (λ et, step_at it key et.1 et.2) pairs;
      gather_cols it pairs ks' (dict_set acc key col)
  end.

(** The episodes drawn for a batch of [n] from [k] stored episodes. *)
Definition e_draws (k : Z) (src : nat → Z) (p : nat) (n : Z) : option (list Z) :=
  if (n <? 0)%Z then None
  else if (n =? 0)%Z then Some []
  else if (k <=? 0)%Z then None
  else Some ((λ i : nat, (src (i + p)%nat mod k)%Z) <$> seq 0 (Z.to_nat n)).

(** What [draw_and_gather] returns on the store [it] when the generator
    is about to produce the raw words [src p], [src (p + 1)], ...: the
    first [n] words choose the episodes, the next [n] the time steps. *)
Definition drawn (it : dict (list episode)) (src : nat → Z) (p : nat) (n : Z)
    : option (list (Z * Z) * transitions_t) :=
  acs ← dict_get it "ac";
  es ← e_draws (len acs) src p n;
  ts ← t_draws acs src (length es + p) es;
  let pairs := zip es ts in
  tr ← gather_cols it pairs (dict_keys it) [];
  ob_next ← mapM (λ et, step_at it "ob" et.1 (et.2 + 1)%Z) pairs;
  Some (pairs, dict_set tr "ob_next" ob_next).

(** The world after a [defaultdict] at [l] was asked for its missing key
    ["ac"]. *)
Definition with_ac (l : loc) (w : world) : world :=
  mkWorld (self w)
    (<[l:=PyDict true (dict_set (buffer_at w l) "ac" [])]> (heap w))
    (rng_src w) (rng_pos w).

(** A draw [(e, t)] names a stored episode and one of its steps. *)
Definition valid_draw (acs : list episode) (et : Z * Z) : Prop :=
  ∃ ep, (0 ≤ et.1)%Z ∧ acs !! Z.to_nat et.1 = Some ep ∧ (0 ≤ et.2 < len ep)%Z.



(** ** Hindsight relabelling, sample by sample *)

(** The goal a sample drawn at [(e, t)] ends with, when its uniform draw
    is [u], the raw word for its future index is [raw_f], and the goal
    gathered for it is [g_stored]. *)
Definition her_goal (h : HERSampler) (it : dict (list episode)) (e t : Z)
    (u : Q) (raw_f : Z) (g_stored : value) : option value :=
  if Qltb u (future_p h) then
    acs ← dict_get it "ac";
    ep ← py_index acs e;
    let future_t := (t + 1 + raw_f mod (len ep + 1 - (t + 1)))%Z in
    future_ag ← step_at it "ag" e future_t;
    ag_t ← step_at it "ag" e t;
    rf ← reward_func h;
    Some (if Qltb (rf ag_t future_ag) 0 then future_ag else g_stored)
  else Some g_stored.

(** Where in the generator's stream the rounds of the hindsight loop read
    their uniform draws: the first round reads word [p]; a round whose
    draw is below [future_p] also reads the word after it, for the future
    index; the next round starts at the first word not yet read. *)
Fixpoint her_offsets (h : HERSampler) (src : nat → Z) (p : nat) (rounds : nat)
    : list nat :=
  match rounds with
  | O => []
  | S rounds' =>
      p :: her_offsets h src
             (if Qltb (uniform_of (src p)) (future_p h) then S (S p) else S p)
             rounds'
  end.

(** A goal-conditioned buffer: achieved goals count up from [b], the
    desired goal is [goal] throughout. *)
Definition ex_goal_rollout (b goal : Z) : rollout_t :=
  [("ob", [ex_ob b; ex_ob (b + 1); ex_ob (b + 2)]);
   ("ac", [ex_ac b; ex_ac (b + 1)]);
   ("ag", [scalar (inject_Z b); scalar (inject_Z (b + 1)); scalar (inject_Z (b + 2))]);
   ("g", [scalar (inject_Z goal); scalar (inject_Z goal)]);
   ("done", [scalar 0; scalar 1])].

(** Reward 0 when the achieved goal is the goal, and -1 otherwise. *)
Definition ex_reward (ag g : value) : Q :=
  match ag, g with
  | VArr (Sc a), VArr (Sc b) => if Qeq_bool a b then 0 else -1
  | _, _ => -1
  end.

Definition ex_her : HERSampler := HERSampler_init "future" 1 (Some ex_reward).

Definition ex_goal_world : world :=
  ((ReplayBuffer_init 2 ["ob"; "ac"; "ag"; "g"; "done"]
      (HERSampler_sample_her_transitions ex_her) ;;
    store_episode (ex_goal_rollout 0 5) ;;
    store_episode (ex_goal_rollout 10 11)) ex_world).2.

(** A hindsight sampler that relabels one goal in four. *)
Definition ex_her_quarter : HERSampler :=
  HERSampler_init "future" (1 # 4) (Some ex_reward).

(** The goal-conditioned buffer with a generator whose word number 6, the
    first uniform draw of a batch of three, is [2^52], that is a draw of
    one half; every other draw is close to zero. *)
Definition ex_mixed_world : world :=
  mkWorld (self ex_goal_world) (heap ex_goal_world)
    (λ k, if (k =? 6)%nat then 2 ^ 52 else Z.of_nat k * 7 + 3)%Z 0.




(** A buffer that holds two closed episodes. *)
Definition ex_full : world :=
  ((ReplayBuffer_init 2 ex_keys RandomSampler_sample_func ;;
    store_episode (ex_rollout 0 1) ;;
    store_episode (ex_rollout 10 1)) ex_world).2.

(** ** Stores a sampler can stack *)

(** What stacking looks at in a step entry: the shape of an array, or the
    component names of a mapping with the shape of each component. *)
Inductive signature : Type :=
| SigArr (s : list nat)
| SigDict (fields : list (string * list nat)).

#[global] Instance signature_eq_dec : EqDecision signature.
Proof. solve_decision. Defined.

Definition sig_of (v : value) : option signature :=
  match v with
  | VDict d =>
      fields ← mapM (λ k, x ← dict_get d k; a ← as_array x; Some (k, shape a))
                 (dict_keys d);
      Some (SigDict fields)
  | _ => a ← as_array v; Some (SigArr (shape a))
  end.

(** All step entries under a key have one signature. *)
Definition column_homogeneous (slots : list episode) : bool :=
  match mjoin slots with
  | [] => true
  | v0 :: _ =>
      match sig_of v0 with
      | Some σ => forallb (λ v, bool_decide (sig_of v = Some σ)) (mjoin slots)
      | None => false
      end
  end.

(** Under a key there is a slot for every episode of ["ac"], with at
    least as many entries as the episode has actions, plus [extra]. *)
Definition episodes_ok (acs : list episode) (extra : nat) (slots : list episode)
    : bool :=
  (length acs <=? length slots) &&
  forallb (λ p, length p.1 + extra <=? length p.2) (zip acs slots).

(** A store as the data model describes it: at least one episode, no
    episode without a step, an observation more than actions, an entry
    per step under every other key, and one signature per key. *)
Definition store_wfb (it : dict (list episode)) : bool :=
  match dict_get it "ac", dict_get it "ob" with
  | Some acs, Some obs =>
      match acs with [] => false | _ => true end &&
      forallb (λ ep, match ep with [] => false | _ => true end) acs &&
      episodes_ok acs 1 obs &&
      forallb (λ kv, episodes_ok acs 0 kv.2 && column_homogeneous kv.2) it
  | _, _ => false
  end.

(** [b] is the batch of the transitions at the draws [pairs]: under every
    key of the store the stacked entries [it[key][e][t]], under
    ["ob_next"] the stacked [it["ob"][e][t + 1]], one row per draw, and
    nothing else. *)
Definition batch_of (it : dict (list episode)) (pairs : list (Z * Z))
    (b : batch_t) : Prop :=
  (∀ key, key ≠ "ob_next" →
     match dict_get it key with
     | Some _ =>
         ∃ col c, mapM (λ et, step_at it key et.1 et.2) pairs = Some col ∧
                  stack_column col = Ok c ∧ dict_get b key = Some c ∧
                  batch_rows (length pairs) c
     | None => dict_get b key = None
     end) ∧
  ∃ col c, mapM (λ et, step_at it "ob" et.1 (et.2 + 1)%Z) pairs = Some col ∧
           stack_column col = Ok c ∧ dict_get b "ob_next" = Some c ∧
           batch_rows (length pairs) c.

(** A generator that produces the episodes of [target] and then its time
    steps, from the position [p] on. *)
Definition src_of (target : list (Z * Z)) (p : nat) : nat → Z :=
  λ k, if (k <? p + length target)%nat
       then default 0%Z (target.*1 !! (k - p)%nat)
       else default 0%Z (target.*2 !! (k - p - length target)%nat).

(** The state of a buffer of capacity [n] tracking [ks] after the
    rollouts [rs] were stored and none of them closed its episode. *)
Definition open_inv (n : Z) (ks : list string) (rs : list rollout_t)
    (w : world) : Prop :=
  _size (self w) = n ∧
  _keys (self w) = ks ∧
  _new_episode (self w) = true ∧
  default_factory (heap w !!! _buffer (self w)) = true ∧
  _current_size (self w) = 0%Z ∧
  _idx (self w) = 0%Z ∧
  ∀ k, k ∈ ks → slots_of (buffer_of w) k = history rs k.

(** [w'] has every stored entry of [w]: no dictionary lost a key or had
    the value under a key changed, the buffer object is as it was, and
    the generator has only moved forward. *)
Definition store_kept (w w' : world) : Prop :=
  self w' = self w ∧
  rng_src w' = rng_src w ∧
  rng_pos w ≤ rng_pos w' ∧
  ∀ l, default_factory (heap w' !!! l) = default_factory (heap w !!! l) ∧
       ∀ k v, dict_get (buffer_at w l) k = Some v →
              dict_get (buffer_at w' l) k = Some v.

Definition keeps {A} (m : M A) : Prop := ∀ w, store_kept w (m w).2.

(** A buffer that still has room, whose slot at the cursor holds an
    episode with the wrong number of observations. *)
Definition mismatched (w : world) : Prop :=
  let s := self w in
  _new_episode s = true ∧
  default_factory (heap w !!! _buffer s) = true ∧
  (_current_size s < _size s)%Z ∧
  (0 ≤ _idx s)%Z ∧
  NoDup (_keys s) ∧ "ob" ∈ _keys s ∧ "ac" ∈ _keys s ∧
  ∃ ob ac,
    slots_of (buffer_of w) "ob" !! Z.to_nat (_idx s) = Some ob ∧
    slots_of (buffer_of w) "ac" !! Z.to_nat (_idx s) = Some ac ∧
    length ob ≠ length ac + 1.

(** A rollout with one observation too few. *)
Definition ex_short_rollout : rollout_t :=
  [("ob", [ex_ob 0; ex_ob 1]);
   ("ac", [ex_ac 0; ex_ac 1]);
   ("rew", [scalar 1; scalar 2]);
   ("done", [scalar 0; scalar 1])].

(** The file at [p] cannot be loaded, and [e] is the exception the
    loader raises for it: the exception of [open] or [pickle.load] when
    the file cannot be opened or unpickled, [KeyError] when it lacks one
    of the keys read, [IndexError] when it has no action, so that
    [done[-1]] does not exist. *)
Definition malformed (fs : filesystem) (p : string) (e : exn) : Prop :=
  match pickle_load fs p with
  | None => e = load_error fs p
  | Some data =>
      (e = KeyError ∧
       (dict_get data "obs" = None ∨ dict_get data "actions" = None ∨
        dict_get data "rewards" = None)) ∨
      (e = IndexError ∧
       is_Some (dict_get data "obs") ∧ dict_get data "actions" = Some [] ∧
       is_Some (dict_get data "rewards"))
  end.

(** A folder [mixed] whose second demonstration has no action, and a
    folder [broken] whose second file opens but does not unpickle. *)
Definition ex_bad_fs : filesystem :=
  mkFilesystem
    (λ folder,
       if String.eqb folder "mixed" then
         Some [mkDirEntry "mixed/a.pkl" true; mkDirEntry "mixed/empty.pkl" true;
               mkDirEntry "mixed/c.pkl" true]
       else if String.eqb folder "broken" then
         Some [mkDirEntry "broken/a.pkl" true; mkDirEntry "broken/corrupt.pkl" true]
       else None)
    (λ p,
       if String.eqb p "mixed/a.pkl" then Some (ex_demo 0)
       else if String.eqb p "mixed/empty.pkl"
            then Some [("obs", [ex_ob 0]); ("actions", []); ("rewards", [])]
       else if String.eqb p "broken/a.pkl" then Some (ex_demo 0)
       else None)
    (λ p, if String.eqb p "broken/corrupt.pkl" then UnpicklingError else OSError).

(** ** Reward shaping of [PusherEnv] ([env/pusher.py])

    The rewards are arithmetic on distances that the simulator and
    [np.linalg.norm] supply; the functions below take those distances as
    arguments.  Floats are read as the rationals their literals denote,
    so rounding is not modelled. *)

(** [np.clip(x, lo, hi)], that is [minimum(hi, maximum(x, lo))]. *)
Definition np_clip (x lo hi : Q) : Q :=
  let y := if Qltb x lo then lo else x in
  if Qltb hi y then hi else y.

(** [_huber(self, x, bound, delta=0.2)] *)
Definition _huber (x bound delta : Q) : res Q :=
  if Qltb delta bound then
    Ok (if Qltb x delta
        then (0.5 * x * x)%Q
        else (delta * (x - 0.5 * delta))%Q)
  else Raise AssertionError.

(** [_reward_fn(self, x, bound=0.7)]; both calls of [_huber] use its
    default [delta].  The divisor is [_huber(bound, bound)], which is
    positive whenever that call returned, so no division by zero
    arises. *)
Definition _reward_fn (x bound : Q) : res Q :=
  let x := np_clip x 0 bound in
  loss ← _huber x bound 0.2%Q;
  d ← _huber bound bound 0.2%Q;
  let loss := (loss / d)%Q in
  let reward := (1 - loss)%Q in
  if Qle_bool 0 loss && Qle_bool loss 1 then Ok reward else Raise AssertionError.

Definition reward_coefs : list Q := [0.5%Q; 0.375%Q; 0.125%Q].

(** [sum(l)] of Python, which starts from 0. *)
Definition py_sum (l : list Q) : Q := fold_left Qplus l 0%Q.

(** [_forward_reward], from the three distances it computes first; it
    returns the shaped reward and the [info] dictionary.  [_goal] is set
    by [__init__], so the branch for a missing goal is not taken. *)
Definition _forward_reward (obj_to_arm_dist obj_to_goal_dist control_dist : Q)
    : res (Q * dict Q) :=
  forward_reward ← _reward_fn obj_to_goal_dist 0.7%Q;
  obj_to_arm_reward ← _reward_fn obj_to_arm_dist 0.7%Q;
  control_reward ← _reward_fn control_dist 3.464%Q;
  let forward_reward_vec := [forward_reward; obj_to_arm_reward; control_reward] in
  let forward_shaped_reward :=
    py_sum (zip_with Qmult reward_coefs forward_reward_vec) in
  if Qle_bool 0 forward_shaped_reward && Qle_bool forward_shaped_reward 1 then
    Ok (forward_shaped_reward,
        [("forward_reward", (forward_reward * 0.5)%Q);
         ("obj_to_arm_reward", (obj_to_arm_reward * 0.375)%Q);
         ("control_penalty", (control_reward * 0.125)%Q);
         ("obj_to_arm_dist", obj_to_arm_dist);
         ("obj_to_goal_dist", obj_to_goal_dist)])
  else Raise AssertionError.

(** What [_reset_reward] reads of the environment and its
    configuration; [_sparse_remove_rew] is
    [config.use_aot or config.sparse_remove_rew]. *)
Record reset_env : Type := mkResetEnv {
  _sparse_remove_rew : bool;
  _success : bool;
  success_rew : Q;
  use_aot : bool;
  aot_succ_rew : Q
}.

Definition _reset_reward (env : reset_env)
    (obj_to_arm_dist obj_to_start_dist control_dist : Q) : res (Q * dict Q) :=
  reset_reward ← _reward_fn obj_to_start_dist 0.7%Q;
  obj_to_arm_reward ← _reward_fn obj_to_arm_dist 0.7%Q;
  control_reward ← _reward_fn control_dist 3.464%Q;
  let reset_reward_vec := [reset_reward; obj_to_arm_reward; control_reward] in
  let tail := [("reset_reward", (reset_reward * 0.5)%Q);
               ("obj_to_arm_reward", (obj_to_arm_reward * 0.375)%Q);
               ("control_penalty", (control_reward * 0.125)%Q);
               ("obj_to_arm_dist", obj_to_arm_dist);
               ("obj_to_start_dist", obj_to_start_dist)] in
  if _sparse_remove_rew env then
    let success_reward :=
      if _success env
      then (if use_aot env then aot_succ_rew env else success_rew env)
      else 0%Q in
    let reset_shaped_reward := (success_reward + 0.125 * control_reward)%Q in
    Ok (reset_shaped_reward, ("success_reward", success_reward) :: tail)
  else
    let reset_shaped_reward :=
      py_sum (zip_with Qmult reward_coefs reset_reward_vec) in
    if Qle_bool 0 reset_shaped_reward && Qle_bool reset_shaped_reward 1
    then Ok (reset_shaped_reward, tail)
    else Raise AssertionError.

(** The Huber loss for the default [delta]. *)
Definition huber_loss (x : Q) : Q :=
  if Qltb x 0.2%Q then (0.5 * x * x)%Q else (0.2 * (x - 0.5 * 0.2))%Q.

(** What sampling needs of the rollouts [rs] stored under the keys
    [ks], beyond the contract of [store_episode]: every episode has a
    step, every tracked key has an entry for every step, and the
    entries under a key have one signature, so that they stack. *)
Definition stackable (ks : list string) (rs : list rollout_t) : Prop :=
  (∀ r, r ∈ rs →
     rollout_get r "ac" ≠ [] ∧
     ∀ k, k ∈ ks → length (rollout_get r "ac") ≤ length (rollout_get r k)) ∧
  ∀ k, k ∈ ks → ∃ σ, ∀ r v, r ∈ rs → v ∈ rollout_get r k → sig_of v = Some σ.

(** The dictionary of a buffer tracking [ks] has the keys [ks] and no
    others, once an episode was stored. *)
Definition keys_inv (ks : list string) (rs : list rollout_t) (w : world) : Prop :=
  NoDup (dict_keys (buffer_of w)) ∧
  (∀ k, k ∈ dict_keys (buffer_of w) → k ∈ ks) ∧
  (rs ≠ [] → ∀ k, k ∈ ks → is_Some (dict_get (buffer_of w) k)).

(** * Properties *)

(** ** The monad *)

Lemma bind_Ok {A B} (m : M A) (f : A → M B) w a w1 :
  m w = (Ok a, w1) → bind m f w = f a w1.
Proof. intros H. unfold bind. by rewrite H. Qed.

Lemma bind_Raise {A B} (m : M A) (f : A → M B) w e w1 :
  m w = (Raise e, w1) → bind m f w = (Raise e, w1).
Proof. intros H. unfold bind. by rewrite H. Qed.

Lemma bind_Ok_inv {A B} (m : M A) (f : A → M B) w b w' :
  bind m f w = (Ok b, w') →
  ∃ a w1, m w = (Ok a, w1) ∧ f a w1 = (Ok b, w').
Proof.
  unfold bind. destruct (m w) as [[a|e] w1]; [eauto | discriminate].
Qed.

Lemma wp_bind {A B} (m : M A) (f : A → M B) Q w :
  wp m (λ a w1, wp (f a) Q w1) w → wp (bind m f) Q w.
Proof.
  unfold wp, bind. destruct (m w) as [[a|e] w1]; [done | done].
Qed.

Lemma wp_ret {A} (a : A) (Q : A → world → Prop) w : Q a w → wp (ret a) Q w.
Proof. done. Qed.

Lemma wp_mono {A} (m : M A) (Q Q' : A → world → Prop) w :
  wp m Q w → (∀ a w', Q a w' → Q' a w') → wp m Q' w.
Proof.
  unfold wp. destruct (m w) as [[a|e] w1]; [eauto | done].
Qed.

Lemma wp_eq {A} (m : M A) Q w a w' : m w = (Ok a, w') → Q a w' → wp m Q w.
Proof. intros H HQ. unfold wp. by rewrite H. Qed.

Lemma wp_inv {A} (m : M A) Q w :
  wp m Q w → ∃ a w', m w = (Ok a, w') ∧ Q a w'.
Proof.
  unfold wp. destruct (m w) as [[a|e] w1]; [eauto | done].
Qed.

(** ** Dictionaries *)

Lemma dict_get_set_eq {V} (d : dict V) k v : dict_get (dict_set d k v) k = Some v.
Proof.
  induction d as [|[k' v'] d IH]; simpl.
  - by rewrite String.eqb_refl.
  - destruct (String.eqb k' k) eqn:E; simpl.
    + by rewrite String.eqb_refl.
    + by rewrite E.
Qed.

Lemma dict_get_set_ne {V} (d : dict V) k k' v :
  k ≠ k' → dict_get (dict_set d k v) k' = dict_get d k'.
Proof.
  intros Hne. induction d as [|[k0 v0] d IH]; simpl.
  - apply String.eqb_neq in Hne. by rewrite Hne.
  - destruct (String.eqb k0 k) eqn:E; simpl.
    + apply String.eqb_eq in E. subst k0.
      apply String.eqb_neq in Hne. by rewrite Hne.
    + destruct (String.eqb k0 k'); [done | apply IH].
Qed.

Lemma dict_get_set {V} (d : dict V) k k' v :
  dict_get (dict_set d k v) k' = if String.eqb k k' then Some v else dict_get d k'.
Proof.
  destruct (String.eqb k k') eqn:E.
  - apply String.eqb_eq in E. subst. apply dict_get_set_eq.
  - apply String.eqb_neq in E. by apply dict_get_set_ne.
Qed.

Lemma dict_set_set {V} (d : dict V) k v v' :
  dict_set (dict_set d k v) k v' = dict_set d k v'.
Proof.
  induction d as [|[k0 v0] d IH]; simpl.
  - by rewrite String.eqb_refl.
  - destruct (String.eqb k0 k) eqn:E; simpl.
    + by rewrite String.eqb_refl.
    + by rewrite E, IH.
Qed.

Lemma slots_of_set d k k' v :
  slots_of (dict_set d k v) k' = if String.eqb k k' then v else slots_of d k'.
Proof.
  unfold slots_of. rewrite dict_get_set. by destruct (String.eqb k k').
Qed.

(** ** Checkpointing: [state_dict] and [load_state_dict] *)

Lemma getitem_eq l k w :
  getitem l k w =
  match dict_get (buffer_at w l) k with
  | Some v => (Ok v, w)
  | None =>
      if default_factory (heap w !!! l)
      then (Ok [], mkWorld (self w)
                     (<[l:=PyDict true (dict_set (buffer_at w l) k [])]> (heap w))
                     (rng_src w) (rng_pos w))
      else (Raise KeyError, w)
  end.
Proof.
  unfold getitem, buffer_at, bind, heap_get. simpl.
  destruct (dict_get (items (heap w !!! l)) k); [done |].
  by destruct (default_factory (heap w !!! l)).
Qed.

Lemma load_state_dict_eq d w :
  load_state_dict d w =
  match dict_get (buffer_at w d) "ac" with
  | Some acs =>
      (Ok tt, mkWorld (with_current_size (len acs) (with_buffer d (self w)))
                (heap w) (rng_src w) (rng_pos w))
  | None =>
      if default_factory (heap w !!! d)
      then (Ok tt, mkWorld (with_current_size 0%Z (with_buffer d (self w)))
                     (<[d:=PyDict true (dict_set (buffer_at w d) "ac" [])]> (heap w))
                     (rng_src w) (rng_pos w))
      else (Raise KeyError,
            mkWorld (with_buffer d (self w)) (heap w) (rng_src w) (rng_pos w))
  end.
Proof.
  unfold load_state_dict, modify_self, get_self, set_self.
  unfold bind at 1 2 3 4. simpl. unfold bind at 1. rewrite getitem_eq.
  unfold buffer_at. simpl.
  destruct (dict_get (items (heap w !!! d)) "ac") as [acs|]; simpl; [done |].
  by destruct (default_factory (heap w !!! d)).
Qed.

Lemma ReplayBuffer_init_eq buffer_size ks f w :
  ReplayBuffer_init buffer_size ks f w =
  (Ok tt,
   mkWorld (mkReplayBuffer buffer_size ks f 0%Z 0%Z true (fresh (dom (heap w))))
     (<[fresh (dom (heap w)):=PyDict true []]> (heap w)) (rng_src w) (rng_pos w)).
Proof. done. Qed.

(** C10: [load_state_dict(d)] writes [_buffer] (now [d]) and
    [_current_size] (the number of episode slots under ["ac"] in [d]) and
    nothing else of the buffer object: the cursor [_idx], the flag
    [_new_episode], the capacity, the keys and the sampler are as before,
    also when the call raises; the generator is not used, no other
    dictionary object changes, and the episodes of [d] are as before.  On
    a freshly constructed buffer the cursor therefore stays 0. *)
Theorem load_state_dict_frame (d : loc) (w : world) :
  let r := load_state_dict d w in
  _idx (self r.2) = _idx (self w) ∧
  _new_episode (self r.2) = _new_episode (self w) ∧
  _size (self r.2) = _size (self w) ∧
  _keys (self r.2) = _keys (self w) ∧
  _sample_func (self r.2) = _sample_func (self w) ∧
  _buffer (self r.2) = d ∧
  rng_src r.2 = rng_src w ∧ rng_pos r.2 = rng_pos w ∧
  (∀ l, l ≠ d → heap r.2 !! l = heap w !! l) ∧
  (∀ k, slots_of (buffer_at r.2 d) k = slots_of (buffer_at w d) k) ∧
  (r.1 = Ok tt → _current_size (self r.2) = len (slots_of (buffer_at w d) "ac")) ∧
  (∀ buffer_size ks f,
     _idx (self ((ReplayBuffer_init buffer_size ks f ;; load_state_dict d) w).2) = 0%Z).
Proof.
  intros r. subst r. split_and!.
  1-8: rewrite load_state_dict_eq;
       destruct (dict_get (buffer_at w d) "ac");
       [done | by destruct (default_factory (heap w !!! d))].
  - intros l Hl. rewrite load_state_dict_eq.
    destruct (dict_get (buffer_at w d) "ac"); [done |].
    destruct (default_factory (heap w !!! d)); [|done].
    simpl. by rewrite lookup_insert_ne.
  - intros k. rewrite load_state_dict_eq.
    destruct (dict_get (buffer_at w d) "ac") eqn:Hac; [done |].
    destruct (default_factory (heap w !!! d)); [|done].
    unfold buffer_at at 1. simpl. rewrite lookup_total_insert_eq. simpl.
    rewrite slots_of_set. destruct (String.eqb "ac" k) eqn:E; [|done].
    apply String.eqb_eq in E. subst k. unfold slots_of. by rewrite Hac.
  - rewrite load_state_dict_eq. unfold slots_of.
    destruct (dict_get (buffer_at w d) "ac") eqn:Hac; [done |].
    by destruct (default_factory (heap w !!! d)).
  - intros buffer_size ks f.
    rewrite (bind_Ok _ _ _ _ _ (ReplayBuffer_init_eq buffer_size ks f w)).
    rewrite load_state_dict_eq.
    match goal with |- context [dict_get ?a ?b] => destruct (dict_get a b) end;
      [done |].
    match goal with |- context [default_factory ?a] => by destruct (default_factory a) end.
Qed.

(** C8: [B'.load_state_dict(B.state_dict())], for a buffer [B] whose
    dictionary is a [defaultdict] (every buffer's is after construction)
    or has the key ["ac"] (every dictionary a buffer loaded without error
    has it), returns normally; afterwards [B'] refers to the very
    dictionary object of [B], which holds under every key the episodes it
    held before the call, and [_current_size] of [B'] is the number of
    episode slots under ["ac"].  [B'] may be [B] itself. *)
Theorem load_state_dict_state_dict (B' : ReplayBuffer) (w : world) :
  default_factory (heap w !!! _buffer (self w)) = true
  ∨ dict_mem (buffer_of w) "ac" = true →
  wp (d <- state_dict ;; set_self B' ;; load_state_dict d)
     (λ _ w',
        _buffer (self w') = _buffer (self w) ∧
        (∀ k, slots_of (buffer_of w') k = slots_of (buffer_of w) k) ∧
        _current_size (self w') = len (slots_of (buffer_of w') "ac")) w.
Proof.
  intros Hkind. unfold wp, state_dict, get_self, set_self.
  unfold bind at 1 2 3. simpl. rewrite load_state_dict_eq.
  unfold buffer_of, buffer_at in *. simpl. unfold dict_mem in Hkind.
  destruct (dict_get (items (heap w !!! _buffer (self w))) "ac") as [acs|] eqn:Hac.
  - simpl. unfold slots_of. by rewrite Hac.
  - destruct Hkind as [-> | ?]; [|done]. simpl.
    rewrite lookup_total_insert_eq. simpl. split_and!; [done | | ].
    + intros k. rewrite slots_of_set. destruct (String.eqb "ac" k) eqn:E; [|done].
      apply String.eqb_eq in E. subst k. unfold slots_of. by rewrite Hac.
    + by rewrite slots_of_set.
Qed.

Lemma load_state_dict_state_dict_witness :
  let B' := mkReplayBuffer 5 ["ob"; "ac"] RandomSampler_sample_func 3 7 true 41%nat in
  wp (d <- state_dict ;; set_self B' ;; load_state_dict d)
     (λ _ w',
        _buffer (self w') = _buffer (self ex_full) ∧
        _buffer (self w') ≠ _buffer B' ∧
        slots_of (buffer_of w') "ob" = slots_of (buffer_of ex_full) "ob" ∧
        length (slots_of (buffer_of w') "ob") = 2 ∧
        _current_size (self w') = 2%Z ∧
        _current_size (self w') ≠ _current_size B') ex_full.
Proof.
  cbv zeta. eapply wp_mono.
  - apply (load_state_dict_state_dict
             (mkReplayBuffer 5 ["ob"; "ac"] RandomSampler_sample_func 3 7 true 41%nat)
             ex_full).
    right. vm_compute. reflexivity.
  - intros [] w' (Hb & Hs & Hc).
    assert (Hsize : _current_size (self w') = 2%Z).
    { rewrite Hc, (Hs "ac"). vm_compute. reflexivity. }
    split_and!.
    + exact Hb.
    + rewrite Hb. vm_compute. discriminate.
    + exact (Hs "ob").
    + rewrite (Hs "ob"). vm_compute. reflexivity.
    + exact Hsize.
    + rewrite Hsize. vm_compute. discriminate.
Defined.

(** ** Loading demonstrations *)


Lemma scan_demos_none entries num_demos demos i :
  List.filter is_demo entries = [] →
  scan_demos entries num_demos demos i = demos.
Proof.
  revert demos i. induction entries as [|d rest IH]; intros demos i Hnone; simpl.
  - done.
  - simpl in Hnone. destruct (is_demo d); [done |].
    destruct (num_demos <? i)%Z; [done |]. by apply IH.
Qed.




(** ** Sampling from a buffer without episodes *)

Lemma raises_bind_Ok {A B} (m : M A) (f : A → M B) w a w1 :
  m w = (Ok a, w1) → raises (f a) w1 → raises (bind m f) w.
Proof. intros H. unfold raises. by rewrite (bind_Ok _ _ _ _ _ H). Qed.

Lemma raises_bind_Raise {A B} (m : M A) (f : A → M B) w e w1 :
  m w = (Raise e, w1) → raises (bind m f) w.
Proof. intros H. unfold raises. by rewrite (bind_Raise _ _ _ _ _ H). Qed.

Lemma randint_n_empty_range n w :
  randint_n 0 0 n w =
  if (n <? 0)%Z then (Raise ValueError, w)
  else if (n =? 0)%Z then (Ok [], w) else (Raise ValueError, w).
Proof.
  unfold randint_n. destruct (Z.ltb_spec n 0); [done |].
  destruct (Z.eqb_spec n 0); [done |].
  destruct (Z.to_nat n) eqn:E; [lia |]. done.
Qed.

Lemma gather_no_samples (f : string → Z * Z → M value) ks acc w :
  foldM (λ transitions key,
     col <- map_M (f key) [] ;; ret (dict_set transitions key col)) ks acc w =
  (Ok (fold_left (λ tr key, dict_set tr key []) ks acc), w).
Proof.
  revert acc. induction ks as [|k ks IH]; intros acc; simpl; [done |].
  unfold bind at 1. simpl. apply IH.
Qed.

Lemma dict_set_all_empty {V} (d : dict (list V)) k :
  Forall (λ kv, kv.2 = []) d → Forall (λ kv, kv.2 = []) (dict_set d k []).
Proof.
  induction 1 as [|[k0 v0] d Hkv Hd IH]; simpl.
  - by constructor.
  - destruct (String.eqb k0 k); constructor; done.
Qed.

Lemma dict_set_nonempty {V} (d : dict V) k v : dict_set d k v ≠ [].
Proof. destruct d as [|[k0 v0] d]; simpl; [done |]. by destruct (String.eqb k0 k). Qed.

Lemma fold_set_all_empty {V} ks (acc : dict (list V)) :
  Forall (λ kv, kv.2 = []) acc →
  Forall (λ kv, kv.2 = []) (fold_left (λ tr key, dict_set tr key []) ks acc).
Proof.
  revert acc. induction ks as [|k ks IH]; intros acc Hacc; simpl; [done |].
  apply IH. by apply dict_set_all_empty.
Qed.

Lemma stack_transitions_no_samples (tr : transitions_t) :
  tr ≠ [] → Forall (λ kv, kv.2 = []) tr →
  stack_transitions tr = Raise IndexError.
Proof.
  intros Hne Hall. destruct tr as [|[k v] tr]; [done |].
  apply Forall_cons in Hall as [Hv _]. simpl in Hv. subst v. done.
Qed.

Lemma sampler_no_episodes (f : sampler) eb n w :
  dict_get (buffer_at w eb) "ac" = Some [] →
  raises (call_sampler f eb n) w.
Proof.
  intros Hac.
  assert (Hget : getitem eb "ac" w = (Ok [], w)) by (by rewrite getitem_eq, Hac).
  destruct f as [|h]; simpl.
  - unfold RandomSampler_func.
    eapply raises_bind_Ok; [exact Hget |]. simpl.
    destruct (Z.ltb_spec n 0) as [Hneg|Hnn].
    { eapply raises_bind_Raise. rewrite randint_n_empty_range.
      destruct (Z.ltb_spec n 0); [done | lia]. }
    destruct (Z.eqb_spec n 0) as [->|Hpos]; last first.
    { eapply raises_bind_Raise. rewrite randint_n_empty_range.
      destruct (Z.ltb_spec n 0); [lia |]. destruct (Z.eqb_spec n 0); [lia | done]. }
    eapply raises_bind_Ok; [by rewrite randint_n_empty_range |].
    eapply raises_bind_Ok; [done |].
    eapply raises_bind_Ok; [done |].
    eapply raises_bind_Ok; [apply gather_no_samples |].
    eapply raises_bind_Ok; [done |].
    unfold raises, lift_res. rewrite stack_transitions_no_samples; [done | |].
    + apply dict_set_nonempty.
    + apply dict_set_all_empty, fold_set_all_empty. constructor.
  - unfold sample_her_transitions.
    eapply raises_bind_Ok; [exact Hget |]. simpl.
    destruct (Z.ltb_spec n 0) as [Hneg|Hnn].
    { eapply raises_bind_Raise. rewrite randint_n_empty_range.
      destruct (Z.ltb_spec n 0); [done | lia]. }
    destruct (Z.eqb_spec n 0) as [->|Hpos]; last first.
    { eapply raises_bind_Raise. rewrite randint_n_empty_range.
      destruct (Z.ltb_spec n 0); [lia |]. destruct (Z.eqb_spec n 0); [lia | done]. }
    eapply raises_bind_Ok; [by rewrite randint_n_empty_range |].
    eapply raises_bind_Ok; [done |].
    eapply raises_bind_Ok; [done |].
    eapply raises_bind_Ok; [apply gather_no_samples |].
    eapply raises_bind_Ok; [done |].
    eapply raises_bind_Ok; [done |].
    unfold raises, lift_res. rewrite stack_transitions_no_samples; [done | |].
    + apply dict_set_nonempty.
    + apply (dict_set_all_empty _ "r"), dict_set_all_empty, fold_set_all_empty.
      constructor.
Qed.

(** C5 (amended): on a buffer that holds no episode, [sample(batch_size)]
    raises for every [batch_size] and either sampler, so it yields no
    batch; [load_demonstrations] on a folder without a matching file
    returns normally and leaves the buffer and everything else as it
    was. *)
Theorem empty_sources (w : world) :
  (∀ batch_size, slots_of (buffer_of w) "ac" = [] → raises (sample batch_size) w) ∧
  (∀ fs demo_folder entries num_demos,
     scandir fs demo_folder = Some entries →
     List.filter is_demo entries = [] →
     load_demonstrations fs demo_folder num_demos w = (Ok tt, w)).
Proof.
  split.
  - intros n Hempty. unfold sample.
    eapply raises_bind_Ok; [done |].
    unfold buffer_of, slots_of in Hempty.
    destruct (dict_get (buffer_at w (_buffer (self w))) "ac") as [acs|] eqn:Hac.
    + simpl in Hempty. subst acs. by apply sampler_no_episodes.
    + destruct (default_factory (heap w !!! _buffer (self w))) eqn:Hdef.
      * set (w1 := mkWorld (self w)
          (<[_buffer (self w):=PyDict true (dict_set (buffer_at w (_buffer (self w))) "ac" [])]>
             (heap w)) (rng_src w) (rng_pos w)).
        assert (Hget : getitem (_buffer (self w)) "ac" w = (Ok [], w1))
          by (by rewrite getitem_eq, Hac, Hdef).
        assert (Hac1 : dict_get (buffer_at w1 (_buffer (self w))) "ac" = Some []).
        { unfold buffer_at, w1. simpl. rewrite lookup_total_insert_eq. simpl.
          apply dict_get_set_eq. }
        assert (Hget1 : getitem (_buffer (self w)) "ac" w1 = (Ok [], w1))
          by (by rewrite getitem_eq, Hac1).
        pose proof (sampler_no_episodes (_sample_func (self w)) _ n w1 Hac1) as Hr.
        revert Hr. unfold raises.
        destruct (_sample_func (self w)); simpl;
          unfold RandomSampler_func, sample_her_transitions;
          rewrite (bind_Ok _ _ _ _ _ Hget), (bind_Ok _ _ _ _ _ Hget1); done.
      * destruct (_sample_func (self w)); simpl;
          unfold RandomSampler_func, sample_her_transitions;
          (eapply raises_bind_Raise; by rewrite getitem_eq, Hac, Hdef).
  - intros fs demo_folder entries num_demos Hscan Hnone.
    unfold load_demonstrations. unfold bind, lift_opt, lift_res.
    rewrite Hscan. simpl. by rewrite scan_demos_none.
Qed.

Lemma empty_sources_witness :
  raises (sample 3) ex_fresh ∧
  load_demonstrations ex_fs "none" 2 ex_fresh = (Ok tt, ex_fresh).
Proof.
  destruct (empty_sources ex_fresh) as [Hsample Hload]. split.
  - apply Hsample. reflexivity.
  - apply (Hload ex_fs "none" [mkDirEntry "none/readme.md" true] 2%Z); reflexivity.
Defined.

(** C5 as stated fails: sampling three transitions from a buffer just
    constructed raises [ValueError]; with a batch size of 0 it is
    [IndexError]. *)
Lemma sample_empty_buffer_raises :
  (sample 3 ex_fresh).1 = Raise ValueError ∧
  (sample 0 ex_fresh).1 = Raise IndexError ∧
  ¬ (∃ b, (sample 3 ex_fresh).1 = Ok b).
Proof.
  split_and!; [by vm_compute | by vm_compute |].
  intros [b Hb]. vm_compute in Hb. discriminate.
Qed.

(** ** [store_episode] *)

Lemma frame_refl l w : frame l w w.
Proof. by repeat split. Qed.

Lemma frame_trans l w1 w2 w3 : frame l w1 w2 → frame l w2 w3 → frame l w1 w3.
Proof.
  intros (H1 & H2 & H3 & H4 & H5) (G1 & G2 & G3 & G4 & G5).
  repeat split; try congruence.
  intros l' Hl'. rewrite G5, H5; done.
Qed.

Lemma setitem_eq l k v w :
  setitem l k v w =
  (Ok tt, mkWorld (self w)
            (<[l:=PyDict (default_factory (heap w !!! l)) (dict_set (buffer_at w l) k v)]>
               (heap w)) (rng_src w) (rng_pos w)).
Proof. done. Qed.

Lemma store_new_key_append r k w x :
  default_factory (heap w !!! _buffer (self w)) = true →
  (_current_size (self w) <? _size (self w))%Z = true →
  dict_get r k = Some x →
  ∃ w', store_new_key r k w = (Ok tt, w') ∧
        frame (_buffer (self w)) w w' ∧
        buffer_at w' (_buffer (self w)) = append_key r (buffer_at w (_buffer (self w))) k.
Proof.
  intros Hdef Hroom Hx. unfold store_new_key.
  unfold bind at 1. simpl. rewrite Hroom.
  unfold bind at 1. rewrite getitem_eq.
  unfold append_key, rollout_get, slots_of. rewrite Hx. simpl.
  destruct (dict_get (buffer_at w (_buffer (self w))) k) as [slots|] eqn:Hk.
  - unfold bind, lift_opt, lift_res. simpl. rewrite setitem_eq.
    eexists. split; [done |]. split.
    + repeat split; simpl; try done.
      * by rewrite lookup_total_insert_eq.
      * intros l' Hl'. by rewrite lookup_insert_ne.
    + unfold buffer_at at 1. simpl. rewrite lookup_total_insert_eq. done.
  - rewrite Hdef. unfold bind, lift_opt, lift_res. simpl.
    rewrite setitem_eq. eexists. split; [done |]. split.
    + repeat split; simpl; try done.
      * rewrite !lookup_total_insert_eq. simpl. done.
      * intros l' Hl'. by rewrite !lookup_insert_ne.
    + unfold buffer_at at 1 2. simpl. rewrite !lookup_total_insert_eq. simpl.
      unfold buffer_at at 1. simpl. rewrite lookup_total_insert_eq. simpl.
      by rewrite dict_set_set.
Qed.

Lemma py_setitem_Some {A} (l : list A) (i : Z) x :
  (0 ≤ i < len l)%Z → py_setitem l i x = Some (<[Z.to_nat i:=x]> l).
Proof.
  intros [H0 H1]. unfold py_setitem.
  destruct (Z.leb_spec 0 i); [|lia]. by destruct (Z.ltb_spec i (len l)); [|lia].
Qed.

Lemma py_index_Some {A} (l : list A) (i : Z) :
  (0 ≤ i)%Z → py_index l i = l !! Z.to_nat i.
Proof. intros H0. unfold py_index. by destruct (Z.leb_spec 0 i); [|lia]. Qed.

Lemma store_new_key_overwrite r k w x :
  (_current_size (self w) <? _size (self w))%Z = false →
  dict_get r k = Some x →
  (0 ≤ _idx (self w) < len (slots_of (buffer_at w (_buffer (self w))) k))%Z →
  ∃ w', store_new_key r k w = (Ok tt, w') ∧
        frame (_buffer (self w)) w w' ∧
        buffer_at w' (_buffer (self w)) =
          overwrite_key r (Z.to_nat (_idx (self w))) (buffer_at w (_buffer (self w))) k.
Proof.
  intros Hroom Hx Hidx. unfold store_new_key.
  unfold bind at 1. simpl. rewrite Hroom.
  unfold bind at 1, lift_opt, lift_res. rewrite Hx. simpl.
  unfold bind at 1. rewrite getitem_eq.
  unfold overwrite_key, rollout_get. rewrite Hx. simpl.
  unfold slots_of in *.
  destruct (dict_get (buffer_at w (_buffer (self w))) k) as [slots|] eqn:Hk;
    simpl in *; [|unfold len in Hidx; simpl in Hidx; lia].
  unfold bind at 1. rewrite py_setitem_Some by done. simpl.
  rewrite setitem_eq. eexists. split; [done |]. split.
  - repeat split; simpl; try done.
    + by rewrite lookup_total_insert_eq.
    + intros l' Hl'. by rewrite lookup_insert_ne.
  - unfold buffer_at at 1. simpl. by rewrite lookup_total_insert_eq.
Qed.

Lemma for_append r ks w :
  default_factory (heap w !!! _buffer (self w)) = true →
  (_current_size (self w) <? _size (self w))%Z = true →
  (∀ k, k ∈ ks → is_Some (dict_get r k)) →
  ∃ w', for_ ks (store_new_key r) w = (Ok tt, w') ∧
        frame (_buffer (self w)) w w' ∧
        buffer_at w' (_buffer (self w)) =
          fold_left (append_key r) ks (buffer_at w (_buffer (self w))).
Proof.
  revert w. induction ks as [|k ks IH]; intros w Hdef Hroom Hr; simpl.
  - eexists. split; [done |]. split; [apply frame_refl | done].
  - destruct (Hr k) as [x Hx]; [left |].
    destruct (store_new_key_append r k w x Hdef Hroom Hx) as (w1 & E1 & F1 & B1).
    pose proof F1 as (Hs & _ & _ & Hd & _).
    destruct (IH w1) as (w2 & E2 & F2 & B2).
    { rewrite Hs. congruence. }
    { by rewrite Hs. }
    { intros k' Hk'. apply Hr. by right. }
    rewrite Hs in F2, B2. exists w2. split.
    + by rewrite (bind_Ok _ _ _ _ _ E1).
    + split; [by eapply frame_trans |]. by rewrite B2, B1.
Qed.

Lemma overwrite_key_length r i it k k' :
  length (slots_of (overwrite_key r i it k) k') = length (slots_of it k').
Proof.
  unfold overwrite_key. rewrite slots_of_set.
  destruct (String.eqb k k') eqn:E; [|done].
  apply String.eqb_eq in E. subst. apply length_insert.
Qed.

Lemma for_overwrite r ks w :
  (_current_size (self w) <? _size (self w))%Z = false →
  (∀ k, k ∈ ks → is_Some (dict_get r k)) →
  (∀ k, k ∈ ks →
     (0 ≤ _idx (self w) < len (slots_of (buffer_at w (_buffer (self w))) k))%Z) →
  ∃ w', for_ ks (store_new_key r) w = (Ok tt, w') ∧
        frame (_buffer (self w)) w w' ∧
        buffer_at w' (_buffer (self w)) =
          fold_left (overwrite_key r (Z.to_nat (_idx (self w)))) ks
            (buffer_at w (_buffer (self w))).
Proof.
  revert w. induction ks as [|k ks IH]; intros w Hroom Hr Hidx; simpl.
  - eexists. split; [done |]. split; [apply frame_refl | done].
  - destruct (Hr k) as [x Hx]; [left |].
    destruct (store_new_key_overwrite r k w x Hroom Hx) as (w1 & E1 & F1 & B1).
    { apply Hidx. left. }
    pose proof F1 as (Hs & _ & _ & Hd & _).
    destruct (IH w1) as (w2 & E2 & F2 & B2).
    { by rewrite Hs. }
    { intros k' Hk'. apply Hr. by right. }
    { intros k' Hk'. rewrite Hs, B1. unfold len. rewrite overwrite_key_length.
      apply Hidx. by right. }
    rewrite Hs in F2, B2. exists w2. split.
    + by rewrite (bind_Ok _ _ _ _ _ E1).
    + split; [by eapply frame_trans |]. by rewrite B2, B1.
Qed.

Lemma check_lengths_ok w obs acs ob ac :
  dict_get (buffer_of w) "ob" = Some obs →
  dict_get (buffer_of w) "ac" = Some acs →
  py_index obs (_idx (self w)) = Some ob →
  py_index acs (_idx (self w)) = Some ac →
  length ob = length ac + 1 →
  check_lengths w = (Ok tt, w).
Proof.
  intros Hob Hac Hiob Hiac Hlen. unfold check_lengths, buffer_of in *.
  unfold bind at 1. simpl.
  unfold bind at 1, contains, heap_get, bind at 1. simpl.
  fold (buffer_at w (_buffer (self w))). unfold dict_mem. rewrite Hac.
  unfold bind at 1. rewrite getitem_eq, Hob.
  unfold bind at 1, lift_opt, lift_res. rewrite Hiob. simpl.
  unfold bind at 1. rewrite getitem_eq, Hac.
  unfold bind at 1. rewrite Hiac. simpl.
  unfold len. destruct (Z.eqb_spec (Z.of_nat (length ob)) (Z.of_nat (length ac) + 1));
    [done | lia].
Qed.

Lemma close_if_done_eq r w done last flag :
  dict_get r "done" = Some done →
  py_index done (-1)%Z = Some last →
  truthy last = Some flag →
  _size (self w) ≠ 0%Z →
  close_if_done r w =
  (Ok tt, if flag
          then mkWorld (closed (self w)) (heap w) (rng_src w) (rng_pos w)
          else w).
Proof.
  intros Hdone Hlast Hflag Hsize. unfold close_if_done, lift_opt, lift_res.
  unfold bind at 1. rewrite Hdone. simpl.
  unfold bind at 1. rewrite Hlast. simpl.
  unfold bind at 1. rewrite Hflag. simpl.
  destruct flag; [|done].
  unfold bind at 1. simpl. unfold bind at 1.
  destruct (Z.eqb_spec (_size (self w)) 0); [done |]. done.
Qed.

Lemma store_episode_new r w done last flag obs acs ob ac :
  let s := self w in
  let it1 := stored_new s r (buffer_at w (_buffer s)) in
  _new_episode s = true →
  default_factory (heap w !!! _buffer s) = true →
  (∀ k, k ∈ _keys s → is_Some (dict_get r k)) →
  ((_current_size s <? _size s)%Z = false →
   ∀ k, k ∈ _keys s → (0 ≤ _idx s < len (slots_of (buffer_at w (_buffer s)) k))%Z) →
  dict_get it1 "ob" = Some obs →
  dict_get it1 "ac" = Some acs →
  py_index obs (_idx s) = Some ob →
  py_index acs (_idx s) = Some ac →
  length ob = length ac + 1 →
  dict_get r "done" = Some done →
  py_index done (-1)%Z = Some last →
  truthy last = Some flag →
  _size s ≠ 0%Z →
  ∃ w', store_episode r w = (Ok tt, w') ∧
        buffer_at w' (_buffer s) = it1 ∧
        default_factory (heap w' !!! _buffer s) = true ∧
        self w' = (if flag then closed s else s) ∧
        rng_src w' = rng_src w ∧ rng_pos w' = rng_pos w ∧
        (∀ l', l' ≠ _buffer s → heap w' !! l' = heap w !! l').
Proof.
  intros s it1 Hnew Hdef Hr Hidx Hob Hac Hiob Hiac Hlen Hdone Hlast Hflag Hsize.
  assert (Hloop : ∃ w1, for_ (_keys s) (store_new_key r) w = (Ok tt, w1) ∧
            frame (_buffer s) w w1 ∧ buffer_at w1 (_buffer s) = it1).
  { subst it1. unfold stored_new.
    destruct (_current_size s <? _size s)%Z eqn:Hroom.
    - by apply for_append.
    - apply for_overwrite; [done | done |]. by apply Hidx. }
  destruct Hloop as (w1 & E1 & (Hs & Hrs & Hrp & Hd & Hfr) & B1).
  unfold store_episode. unfold bind at 1. simpl. fold s. rewrite Hnew.
  unfold bind at 1. rewrite E1.
  unfold bind at 1. rewrite (check_lengths_ok w1 obs acs ob ac).
  2-6: try (unfold buffer_of; rewrite Hs; fold s; rewrite B1); try done.
  2-3: by rewrite Hs.
  rewrite (close_if_done_eq r w1 done last flag) by (rewrite ?Hs; done).
  eexists. split; [done |]. destruct flag; simpl.
  - rewrite Hs. unfold buffer_at in *. simpl. split_and!; try done. congruence.
  - rewrite Hs. split_and!; try done. congruence.
Qed.

(** ** The ring invariant *)

Lemma mod_window_ne (n i m : nat) : 0 < n → m - n < i ∨ m < n → i < m → i mod n ≠ m mod n.
Proof.
  intros Hn Hwin Hlt Heq.
  pose proof (Nat.div_mod_eq i n) as Hi. pose proof (Nat.div_mod_eq m n) as Hm.
  pose proof (Nat.mod_upper_bound i n ltac:(lia)) as Hb.
  rewrite Heq in Hi.
  assert (Hd : i `div` n < m `div` n ∨ m `div` n ≤ i `div` n) by lia.
  destruct Hd as [Hd|Hd]; nia.
Qed.

Lemma ring_nil n : ring n [] [].
Proof. split; simpl; [lia | intros i Hi; lia]. Qed.

Lemma ring_step n xs slots x :
  0 < n → ring n xs slots →
  ring n (xs ++ [x])
    (if decide (length xs < n) then slots ++ [x] else <[length xs mod n:=x]> slots).
Proof.
  intros Hn [Hlen Hslot]. destruct (decide (length xs < n)) as [Hroom|Hfull].
  - assert (Hm : length slots = length xs) by lia.
    split; [rewrite !length_app; simpl; lia |].
    intros i Hi. rewrite length_app in Hi. simpl in Hi.
    rewrite (Nat.mod_small i n) by lia.
    destruct (decide (i = length xs)) as [->|Hne].
    + rewrite <- Hm at 1. by rewrite !list_lookup_middle.
    + rewrite !lookup_app_l by lia. rewrite <- Hslot by lia.
      by rewrite Nat.mod_small by lia.
  - assert (Hm : length slots = n) by lia.
    split; [rewrite length_insert, length_app; simpl; lia |].
    intros i Hi. rewrite length_app in Hi. simpl in Hi.
    destruct (decide (i = length xs)) as [->|Hne].
    + rewrite list_lookup_insert_eq
        by (rewrite Hm; apply Nat.mod_upper_bound; lia).
      by rewrite list_lookup_middle.
    + rewrite list_lookup_insert_ne
        by (apply not_eq_sym, mod_window_ne; lia).
      rewrite lookup_app_l by lia. apply Hslot. lia.
Qed.

Lemma fold_append_notin r ks it k :
  k ∉ ks → slots_of (fold_left (append_key r) ks it) k = slots_of it k.
Proof.
  revert it. induction ks as [|k0 ks IH]; intros it Hk; simpl; [done |].
  apply not_elem_of_cons in Hk as [Hne Hk]. rewrite IH by done.
  unfold append_key. rewrite slots_of_set.
  destruct (String.eqb k0 k) eqn:E; [|done].
  apply String.eqb_eq in E. congruence.
Qed.

Lemma fold_append_in r ks it k :
  NoDup ks → k ∈ ks →
  slots_of (fold_left (append_key r) ks it) k = slots_of it k ++ [rollout_get r k].
Proof.
  revert it. induction ks as [|k0 ks IH]; intros it Hnd Hk; simpl.
  - by apply elem_of_nil in Hk.
  - apply NoDup_cons in Hnd as [Hk0 Hnd].
    destruct (decide (k = k0)) as [->|Hne].
    + rewrite fold_append_notin by done.
      unfold append_key. rewrite slots_of_set. by rewrite String.eqb_refl.
    + apply elem_of_cons in Hk as [?|Hk]; [done |].
      rewrite IH by done. unfold append_key. rewrite slots_of_set.
      destruct (String.eqb k0 k) eqn:E; [|done].
      apply String.eqb_eq in E. congruence.
Qed.

Lemma fold_overwrite_notin r i ks it k :
  k ∉ ks → slots_of (fold_left (overwrite_key r i) ks it) k = slots_of it k.
Proof.
  revert it. induction ks as [|k0 ks IH]; intros it Hk; simpl; [done |].
  apply not_elem_of_cons in Hk as [Hne Hk]. rewrite IH by done.
  unfold overwrite_key. rewrite slots_of_set.
  destruct (String.eqb k0 k) eqn:E; [|done].
  apply String.eqb_eq in E. congruence.
Qed.

Lemma fold_overwrite_in r i ks it k :
  NoDup ks → k ∈ ks →
  slots_of (fold_left (overwrite_key r i) ks it) k =
  <[i:=rollout_get r k]> (slots_of it k).
Proof.
  revert it. induction ks as [|k0 ks IH]; intros it Hnd Hk; simpl.
  - by apply elem_of_nil in Hk.
  - apply NoDup_cons in Hnd as [Hk0 Hnd].
    destruct (decide (k = k0)) as [->|Hne].
    + rewrite fold_overwrite_notin by done.
      unfold overwrite_key. rewrite slots_of_set. by rewrite String.eqb_refl.
    + apply elem_of_cons in Hk as [?|Hk]; [done |].
      rewrite IH by done. unfold overwrite_key. rewrite slots_of_set.
      destruct (String.eqb k0 k) eqn:E; [|done].
      apply String.eqb_eq in E. congruence.
Qed.

Lemma fold_append_get r ks it k :
  k ∈ ks →
  dict_get (fold_left (append_key r) ks it) k =
  Some (slots_of (fold_left (append_key r) ks it) k).
Proof.
  intros Hk. unfold slots_of.
  enough (is_Some (dict_get (fold_left (append_key r) ks it) k)) as [v ->] by done.
  revert it. induction ks as [|k0 ks IH]; intros it.
  - by apply elem_of_nil in Hk.
  - simpl. destruct (decide (k ∈ ks)) as [Hin|Hnotin]; [by apply IH |].
    apply elem_of_cons in Hk as [->|?]; [|done].
    clear IH. assert (Hsome : is_Some (dict_get (append_key r it k0) k0))
      by (unfold append_key; rewrite dict_get_set_eq; eauto).
    revert Hsome. generalize (append_key r it k0). clear it.
    induction ks as [|k1 ks IH]; intros it Hsome; [done |].
    simpl. apply IH.
    + by apply not_elem_of_cons in Hnotin as [_ ?].
    + unfold append_key. rewrite dict_get_set.
      destruct (String.eqb k1 k0); [eauto | done].
Qed.

Lemma fold_overwrite_get r i ks it k :
  k ∈ ks →
  dict_get (fold_left (overwrite_key r i) ks it) k =
  Some (slots_of (fold_left (overwrite_key r i) ks it) k).
Proof.
  intros Hk. unfold slots_of.
  enough (is_Some (dict_get (fold_left (overwrite_key r i) ks it) k)) as [v ->] by done.
  revert it. induction ks as [|k0 ks IH]; intros it.
  - by apply elem_of_nil in Hk.
  - simpl. destruct (decide (k ∈ ks)) as [Hin|Hnotin]; [by apply IH |].
    apply elem_of_cons in Hk as [->|?]; [|done].
    clear IH. assert (Hsome : is_Some (dict_get (overwrite_key r i it k0) k0))
      by (unfold overwrite_key; rewrite dict_get_set_eq; eauto).
    revert Hsome. generalize (overwrite_key r i it k0). clear it.
    induction ks as [|k1 ks IH]; intros it Hsome; [done |].
    simpl. apply IH.
    + by apply not_elem_of_cons in Hnotin as [_ ?].
    + unfold overwrite_key. rewrite dict_get_set.
      destruct (String.eqb k1 k0); [eauto | done].
Qed.

Lemma stored_new_slots s r it k :
  NoDup (_keys s) → k ∈ _keys s →
  slots_of (stored_new s r it) k =
  if (_current_size s <? _size s)%Z
  then slots_of it k ++ [rollout_get r k]
  else <[Z.to_nat (_idx s):=rollout_get r k]> (slots_of it k).
Proof.
  intros Hnd Hk. unfold stored_new.
  destruct (_current_size s <? _size s)%Z.
  - by apply fold_append_in.
  - by apply fold_overwrite_in.
Qed.

Lemma stored_new_get s r it k :
  k ∈ _keys s →
  dict_get (stored_new s r it) k = Some (slots_of (stored_new s r it) k).
Proof.
  intros Hk. unfold stored_new.
  destruct (_current_size s <? _size s)%Z.
  - by apply fold_append_get.
  - by apply fold_overwrite_get.
Qed.

Lemma to_nat_mod (m : nat) (n : Z) :
  (1 ≤ n)%Z → Z.to_nat (Z.of_nat m mod n) = m mod Z.to_nat n.
Proof.
  intros Hn. rewrite <- (Z2Nat.id n) at 1 by lia.
  rewrite <- Nat2Z.inj_mod. apply Nat2Z.id.
Qed.

Lemma ring_inv_init n ks f w :
  wp (ReplayBuffer_init n ks f) (λ _ w', ring_inv n ks [] w') w.
Proof.
  unfold wp. rewrite ReplayBuffer_init_eq.
  unfold ring_inv, buffer_of, buffer_at. simpl.
  rewrite lookup_total_insert_eq. simpl. split_and!; try done.
Qed.

Lemma ring_inv_step n ks rs r w :
  (1 ≤ n)%Z → NoDup ks → "ob" ∈ ks → "ac" ∈ ks →
  ring_inv n ks rs w → contract ks r true →
  ∃ w', store_episode r w = (Ok tt, w') ∧ ring_inv n ks (rs ++ [r]) w'.
Proof.
  intros Hn Hnd Hob Hac (Hsize & Hkeys & Hnew & Hdef & Hcs & Hidx & Hring)
    (Hr & Hlen & _ & done & last & Hdone & Hlast & Hflag).
  set (s := self w) in *. set (m := length rs).
  assert (Hm : len rs = Z.of_nat m) by done.
  assert (Hidx_nat : Z.to_nat (_idx s) = m mod Z.to_nat n).
  { rewrite Hidx, Hm. by apply to_nat_mod. }
  assert (Hidx_range : (0 ≤ _idx s < n)%Z).
  { rewrite Hidx. apply Z.mod_pos_bound. lia. }
  assert (Hslots : ∀ k, k ∈ ks →
    slots_of (stored_new s r (buffer_at w (_buffer s))) k =
    if decide (length (history rs k) < Z.to_nat n)
    then slots_of (buffer_of w) k ++ [rollout_get r k]
    else <[length (history rs k) mod Z.to_nat n:=rollout_get r k]>
           (slots_of (buffer_of w) k)).
  { intros k Hk. rewrite stored_new_slots by (rewrite Hkeys; done).
    unfold history. rewrite length_fmap. fold m. rewrite Hcs, Hsize, Hm, Hidx_nat.
    change (buffer_at w (_buffer s)) with (buffer_of w).
    destruct (Z.ltb_spec (Z.of_nat m) n), (decide (m < Z.to_nat n)); try done; lia. }
  assert (Hat : ∀ k, k ∈ ks →
    py_index (slots_of (stored_new s r (buffer_at w (_buffer s))) k) (_idx s) =
    Some (rollout_get r k)).
  { intros k Hk. rewrite py_index_Some by lia. rewrite Hslots by done.
    destruct (Hring k Hk) as [Hl _]. unfold history in *. rewrite length_fmap in *.
    fold m in Hl |- *. rewrite Hidx_nat.
    destruct (decide (m < Z.to_nat n)).
    - rewrite Nat.mod_small by lia. apply list_lookup_middle. lia.
    - assert (m mod Z.to_nat n < length (slots_of (buffer_of w) k)).
      { rewrite Hl. pose proof (Nat.mod_upper_bound m (Z.to_nat n)). lia. }
      by apply list_lookup_insert_eq. }
  destruct (store_episode_new r w done last true
    (slots_of (stored_new s r (buffer_at w (_buffer s))) "ob")
    (slots_of (stored_new s r (buffer_at w (_buffer s))) "ac")
    (rollout_get r "ob") (rollout_get r "ac"))
    as (w' & E & Hbuf & Hdef' & Hself & _); fold s; try done.
  - rewrite Hkeys. done.
  - intros Hfull k Hk. rewrite Hkeys in Hk. destruct (Hring k Hk) as [Hl _].
    unfold history in Hl. rewrite length_fmap in Hl. fold m in Hl.
    change (buffer_at w (_buffer s)) with (buffer_of w). unfold len. rewrite Hl.
    rewrite Hcs, Hsize, Hm in Hfull. apply Z.ltb_ge in Hfull. lia.
  - apply stored_new_get. by rewrite Hkeys.
  - apply stored_new_get. by rewrite Hkeys.
  - by apply Hat.
  - by apply Hat.
  - rewrite Hsize. lia.
  - exists w'. split; [done |].
    unfold ring_inv. unfold buffer_of at 1. rewrite Hself.
    change (_buffer (closed (self w))) with (_buffer (self w)).
    fold s. fold s in Hbuf, Hdef'. rewrite Hbuf. simpl.
    split_and!; try done.
    + rewrite Hcs. unfold len. rewrite length_app. simpl. lia.
    + rewrite Hidx, Hsize. unfold len. rewrite length_app. simpl.
      rewrite Z.add_mod_idemp_l by lia. f_equal. lia.
    + intros k Hk. rewrite Hslots by done. unfold history. rewrite fmap_app. simpl.
      apply ring_step; [lia |]. by apply Hring.
Qed.

Lemma ring_inv_steps n ks rs rs' w :
  (1 ≤ n)%Z → NoDup ks → "ob" ∈ ks → "ac" ∈ ks →
  ring_inv n ks rs w → Forall (λ r, contract ks r true) rs' →
  wp (for_ rs' store_episode) (λ _ w', ring_inv n ks (rs ++ rs') w') w.
Proof.
  intros Hn Hnd Hob Hac. revert rs w.
  induction rs' as [|r rs' IH]; intros rs w Hinv Hrs'; simpl.
  - unfold wp. simpl. by rewrite app_nil_r.
  - apply Forall_cons in Hrs' as [Hr Hrs'].
    destruct (ring_inv_step n ks rs r w) as (w1 & E & Hinv1); try done.
    apply wp_bind. eapply wp_eq; [exact E |].
    replace (rs ++ r :: rs') with ((rs ++ [r]) ++ rs') by (by rewrite <- app_assoc).
    by apply IH.
Qed.

(** C1 (amended): on a buffer of capacity [n >= 1] constructed for
    distinct keys [ks] that include ["ob"] and ["ac"], every sequence [rs]
    of [store_episode] calls that each close their episode returns
    normally, and then: [_current_size] is the number of calls, with no
    cap; the cursor is that number modulo [n]; every tracked key has
    [min (length rs) n] slots, never more than [n]; and episode number [i]
    of the last [n] sits in slot [i mod n].  So once [n] episodes are
    stored, a call writes the slot at the cursor, which held the oldest
    episode kept, leaves the other slots, and moves the cursor on modulo
    [n]. *)
Theorem store_episode_ring (n : Z) (ks : list string) (f : sampler)
    (rs : list rollout_t) (w0 : world) :
  (1 ≤ n)%Z → NoDup ks → "ob" ∈ ks → "ac" ∈ ks →
  Forall (λ r, contract ks r true) rs →
  wp (ReplayBuffer_init n ks f ;; for_ rs store_episode)
     (λ _ w,
        _current_size (self w) = len rs ∧
        _idx (self w) = (len rs mod n)%Z ∧
        ∀ k, k ∈ ks →
          let slots := slots_of (buffer_of w) k in
          length slots = Nat.min (length rs) (Z.to_nat n) ∧
          length slots ≤ Z.to_nat n ∧
          (∀ i, length rs - Z.to_nat n ≤ i < length rs →
                slots !! (i mod Z.to_nat n) = history rs k !! i) ∧
          (Z.to_nat n ≤ length rs →
           slots !! Z.to_nat (_idx (self w)) = history rs k !! (length rs - Z.to_nat n)))
     w0.
Proof.
  intros Hn Hnd Hob Hac Hrs. apply wp_bind.
  eapply wp_mono; [apply ring_inv_init |]. intros [] w1 Hinv1.
  eapply wp_mono; [by apply (ring_inv_steps n ks [] rs w1) |].
  intros [] w (Hsize & Hkeys & Hnew & Hdef & Hcs & Hidx & Hring). simpl in *.
  split_and!; [done | done |].
  intros k Hk. destruct (Hring k Hk) as [Hl Hslot].
  unfold history in Hl, Hslot. rewrite length_fmap in Hl, Hslot.
  split_and!; [done | lia | done |].
  intros Hsat. rewrite Hidx. unfold len. rewrite to_nat_mod by done.
  rewrite <- Hslot by lia. f_equal.
  rewrite <- (Nat.Div0.mod_add (length rs - Z.to_nat n) 1 (Z.to_nat n)).
  f_equal. lia.
Qed.

Lemma ex_rollout_contract b d :
  contract ex_keys (ex_rollout b d) (negb (Qeq_bool d 0)).
Proof.
  split_and!.
  - intros k Hk. unfold ex_keys in Hk.
    repeat (apply elem_of_cons in Hk as [->|Hk]; [by eexists |]).
    by apply elem_of_nil in Hk.
  - done.
  - intros k Hk.
    repeat (apply elem_of_cons in Hk as [->|Hk]; [by intros [? ?] |]).
    by apply elem_of_nil in Hk.
  - by exists [scalar 0; scalar d], (scalar d).
Defined.

Lemma store_episode_ring_witness :
  wp (ReplayBuffer_init 2 ex_keys RandomSampler_sample_func ;;
      for_ [ex_rollout 0 1; ex_rollout 10 1; ex_rollout 20 1] store_episode)
     (λ _ w, _current_size (self w) = 3%Z ∧ _idx (self w) = 1%Z) ex_world.
Proof.
  eapply wp_mono.
  - apply (store_episode_ring 2 ex_keys RandomSampler_sample_func
             [ex_rollout 0 1; ex_rollout 10 1; ex_rollout 20 1] ex_world).
    + lia.
    + by apply (bool_decide_unpack (NoDup ex_keys)).
    + set_solver.
    + set_solver.
    + repeat (apply Forall_cons; split; [apply (ex_rollout_contract _ 1) |]).
      apply Forall_nil_2.
  - intros [] w (Hcs & Hidx & _). done.
Defined.

(** C1 as stated fails: with capacity 1, two closed episodes leave
    [_current_size] at 2. *)
Lemma current_size_exceeds_capacity :
  let r := (ReplayBuffer_init 1 ex_keys RandomSampler_sample_func ;;
            store_episode (ex_rollout 0 1) ;;
            store_episode (ex_rollout 10 1)) ex_world in
  r.1 = Ok tt ∧
  _size (self r.2) = 1%Z ∧
  _current_size (self r.2) = 2%Z ∧
  ¬ (_current_size (self r.2) ≤ _size (self r.2))%Z.
Proof. vm_compute. split_and!; [done | done | done |]. intros H. by apply H. Qed.

(** ** Episode integrity *)

Lemma stored_new_other s r it k :
  k ∉ _keys s → slots_of (stored_new s r it) k = slots_of it k.
Proof.
  intros Hk. unfold stored_new.
  destruct (_current_size s <? _size s)%Z.
  - by apply fold_append_notin.
  - by apply fold_overwrite_notin.
Qed.

(** Where the new episode went, and that every other slot is as before. *)
Lemma new_slot_lookup (room : bool) (p : nat) (slots : list episode) x i e :
  (room = false → p < length slots) →
  (if room then slots ++ [x] else <[p:=x]> slots) !! i = Some e →
  let pos := if room then length slots else p in
  (i = pos ∧ e = x) ∨ (i ≠ pos ∧ slots !! i = Some e).
Proof.
  intros Hp Hi. destruct room; simpl.
  - apply lookup_app_Some in Hi as [Hi|[Hge Hi]].
    + right. split; [|done]. apply lookup_lt_Some in Hi. lia.
    + left. destruct (i - length slots) as [|j] eqn:E; simpl in Hi; [|done].
      split; [lia | congruence].
  - destruct (decide (i = p)) as [->|Hne].
    + left. rewrite list_lookup_insert_eq in Hi by auto. split; congruence.
    + right. rewrite list_lookup_insert_ne in Hi by done. done.
Qed.

Lemma store_inv_init n ks f w :
  (1 ≤ n)%Z → wp (ReplayBuffer_init n ks f) (λ _ w', store_inv n ks w') w.
Proof.
  intros Hn. unfold wp. rewrite ReplayBuffer_init_eq.
  unfold store_inv, buffer_of, buffer_at. simpl.
  rewrite lookup_total_insert_eq. simpl. split_and!; try done; try lia.
  exists 0. split_and!; [done | lia | lia].
Qed.

Lemma store_inv_step n ks r flag w :
  (1 ≤ n)%Z → NoDup ks → "ob" ∈ ks → "ac" ∈ ks →
  store_inv n ks w → contract ks r flag →
  ∃ w', store_episode r w = (Ok tt, w') ∧ store_inv n ks w'.
Proof.
  intros Hn Hnd Hob Hac
    (Hsize & Hkeys & Hnew & Hdef & Hidx & (cnt & Hcnt & Hlow & Hhigh) & Hother & Hlens)
    (Hr & Hlen & Hsteps & done & last & Hdone & Hlast & Hflag).
  set (s := self w) in *. set (it0 := buffer_of w) in *.
  set (it1 := stored_new s r (buffer_at w (_buffer s))).
  set (room := (_current_size s <? _size s)%Z).
  set (pos := if room then cnt else Z.to_nat (_idx s)).
  assert (Hfull : room = false → Z.to_nat (_idx s) < cnt).
  { unfold room. rewrite Hsize. intros Hf%Z.ltb_ge. lia. }
  assert (Hslots : ∀ k, k ∈ ks →
    slots_of it1 k =
    if room then slots_of it0 k ++ [rollout_get r k]
    else <[Z.to_nat (_idx s):=rollout_get r k]> (slots_of it0 k)).
  { intros k Hk. unfold it1. rewrite stored_new_slots by (rewrite Hkeys; done). done. }
  assert (Hlookup : ∀ k i e, k ∈ ks → slots_of it1 k !! i = Some e →
    (i = pos ∧ e = rollout_get r k) ∨ (i ≠ pos ∧ slots_of it0 k !! i = Some e)).
  { intros k i e Hk Hi. rewrite Hslots in Hi by done.
    apply new_slot_lookup in Hi; [| rewrite Hcnt by done; apply Hfull].
    rewrite Hcnt in Hi by done. done. }
  assert (Hat : ∀ k, k ∈ ks → slots_of it1 k !! pos = Some (rollout_get r k)).
  { intros k Hk. rewrite Hslots by done. unfold pos. destruct room.
    - apply list_lookup_middle. by rewrite Hcnt.
    - apply list_lookup_insert_eq. rewrite Hcnt by done. by apply Hfull. }
  assert (Hcnt1 : ∀ k, k ∈ ks →
    length (slots_of it1 k) = if room then S cnt else cnt).
  { intros k Hk. rewrite Hslots by done. destruct room.
    - rewrite length_app, Hcnt by done. simpl. lia.
    - by rewrite length_insert, Hcnt. }
  assert (Hother1 : ∀ k, k ∉ ks → slots_of it1 k = []).
  { intros k Hk. unfold it1. rewrite stored_new_other by (rewrite Hkeys; done).
    by apply Hother. }
  assert (Hlens1 : lengths_ok it1).
  { intros i ac Hi_ac.
    destruct (Hlookup "ac" i ac Hac Hi_ac) as [[-> ->]|[Hne Hold_ac]].
    - split.
      + intros ob Hi_ob. destruct (Hlookup "ob" pos ob Hob Hi_ob) as [[_ ->]|[? _]]; done.
      + intros k e Hk He. destruct (decide (k ∈ ks)) as [Hin|Hout].
        * destruct (Hlookup k pos e Hin He) as [[_ ->]|[? _]]; [|done].
          apply Hsteps; [done | by apply Hr].
        * rewrite Hother1 in He by done. done.
    - destruct (Hlens i ac Hold_ac) as [Hold_ob Hold_k]. split.
      + intros ob Hi_ob. destruct (Hlookup "ob" i ob Hob Hi_ob) as [[? _]|[_ ?]]; [done |].
        by apply Hold_ob.
      + intros k e Hk He. destruct (decide (k ∈ ks)) as [Hin|Hout].
        * destruct (Hlookup k i e Hin He) as [[? _]|[_ ?]]; [done |]. by eapply Hold_k.
        * rewrite Hother1 in He by done. done. }
  assert (Hidx1 : ∀ k, k ∈ ks → is_Some (slots_of it1 k !! Z.to_nat (_idx s))).
  { intros k Hk. apply lookup_lt_is_Some. rewrite Hcnt1 by done.
    destruct room eqn:Hroom; [|by apply Hfull].
    unfold room in Hroom. rewrite Hsize in Hroom. apply Z.ltb_lt in Hroom. lia. }
  destruct (Hidx1 "ob" Hob) as [ob Hi_ob]. destruct (Hidx1 "ac" Hac) as [ac Hi_ac].
  destruct (store_episode_new r w done last flag
    (slots_of it1 "ob") (slots_of it1 "ac") ob ac)
    as (w' & E & Hbuf & Hdef' & Hself & _); fold s; fold it1; try done.
  - by rewrite Hkeys.
  - intros Hf k Hk. rewrite Hkeys in Hk. unfold len.
    change (buffer_at w (_buffer s)) with it0. rewrite Hcnt by done.
    fold room in Hf. specialize (Hfull Hf). lia.
  - apply stored_new_get. by rewrite Hkeys.
  - apply stored_new_get. by rewrite Hkeys.
  - by rewrite py_index_Some by lia.
  - by rewrite py_index_Some by lia.
  - destruct (Hlens1 _ _ Hi_ac) as [Hl _]. by apply Hl.
  - rewrite Hsize. lia.
  - exists w'. split; [done |].
    assert (Hbuf' : buffer_of w' = it1).
    { unfold buffer_of. rewrite Hself. fold s in Hbuf. by destruct flag. }
    unfold store_inv. rewrite Hbuf', Hself.
    assert (Hroom : room = true ↔ (_current_size s < n)%Z).
    { unfold room. rewrite Hsize. apply Z.ltb_lt. }
    destruct flag; simpl; fold s.
    + split_and!; try done; try (rewrite Hsize; apply Z.mod_pos_bound; lia).
      * exists (if room then S cnt else cnt). split_and!; [done | |].
        -- intros Hlt. rewrite Hsize.
           destruct Hlow as [Hlow1 Hlow2]; [lia |].
           rewrite Z.mod_small by lia. destruct room; [lia |].
           assert (false = true) by (apply Hroom; lia). done.
        -- intros Hge. destruct room eqn:Hr'.
           ++ destruct Hlow as [Hlow1 Hlow2]; [by apply Hroom |]. lia.
           ++ enough (n ≤ _current_size s)%Z by lia.
              destruct (Z.lt_ge_cases (_current_size s) n) as [Hlt|?]; [|done].
              apply Hroom in Hlt. done.
    + split_and!; try done; try lia.
      exists (if room then S cnt else cnt). split_and!; [done | |].
      * intros Hlt. destruct Hlow as [Hlow1 Hlow2]; [done |]. destruct room; lia.
      * intros Hge. specialize (Hhigh Hge). destruct room; lia.
Qed.

Lemma store_inv_steps n ks rs w :
  (1 ≤ n)%Z → NoDup ks → "ob" ∈ ks → "ac" ∈ ks →
  store_inv n ks w → Forall (λ r, ∃ flag, contract ks r flag) rs →
  wp (for_ rs store_episode) (λ _ w', store_inv n ks w') w.
Proof.
  intros Hn Hnd Hob Hac. revert w.
  induction rs as [|r rs IH]; intros w Hinv Hrs; simpl.
  - done.
  - apply Forall_cons in Hrs as [[flag Hr] Hrs].
    destruct (store_inv_step n ks r flag w) as (w1 & E & Hinv1); try done.
    apply wp_bind. eapply wp_eq; [exact E |]. by apply IH.
Qed.

(** C4: on a buffer of capacity [n >= 1] constructed for distinct keys
    that include ["ob"] and ["ac"], every sequence of [store_episode]
    calls whose rollouts meet the ingestion contract returns normally, so
    the integrity assertion never fires, and afterwards every stored
    episode has one more observation than actions and as many rewards and
    [done] flags as actions. *)
Theorem store_episode_lengths (n : Z) (ks : list string) (f : sampler)
    (rs : list rollout_t) (w0 : world) :
  (1 ≤ n)%Z → NoDup ks → "ob" ∈ ks → "ac" ∈ ks →
  Forall (λ r, ∃ flag, contract ks r flag) rs →
  wp (ReplayBuffer_init n ks f ;; for_ rs store_episode)
     (λ _ w, lengths_ok (buffer_of w)) w0.
Proof.
  intros Hn Hnd Hob Hac Hrs. apply wp_bind.
  eapply wp_mono; [by apply store_inv_init |]. intros [] w1 Hinv1.
  eapply wp_mono; [by apply (store_inv_steps n ks rs w1) |].
  intros [] w (_ & _ & _ & _ & _ & _ & _ & Hlens). done.
Qed.

Lemma store_episode_lengths_witness :
  wp (ReplayBuffer_init 2 ex_keys RandomSampler_sample_func ;;
      for_ [ex_rollout 0 0; ex_rollout 10 1; ex_rollout 20 1; ex_rollout 30 1]
        store_episode)
     (λ _ w, lengths_ok (buffer_of w)) ex_world.
Proof.
  apply (store_episode_lengths 2 ex_keys RandomSampler_sample_func
           [ex_rollout 0 0; ex_rollout 10 1; ex_rollout 20 1; ex_rollout 30 1]
           ex_world).
  - lia.
  - by apply (bool_decide_unpack (NoDup ex_keys)).
  - set_solver.
  - set_solver.
  - repeat (apply Forall_cons; split; [eexists; apply ex_rollout_contract |]).
    apply Forall_nil_2.
Defined.

(** ** Stacking *)

Lemma dict_get_None {V} (d : dict V) k : dict_get d k = None ↔ k ∉ dict_keys d.
Proof.
  unfold dict_keys. induction d as [|[k0 v0] d IH]; simpl.
  - split; [intros _; apply not_elem_of_nil | done].
  - destruct (String.eqb k0 k) eqn:E.
    + apply String.eqb_eq in E. subst. split; [done |].
      intros H. exfalso. apply H. left.
    + apply String.eqb_neq in E. rewrite IH, not_elem_of_cons. split.
      * intros H. by split.
      * by intros [_ H].
Qed.

Lemma dict_get_elem {V} (d : dict V) k v : dict_get d k = Some v → (k, v) ∈ d.
Proof.
  induction d as [|[k0 v0] d IH]; simpl; [done |].
  destruct (String.eqb k0 k) eqn:E.
  - apply String.eqb_eq in E. intros [= ->]. subst. left.
  - intros H. right. by apply IH.
Qed.

Lemma dict_keys_set {V} (d : dict V) k v :
  dict_keys (dict_set d k v) =
  if bool_decide (k ∈ dict_keys d) then dict_keys d else dict_keys d ++ [k].
Proof.
  induction d as [|[k0 v0] d IH]; [done |].
  change (dict_keys ((k0, v0) :: d)) with (k0 :: dict_keys d). simpl.
  destruct (String.eqb k0 k) eqn:E.
  - apply String.eqb_eq in E. subst.
    rewrite bool_decide_eq_true_2 by left. done.
  - apply String.eqb_neq in E.
    change (dict_keys ((k0, v0) :: dict_set d k v)) with (k0 :: dict_keys (dict_set d k v)).
    rewrite IH. destruct (bool_decide (k ∈ dict_keys d)) eqn:Hin.
    + apply bool_decide_eq_true in Hin.
      rewrite bool_decide_eq_true_2 by (by right). done.
    + apply bool_decide_eq_false in Hin.
      rewrite bool_decide_eq_false_2; [done |].
      rewrite not_elem_of_cons. done.
Qed.

Lemma dict_set_NoDup {V} (d : dict V) k v :
  NoDup (dict_keys d) → NoDup (dict_keys (dict_set d k v)).
Proof.
  intros Hnd. rewrite dict_keys_set. case_bool_decide as Hin; [done |].
  apply NoDup_app. split_and!; [done | | apply NoDup_singleton].
  intros x Hx ->%list_elem_of_singleton. done.
Qed.

(** A loop that stores [g x] under the key [kf x] for every [x] of [l]. *)
Lemma fold_res_set_inv {X C} (body : dict C → X → res (dict C))
    (kf : X → string) (g : X → res C) (l : list X) (acc b : dict C) :
  (∀ acc x, body acc x = (c ← g x; Ok (dict_set acc (kf x) c))) →
  NoDup (kf <$> l) →
  fold_res body l acc = Ok b →
  (∀ x, x ∈ l → ∃ c, g x = Ok c ∧ dict_get b (kf x) = Some c) ∧
  (∀ k, k ∉ kf <$> l → dict_get b k = dict_get acc k) ∧
  (NoDup (dict_keys acc) → NoDup (dict_keys b)).
Proof.
  intros Hbody. revert acc. induction l as [|x l IH]; intros acc Hnd Hfold; simpl in *.
  - injection Hfold as <-. split_and!; [|done|done].
    intros x Hx. by apply elem_of_nil in Hx.
  - apply NoDup_cons in Hnd as [Hx Hnd]. rewrite Hbody in Hfold.
    destruct (g x) as [c|e] eqn:Hg; simpl in Hfold; [|done].
    destruct (IH _ Hnd Hfold) as (Hin & Hout & Hdup). split_and!.
    + intros x' [->|Hx']%elem_of_cons.
      * exists c. split; [done |]. rewrite Hout by done. apply dict_get_set_eq.
      * by apply Hin.
    + intros k [Hne Hk]%not_elem_of_cons. rewrite Hout by done.
      by apply dict_get_set_ne.
    + intros Hacc. by apply Hdup, dict_set_NoDup.
Qed.

Lemma fold_res_set_ok {X C} (body : dict C → X → res (dict C))
    (kf : X → string) (g : X → res C) (l : list X) (acc : dict C) :
  (∀ acc x, body acc x = (c ← g x; Ok (dict_set acc (kf x) c))) →
  (∀ x, x ∈ l → ∃ c, g x = Ok c) →
  ∃ b, fold_res body l acc = Ok b.
Proof.
  intros Hbody. revert acc. induction l as [|x l IH]; intros acc Hg; simpl.
  - by eexists.
  - rewrite Hbody. destruct (Hg x) as [c Hc]; [left |]. rewrite Hc. simpl.
    apply IH. intros x' Hx'. apply Hg. by right.
Qed.

Lemma stack_transitions_inv (tr : transitions_t) (b : batch_t) :
  NoDup (dict_keys tr) →
  stack_transitions tr = Ok b →
  ∀ k, match dict_get tr k with
       | Some v => ∃ c, stack_column v = Ok c ∧ dict_get b k = Some c
       | None => dict_get b k = None
       end.
Proof.
  intros Hnd Hstack k.
  destruct (fold_res_set_inv
    (λ new_transitions kv, c ← stack_column kv.2; Ok (dict_set new_transitions kv.1 c))
    fst (λ kv, stack_column kv.2) tr [] b)
    as (Hin & Hout & _); [done | done | done |].
  destruct (dict_get tr k) as [v|] eqn:Hk.
  - apply dict_get_elem in Hk. by apply (Hin (k, v)).
  - apply dict_get_None in Hk. by rewrite Hout.
Qed.

Lemma stack_transitions_ok (tr : transitions_t) :
  (∀ k v, (k, v) ∈ tr → ∃ c, stack_column v = Ok c) →
  ∃ b, stack_transitions tr = Ok b.
Proof.
  intros Hcols. unfold stack_transitions.
  apply (fold_res_set_ok _ fst (λ kv, stack_column kv.2)); [done |].
  intros [k v] Hkv. by eapply Hcols.
Qed.



Lemma np_array_eq l :
  np_array l =
  rows ← mapM as_array l;
  match rows with
  | [] => Some (Ax [])
  | _ => np_stack rows
  end.
Proof.
  unfold np_array. simpl.
  match goal with |- (?go l ≫= _) = _ => assert (Hgo : ∀ l, go l = mapM as_array l) end.
  { clear l. induction l as [|v l IH]; [done |]. simpl.
    destruct (as_array v); [|done]. simpl. by rewrite IH. }
  by rewrite Hgo.
Qed.


(** ** The common beginning of the samplers *)

Ltac run_stages :=
  unfold bind;
  repeat match goal with
         | |- context [match ?m ?w with _ => _ end] =>
             destruct (m w) as [[?|?] ?]; simpl; try done
         end.

Lemma RandomSampler_func_prefix eb n w :
  RandomSampler_func eb n w =
  (x <- draw_and_gather eb n ;; lift_res (stack_transitions x.2)) w.
Proof. unfold RandomSampler_func, draw_and_gather. run_stages. Qed.

Lemma sample_her_transitions_prefix h eb n w :
  sample_her_transitions h eb n w =
  (x <- draw_and_gather eb n ;;
   transitions <- for_enumerate (her_step h eb) x.1 0%Z
                    (dict_set x.2 "r" (np_zeros (Z.to_nat n))) ;;
   lift_res (stack_transitions transitions)) w.
Proof. unfold sample_her_transitions, draw_and_gather. run_stages. Qed.

Lemma LearnedRewardReplayBuffer_sample_prefix _rew n w :
  LearnedRewardReplayBuffer_sample _rew n w =
  (x <- draw_and_gather (_buffer (self w)) n ;;
   lift_res (
     ob ← of_opt KeyError (dict_get x.2 "ob");
     ob_next ← of_opt KeyError (dict_get x.2 "ob_next");
     env_rew ← of_opt KeyError (dict_get x.2 "env_rew");
     env_rew ← of_opt ValueError (np_array env_rew);
     rew ← of_opt ValueError (np_add env_rew (_rew ob ob_next));
     stack_transitions (dict_set x.2 "rew" (array_rows rew)))) w.
Proof.
  unfold LearnedRewardReplayBuffer_sample, draw_and_gather.
  unfold bind at 1. simpl. run_stages.
  unfold lift_opt, lift_res.
  repeat match goal with
         | |- context [of_opt ?e ?o] => destruct o; simpl; try done
         end.
Qed.

Lemma advance_0 w : advance 0 w = w.
Proof. by destruct w. Qed.

Lemma advance_advance j k w : advance j (advance k w) = advance (j + k) w.
Proof. unfold advance. simpl. f_equal. lia. Qed.

Lemma raw_advance k w i : raw (advance k w) i = raw w (i + k).
Proof. unfold raw, advance. simpl. f_equal. lia. Qed.

Lemma randint_eq low high w :
  randint low high w =
  if (high <=? low)%Z then (Raise ValueError, w)
  else (Ok (low + raw w 0 mod (high - low))%Z, advance 1 w).
Proof. unfold randint. by destruct (high <=? low)%Z. Qed.

Lemma randint_range low high r :
  (low < high)%Z → (low ≤ low + r mod (high - low) < high)%Z.
Proof. intros H. pose proof (Z.mod_pos_bound r (high - low)). lia. Qed.

Lemma map_M_randint low high k w :
  (low < high)%Z →
  map_M (λ _ : unit, randint low high) (replicate k tt) w =
  (Ok ((λ i, low + raw w i mod (high - low))%Z <$> seq 0 k), advance k w).
Proof.
  intros Hlt. revert w. induction k as [|k IH]; intros w; simpl.
  - by rewrite advance_0.
  - unfold bind at 1. rewrite randint_eq.
    destruct (Z.leb_spec high low); [lia |].
    unfold bind at 1. rewrite IH. unfold ret. rewrite advance_advance.
    replace (k + 1) with (S k) by lia. f_equal. f_equal. f_equal.
    rewrite <- fmap_S_seq, <- list_fmap_compose. apply list_fmap_ext.
    intros i x _. rewrite raw_advance. cbv [compose]. do 3 f_equal. lia.
Qed.

Lemma randint_n_eq low high n w :
  (0 < n)%Z →
  randint_n low high n w =
  if (high <=? low)%Z then (Raise ValueError, w)
  else (Ok ((λ i, low + raw w i mod (high - low))%Z <$> seq 0 (Z.to_nat n)),
        advance (Z.to_nat n) w).
Proof.
  intros Hn. unfold randint_n.
  destruct (Z.ltb_spec n 0); [lia |]. destruct (Z.eqb_spec n 0); [lia |].
  destruct (Z.leb_spec high low) as [Hle|Hlt].
  - destruct (Z.to_nat n) as [|k] eqn:E; [lia |]. simpl.
    unfold bind at 1. rewrite randint_eq.
    by destruct (Z.leb_spec high low); [|lia].
  - by apply map_M_randint.
Qed.

Lemma py_index_nil {A} (i : Z) : py_index (@nil A) i = None.
Proof.
  unfold py_index. destruct (0 <=? i)%Z; [done |]. by destruct (0 <=? len [] + i)%Z.
Qed.

(** Reading a step leaves the world as it is, and finds what [step_at]
    finds. *)
Lemma lookup_step_sim eb key e t w :
  match lookup_step eb key e t w with
  | (Ok v, w') => w' = w ∧ step_at (buffer_at w eb) key e t = Some v
  | (Raise _, _) => step_at (buffer_at w eb) key e t = None
  end.
Proof.
  unfold lookup_step, step_at. unfold bind at 1. rewrite getitem_eq.
  destruct (dict_get (buffer_at w eb) key) as [slots|]; simpl.
  - unfold bind, lift_opt, lift_res. change episode with (list value) in *.
    destruct (py_index slots e) as [ep|]; simpl; [|done].
    by destruct (py_index ep t).
  - destruct (default_factory (heap w !!! eb)); [|done].
    unfold bind, lift_opt, lift_res. simpl. by rewrite py_index_nil.
Qed.

Lemma map_M_lookup_sim {X} eb key (fe ft : X → Z) (l : list X) w :
  match map_M (λ x, lookup_step eb key (fe x) (ft x)) l w with
  | (Ok col, w') =>
      w' = w ∧ mapM (λ x, step_at (buffer_at w eb) key (fe x) (ft x)) l = Some col
  | (Raise _, _) => mapM (λ x, step_at (buffer_at w eb) key (fe x) (ft x)) l = None
  end.
Proof.
  induction l as [|x l IH]; simpl; [done |].
  unfold bind at 1. pose proof (lookup_step_sim eb key (fe x) (ft x) w) as Hx.
  destruct (lookup_step eb key (fe x) (ft x) w) as [[v|err] w1].
  - destruct Hx as [-> Hv]. rewrite Hv. simpl. unfold bind at 1.
    destruct (map_M _ l w) as [[col|err] w2].
    + destruct IH as [-> Hcol]. by rewrite Hcol.
    + by rewrite IH.
  - by rewrite Hx.
Qed.

Lemma gather_sim eb pairs ks acc w :
  match foldM (λ transitions key,
          col <- map_M (λ et : Z * Z, lookup_step eb key et.1 et.2) pairs ;;
          ret (dict_set transitions key col)) ks acc w with
  | (Ok tr, w') => w' = w ∧ gather_cols (buffer_at w eb) pairs ks acc = Some tr
  | (Raise _, _) => gather_cols (buffer_at w eb) pairs ks acc = None
  end.
Proof.
  revert acc. induction ks as [|key ks IH]; intros acc; simpl; [done |].
  unfold bind at 1. unfold bind at 1.
  pose proof (map_M_lookup_sim eb key fst snd pairs w) as Hcol.
  destruct (map_M _ pairs w) as [[col|err] w1].
  - destruct Hcol as [-> Hcol]. rewrite Hcol. simpl. apply IH.
  - by rewrite Hcol.
Qed.

Lemma episode_length_eq eb e w acs :
  dict_get (buffer_at w eb) "ac" = Some acs →
  episode_length eb e w = (of_opt IndexError (len <$> py_index acs e), w).
Proof.
  intros Hac. unfold episode_length. unfold bind at 1. rewrite getitem_eq, Hac.
  unfold bind, lift_opt, lift_res. by destruct (py_index acs e).
Qed.

Lemma t_samples_sim eb acs es w :
  dict_get (buffer_at w eb) "ac" = Some acs →
  match map_M (λ episode_idx,
          n <- episode_length eb episode_idx ;; randint 0%Z n) es w with
  | (Ok ts, w') =>
      w' = advance (length es) w ∧
      t_draws acs (rng_src w) (rng_pos w) es = Some ts
  | (Raise _, _) => t_draws acs (rng_src w) (rng_pos w) es = None
  end.
Proof.
  intros Hac. revert w Hac. induction es as [|e es IH]; intros w Hac; simpl.
  - by rewrite advance_0.
  - unfold bind at 1. unfold bind at 1.
    rewrite (episode_length_eq eb e w acs Hac). unfold t_draw.
    destruct (py_index acs e) as [ep|]; simpl; [|done].
    rewrite randint_eq. destruct (len ep <=? 0)%Z; simpl; [done |].
    rewrite Z.sub_0_r. unfold bind at 1.
    specialize (IH (advance 1 w) Hac). simpl in IH.
    destruct (map_M _ es (advance 1 w)) as [[ts|err] w2].
    + destruct IH as [-> Hts]. rewrite Hts. simpl. rewrite advance_advance.
      split; [f_equal; lia | done].
    + by rewrite IH.
Qed.

Lemma randint_n_sim k n w :
  match randint_n 0 k n w with
  | (Ok es, w') =>
      e_draws k (rng_src w) (rng_pos w) n = Some es ∧ w' = advance (length es) w
  | (Raise _, _) => e_draws k (rng_src w) (rng_pos w) n = None
  end.
Proof.
  unfold e_draws. destruct (Z.ltb_spec n 0) as [Hneg|Hnn].
  { unfold randint_n. by destruct (Z.ltb_spec n 0); [|lia]. }
  destruct (Z.eqb_spec n 0) as [->|Hne].
  { unfold randint_n. simpl. by rewrite advance_0. }
  rewrite randint_n_eq by lia.
  destruct (k <=? 0)%Z; [done |]. rewrite Z.sub_0_r. split; [done |].
  by rewrite length_fmap, length_seq.
Qed.

Lemma draw_and_gather_sim eb n w acs :
  dict_get (buffer_at w eb) "ac" = Some acs →
  match draw_and_gather eb n w with
  | (Ok x, w') =>
      drawn (buffer_at w eb) (rng_src w) (rng_pos w) n = Some x ∧
      w' = advance (2 * length x.1) w
  | (Raise _, _) => drawn (buffer_at w eb) (rng_src w) (rng_pos w) n = None
  end.
Proof.
  intros Hac. unfold draw_and_gather, drawn. rewrite Hac. simpl.
  unfold bind at 1. rewrite getitem_eq, Hac.
  unfold bind at 1. pose proof (randint_n_sim (len acs) n w) as Hes.
  destruct (randint_n 0 (len acs) n w) as [[es|err] w1]; [|by rewrite Hes].
  destruct Hes as [Hes ->]. rewrite Hes. simpl.
  unfold bind at 1.
  pose proof (t_samples_sim eb acs es (advance (length es) w) Hac) as Hts.
  simpl in Hts.
  destruct (map_M _ es (advance (length es) w)) as [[ts|err] w2]; [|by rewrite Hts].
  destruct Hts as [-> Hts]. rewrite Hts. simpl. rewrite advance_advance.
  unfold bind at 1. unfold keys at 1, heap_get at 1, bind at 1. simpl.
  unfold bind at 1.
  pose proof (gather_sim eb (zip es ts) (dict_keys (buffer_at w eb)) []
                (advance (length es + length es) w)) as Htr.
  change (buffer_at (advance (length es + length es) w) eb) with (buffer_at w eb) in Htr.
  fold (buffer_at w eb).
  match type of Htr with
  | match ?m with _ => _ end => destruct m as [[tr|err] w3]
  end; [|by rewrite Htr].
  destruct Htr as [-> Htr]. rewrite Htr. simpl.
  unfold bind at 1.
  pose proof (map_M_lookup_sim eb "ob" fst (λ et : Z * Z, et.2 + 1)%Z (zip es ts)
                (advance (length es + length es) w)) as Hob.
  change (buffer_at (advance (length es + length es) w) eb) with (buffer_at w eb) in Hob.
  match type of Hob with
  | match ?m with _ => _ end => destruct m as [[ob_next|err] w4]
  end; [|by rewrite Hob].
  destruct Hob as [-> Hob]. rewrite Hob. simpl. split; [done |].
  f_equal. assert (length ts = length es) as Hlen.
  { clear -Hts. revert ts Hts. generalize (length es + rng_pos w).
    induction es as [|e es IH]; intros p ts Hts; simpl in Hts.
    - by injection Hts as <-.
    - destruct (t_draw acs (rng_src w p) e); [|done]. simpl in Hts.
      destruct (t_draws acs (rng_src w) (S p) es) eqn:E; [|done]. simpl in Hts.
      injection Hts as <-. simpl. f_equal. by eapply IH. }
  rewrite length_zip, Hlen. lia.
Qed.

Lemma draw_and_gather_absent eb n w :
  dict_get (buffer_at w eb) "ac" = None →
  draw_and_gather eb n w =
  if default_factory (heap w !!! eb)
  then draw_and_gather eb n (with_ac eb w)
  else (Raise KeyError, w).
Proof.
  intros Hac. unfold draw_and_gather.
  destruct (default_factory (heap w !!! eb)) eqn:Hdef.
  - assert (Hget0 : getitem eb "ac" w = (Ok [], with_ac eb w))
      by (by rewrite getitem_eq, Hac, Hdef).
    assert (Hget1 : getitem eb "ac" (with_ac eb w) = (Ok [], with_ac eb w)).
    { rewrite getitem_eq. unfold buffer_at, with_ac. simpl.
      rewrite lookup_total_insert_eq. simpl. by rewrite dict_get_set_eq. }
    by rewrite (bind_Ok _ _ _ _ _ Hget0), (bind_Ok _ _ _ _ _ Hget1).
  - apply bind_Raise. by rewrite getitem_eq, Hac, Hdef.
Qed.

Lemma draw_and_gather_Ok eb n w x w' :
  draw_and_gather eb n w = (Ok x, w') →
  ∃ w1, (w1 = w ∨ w1 = with_ac eb w ∧ dict_get (buffer_at w eb) "ac" = None) ∧
        drawn (buffer_at w1 eb) (rng_src w) (rng_pos w) n = Some x ∧
        w' = advance (2 * length x.1) w1.
Proof.
  intros Hrun. destruct (dict_get (buffer_at w eb) "ac") as [acs|] eqn:Hac.
  - pose proof (draw_and_gather_sim eb n w acs Hac) as Hsim.
    rewrite Hrun in Hsim. destruct Hsim as [Hd ->]. exists w. eauto.
  - rewrite draw_and_gather_absent in Hrun by done.
    destruct (default_factory (heap w !!! eb)); [|done].
    assert (Hac1 : dict_get (buffer_at (with_ac eb w) eb) "ac" = Some []).
    { unfold buffer_at, with_ac. simpl. rewrite lookup_total_insert_eq. simpl.
      by rewrite dict_get_set_eq. }
    pose proof (draw_and_gather_sim eb n (with_ac eb w) [] Hac1) as Hsim.
    rewrite Hrun in Hsim. destruct Hsim as [Hd ->]. exists (with_ac eb w). eauto.
Qed.

Lemma e_draws_inv k src p n es :
  e_draws k src p n = Some es →
  length es = Z.to_nat n ∧ Forall (λ e, 0 ≤ e < k)%Z es.
Proof.
  unfold e_draws. destruct (Z.ltb_spec n 0); [done |].
  destruct (Z.eqb_spec n 0) as [->|?]; [by intros [= <-] |].
  destruct (Z.leb_spec k 0); [done |]. intros [= <-].
  rewrite length_fmap, length_seq. split; [done |].
  apply Forall_fmap, Forall_forall. intros i _. simpl.
  apply Z.mod_pos_bound. lia.
Qed.

Lemma t_draws_inv acs src p es ts :
  t_draws acs src p es = Some ts →
  Forall2 (λ e t, ∃ ep, py_index acs e = Some ep ∧ (0 ≤ t < len ep)%Z) es ts.
Proof.
  revert p ts. induction es as [|e es IH]; intros p ts Hts; simpl in Hts.
  - injection Hts as <-. constructor.
  - unfold t_draw in Hts. destruct (py_index acs e) as [ep|] eqn:He; [|done].
    simpl in Hts. destruct (Z.leb_spec (len ep) 0); [done |]. simpl in Hts.
    destruct (t_draws acs src (S p) es) as [ts'|] eqn:E; [|done]. simpl in Hts.
    injection Hts as <-. constructor; [|by eapply IH].
    exists ep. split; [done |]. apply Z.mod_pos_bound. lia.
Qed.

Lemma gather_cols_inv it pairs ks acc tr :
  gather_cols it pairs ks acc = Some tr →
  (∀ key, key ∈ ks →
     ∃ col, mapM (λ et, step_at it key et.1 et.2) pairs = Some col ∧
            dict_get tr key = Some col) ∧
  (∀ key, key ∉ ks → dict_get tr key = dict_get acc key) ∧
  (NoDup (dict_keys acc) → NoDup (dict_keys tr)).
Proof.
  revert acc. induction ks as [|k ks IH]; intros acc Htr; simpl in Htr.
  - injection Htr as <-. split_and!; [|done|done].
    intros key Hkey. by apply elem_of_nil in Hkey.
  - destruct (mapM (λ et, step_at it k et.1 et.2) pairs) as [col|] eqn:Hcol; [|done].
    simpl in Htr. destruct (IH _ Htr) as (Hin & Hout & Hdup). split_and!.
    + intros key Hkey. destruct (decide (key ∈ ks)) as [?|Hnotin]; [by apply Hin |].
      apply elem_of_cons in Hkey as [->|?]; [|done].
      exists col. split; [done |]. rewrite Hout by done. apply dict_get_set_eq.
    + intros key [Hne Hkey]%not_elem_of_cons. rewrite Hout by done.
      by apply dict_get_set_ne.
    + intros Hacc. by apply Hdup, dict_set_NoDup.
Qed.

Lemma drawn_inv it src p n pairs tr :
  drawn it src p n = Some (pairs, tr) →
  ∃ acs, dict_get it "ac" = Some acs ∧
    length pairs = Z.to_nat n ∧
    Forall (valid_draw acs) pairs ∧
    NoDup (dict_keys tr) ∧
    (∀ key, key ≠ "ob_next" →
       match dict_get it key with
       | Some _ => ∃ col, mapM (λ et, step_at it key et.1 et.2) pairs = Some col ∧
                          dict_get tr key = Some col
       | None => dict_get tr key = None
       end) ∧
    (∃ col, mapM (λ et, step_at it "ob" et.1 (et.2 + 1)%Z) pairs = Some col ∧
            dict_get tr "ob_next" = Some col).
Proof.
  unfold drawn. intros Hd.
  destruct (dict_get it "ac") as [acs|] eqn:Hac; [|done]. simpl in Hd.
  destruct (e_draws (len acs) src p n) as [es|] eqn:Hes; [|done]. simpl in Hd.
  destruct (t_draws acs src (length es + p) es) as [ts|] eqn:Hts; [|done]. simpl in Hd.
  destruct (gather_cols it (zip es ts) (dict_keys it) []) as [tr0|] eqn:Htr; [|done].
  simpl in Hd.
  destruct (mapM _ (zip es ts)) as [ob_next|] eqn:Hob; [|done]. simpl in Hd.
  injection Hd as <- <-.
  apply e_draws_inv in Hes as [Hlen Hes]. apply t_draws_inv in Hts.
  destruct (gather_cols_inv _ _ _ _ _ Htr) as (Hin & Hout & Hdup).
  exists acs. split_and!; [done | | | | |].
  - rewrite length_zip, <- (Forall2_length _ _ _ Hts). lia.
  - clear -Hes Hts. induction Hts as [|e t es ts (ep & Hep & Ht) _ IH]; simpl.
    + constructor.
    + apply Forall_cons in Hes as [He Hes]. constructor; [|by apply IH].
      exists ep. simpl. rewrite py_index_Some in Hep by lia. split_and!; [lia | done | lia | lia].
  - apply dict_set_NoDup, Hdup, NoDup_nil_2.
  - intros key Hkey. rewrite dict_get_set_ne by done.
    destruct (dict_get it key) as [slots|] eqn:Hk.
    + apply Hin. apply dict_get_elem in Hk. unfold dict_keys.
      apply list_elem_of_fmap. by exists (key, slots).
    + rewrite Hout; [done |]. by apply dict_get_None.
  - exists ob_next. split; [done |]. apply dict_get_set_eq.
Qed.

(** ** The learned-reward buffer *)

















Lemma np_array_Ax l a : np_array l = Some a → ∃ rows, a = Ax rows.
Proof.
  rewrite np_array_eq. destruct (mapM as_array l) as [[|r rows]|]; simpl; [| |done].
  - intros [= <-]. eauto.
  - destruct (forallb _ rows); [|done]. intros [= <-]. eauto.
Qed.




Lemma e_draws_lookup k src p n es i e :
  e_draws k src p n = Some es → es !! i = Some e →
  e = (src (i + p)%nat mod k)%Z.
Proof.
  unfold e_draws. destruct (n <? 0)%Z; [done |].
  destruct (n =? 0)%Z; [by intros [= <-] |].
  destruct (k <=? 0)%Z; [done |]. intros [= <-].
  rewrite list_lookup_fmap. intros Hi.
  destruct (seq 0 (Z.to_nat n) !! i) as [j|] eqn:Hj; [|done].
  apply lookup_seq in Hj as [-> _]. simpl in Hi. by injection Hi as <-.
Qed.

Lemma t_draws_lookup acs src p es ts i e t :
  t_draws acs src p es = Some ts → es !! i = Some e → ts !! i = Some t →
  ∃ ep, py_index acs e = Some ep ∧ t = (src (i + p)%nat mod len ep)%Z.
Proof.
  revert p ts i. induction es as [|e0 es IH]; intros p ts i Hts He Ht; [done |].
  simpl in Hts. unfold t_draw in Hts.
  destruct (py_index acs e0) as [ep|] eqn:Hep; [|done]. simpl in Hts.
  destruct (len ep <=? 0)%Z; [done |]. simpl in Hts.
  destruct (t_draws acs src (S p) es) as [ts'|] eqn:E; [|done]. simpl in Hts.
  injection Hts as <-. destruct i as [|i]; simpl in He, Ht.
  - injection He as <-. injection Ht as <-. eauto.
  - destruct (IH _ _ _ E He Ht) as (ep' & Hep' & ->). exists ep'.
    split; [done |]. by replace (i + S p)%nat with (S i + p)%nat by lia.
Qed.

(** Each draw is a function of its own two raw words. *)
Lemma drawn_lookup it src p n pairs tr acs i e t :
  drawn it src p n = Some (pairs, tr) →
  dict_get it "ac" = Some acs →
  pairs !! i = Some (e, t) →
  e = (src (i + p)%nat mod len acs)%Z ∧
  ∃ ep, py_index acs e = Some ep ∧
        t = (src (i + (Z.to_nat n + p))%nat mod len ep)%Z.
Proof.
  unfold drawn. intros Hd Hac Hi. rewrite Hac in Hd. simpl in Hd.
  destruct (e_draws (len acs) src p n) as [es|] eqn:Hes; [|done]. simpl in Hd.
  destruct (t_draws acs src (length es + p) es) as [ts|] eqn:Hts; [|done]. simpl in Hd.
  destruct (gather_cols it (zip es ts) (dict_keys it) []) as [tr0|]; [|done].
  simpl in Hd.
  destruct (mapM _ (zip es ts)) as [ob_next|]; [|done]. simpl in Hd.
  injection Hd as <- <-.
  apply lookup_zip_with_Some in Hi as (e' & t' & [= -> ->] & He & Ht).
  split; [by eapply e_draws_lookup |].
  destruct (t_draws_lookup _ _ _ _ _ _ _ _ Hts He Ht) as (ep & Hep & ->).
  exists ep. split; [done |].
  by rewrite (proj1 (e_draws_inv _ _ _ _ _ Hes)).
Qed.

(** ** Hindsight relabelling *)

Lemma uniform_eq w : uniform w = (Ok (uniform_of (raw w 0)), advance 1 w).
Proof. done. Qed.

Lemma lookup_step_Ok eb key e t w v w' :
  lookup_step eb key e t w = (Ok v, w') →
  w' = w ∧ step_at (buffer_at w eb) key e t = Some v.
Proof. intros H. pose proof (lookup_step_sim eb key e t w) as Hs. by rewrite H in Hs. Qed.

Lemma lift_opt_Ok {A} (e : exn) (o : option A) w a w' :
  lift_opt e o w = (Ok a, w') → o = Some a ∧ w' = w.
Proof. unfold lift_opt, lift_res. destruct o; simpl; [|done]. by intros [= -> ->]. Qed.

Lemma py_setitem_inv {A} (l : list A) (i : nat) x l' :
  py_setitem l (Z.of_nat i) x = Some l' → i < length l ∧ l' = <[i:=x]> l.
Proof.
  unfold py_setitem, len. destruct (Z.leb_spec 0 (Z.of_nat i)); [|lia].
  destruct (Z.ltb_spec (Z.of_nat i) (Z.of_nat (length l))); [|done].
  rewrite Nat2Z.id. intros [= <-]. split; [lia | done].
Qed.

Lemma dict_keys_set_present {V} (d : dict V) k v v' :
  dict_get d k = Some v → dict_keys (dict_set d k v') = dict_keys d.
Proof.
  intros Hk. rewrite dict_keys_set. rewrite bool_decide_eq_true_2; [done |].
  destruct (decide (k ∈ dict_keys d)) as [?|Hn]; [done |].
  apply dict_get_None in Hn. congruence.
Qed.

Lemma length_her_offsets h src p rounds : length (her_offsets h src p rounds) = rounds.
Proof. revert p. induction rounds as [|c IH]; intros p; simpl; [done | by rewrite IH]. Qed.

Lemma her_offsets_ge h src p rounds i q :
  her_offsets h src p rounds !! i = Some q → p ≤ q.
Proof.
  revert p i. induction rounds as [|c IH]; intros p i Hq; [done |].
  destruct i as [|i]; simpl in Hq.
  - injection Hq as <-. lia.
  - apply IH in Hq. destruct (Qltb _ _) in Hq; lia.
Qed.

(** A later round starts after every word an earlier round has read. *)
Lemma her_offsets_lt h src p rounds i j q q' :
  i < j →
  her_offsets h src p rounds !! i = Some q →
  her_offsets h src p rounds !! j = Some q' →
  (if Qltb (uniform_of (src q)) (future_p h) then S q else q) < q'.
Proof.
  revert p i j. induction rounds as [|c IH]; intros p i j Hij Hq Hq'; [done |].
  destruct j as [|j]; [lia |]. destruct i as [|i]; simpl in Hq, Hq'.
  - injection Hq as <-. apply her_offsets_ge in Hq'.
    destruct (Qltb _ _); lia.
  - eapply IH; [| exact Hq | exact Hq']. lia.
Qed.

Lemma her_step_inv h eb (i : nat) e t tr w tr1 w1 acs :
  her_step h eb (Z.of_nat i) (e, t) tr w = (Ok tr1, w1) →
  dict_get (buffer_at w eb) "ac" = Some acs →
  ∃ gs rs g0 g_fin rf ag_next,
    dict_get tr "g" = Some gs ∧
    dict_get tr "r" = Some rs ∧
    gs !! i = Some g0 ∧
    her_goal h (buffer_at w eb) e t (uniform_of (raw w 0)) (raw w 1) g0 = Some g_fin ∧
    reward_func h = Some rf ∧
    step_at (buffer_at w eb) "ag" e (t + 1) = Some ag_next ∧
    i < length rs ∧
    dict_get tr1 "g" = Some (<[i:=g_fin]> gs) ∧
    dict_get tr1 "r" = Some (<[i:=scalar (rf ag_next g_fin)]> rs) ∧
    (∀ key, key ≠ "g" → key ≠ "r" → dict_get tr1 key = dict_get tr key) ∧
    dict_keys tr1 = dict_keys tr ∧
    w1 = advance (if Qltb (uniform_of (raw w 0)) (future_p h) then 2 else 1) w.
Proof.
  intros Hrun Hac. unfold her_step in Hrun. simpl in Hrun.
  apply bind_Ok_inv in Hrun as (u & wu & Hu & Hrun).
  rewrite uniform_eq in Hu. injection Hu as <- <-.
  apply bind_Ok_inv in Hrun as (tr0 & w0 & Hblock & Hrun).
  apply bind_Ok_inv in Hrun as (ag_next & wa & Hnext & Hrun).
  apply lookup_step_Ok in Hnext as [-> Hnext].
  apply bind_Ok_inv in Hrun as (g & wb & Hg0 & Hrun).
  apply lift_opt_Ok in Hg0 as [Hg0 ->].
  apply bind_Ok_inv in Hrun as (g_fin & wc & Hgi & Hrun).
  apply lift_opt_Ok in Hgi as [Hgi ->].
  apply bind_Ok_inv in Hrun as (r & wd & Hcall & Hrun).
  unfold call_reward_func in Hcall.
  destruct (reward_func h) as [rf|] eqn:Hrf; [|done]. injection Hcall as <- <-.
  apply bind_Ok_inv in Hrun as (rs & we & Hrs0 & Hrun).
  apply lift_opt_Ok in Hrs0 as [Hrs0 ->].
  apply bind_Ok_inv in Hrun as (rs' & wf & Hset & Hrun).
  apply lift_opt_Ok in Hset as [Hset ->].
  injection Hrun as <- <-.
  apply py_setitem_inv in Hset as [Hi ->].
  rewrite py_index_Some in Hgi by lia. rewrite Nat2Z.id in Hgi.
  (* the relabelling block *)
  assert (Hblock' : ∃ gs g0,
    dict_get tr "g" = Some gs ∧
    gs !! i = Some g0 ∧
    her_goal h (buffer_at w eb) e t (uniform_of (raw w 0)) (raw w 1) g0 = Some g_fin ∧
    dict_get tr0 "g" = Some (<[i:=g_fin]> gs) ∧
    dict_get tr0 "r" = dict_get tr "r" ∧
    (∀ key, key ≠ "g" → dict_get tr0 key = dict_get tr key) ∧
    dict_keys tr0 = dict_keys tr ∧
    buffer_at w0 eb = buffer_at w eb ∧
    w0 = advance (if Qltb (uniform_of (raw w 0)) (future_p h) then 2 else 1) w).
  { destruct (Qltb (uniform_of (raw w 0)) (future_p h)) eqn:Hp.
    - apply bind_Ok_inv in Hblock as (len_ep & w2 & Hlen & Hblock).
      rewrite (episode_length_eq eb e (advance 1 w) acs Hac) in Hlen.
      change episode with (list value) in *.
      destruct (py_index acs e) as [ep|] eqn:Hep; [|done].
      simpl in Hlen. injection Hlen as <- <-.
      apply bind_Ok_inv in Hblock as (future_t & w3 & Hft & Hblock).
      rewrite randint_eq in Hft.
      destruct (len ep + 1 <=? t + 1)%Z; [done |]. injection Hft as <- <-.
      apply bind_Ok_inv in Hblock as (future_ag & w4 & Hfag & Hblock).
      apply lookup_step_Ok in Hfag as [-> Hfag].
      apply bind_Ok_inv in Hblock as (ag_t & w5 & Hagt & Hblock).
      apply lookup_step_Ok in Hagt as [-> Hagt].
      apply bind_Ok_inv in Hblock as (r0 & w6 & Hcall & Hblock).
      unfold call_reward_func in Hcall. rewrite Hrf in Hcall.
      injection Hcall as <- <-.
      change (buffer_at (advance 1 (advance 1 w)) eb) with (buffer_at w eb) in *.
      change (raw (advance 1 w) 0) with (raw w 1) in *.
      change (advance 1 (advance 1 w)) with (advance 2 w) in *.
      assert (Hgoal : ∀ g0,
        her_goal h (buffer_at w eb) e t (uniform_of (raw w 0)) (raw w 1) g0 =
        Some (if Qltb (rf ag_t future_ag) 0 then future_ag else g0)).
      { intros g0. unfold her_goal. change episode with (list value) in *.
        rewrite Hp, Hac. simpl. rewrite Hep. simpl.
        change (raw w 1) with (rng_src w (S (rng_pos w))).
        rewrite Hfag. simpl. rewrite Hagt. simpl. by rewrite Hrf. }
      destruct (Qltb (rf ag_t future_ag) 0) eqn:Hneg.
      + apply bind_Ok_inv in Hblock as (gs & w7 & Hg1 & Hblock).
        apply lift_opt_Ok in Hg1 as [Hg1 ->].
        apply bind_Ok_inv in Hblock as (g' & w8 & Hg' & Hblock).
        apply lift_opt_Ok in Hg' as [Hg' ->]. injection Hblock as <- <-.
        apply py_setitem_inv in Hg' as [Hig ->].
        rewrite dict_get_set_eq in Hg0. injection Hg0 as <-.
        rewrite list_lookup_insert_eq in Hgi by done. injection Hgi as <-.
        destruct (lookup_lt_is_Some_2 gs i Hig) as [g0 Hg0].
        exists gs, g0. split_and!; try done.
        * apply dict_get_set_eq.
        * by rewrite dict_get_set_ne.
        * intros key Hkey. by apply dict_get_set_ne.
        * by eapply dict_keys_set_present.
      + injection Hblock as <- <-.
        exists g, g_fin. split_and!; try done.
        by rewrite list_insert_id.
    - injection Hblock as <- <-.
      exists g, g_fin. split_and!; try done.
      + unfold her_goal. by rewrite Hp.
      + by rewrite list_insert_id. }
  destruct Hblock' as
    (gs & g0 & Hg & Hg0' & Hgoal & Htr0g & Htr0r & Htr0 & Hkeys0 & Hit & ->).
  rewrite Hit in Hnext. rewrite Htr0r in Hrs0.
  exists gs, rs, g0, g_fin, rf, ag_next. split_and!; try done.
  - by rewrite dict_get_set_ne.
  - apply dict_get_set_eq.
  - intros key Hkg Hkr. rewrite dict_get_set_ne by done. by apply Htr0.
  - rewrite <- Hkeys0. eapply dict_keys_set_present. by rewrite Htr0r.
Qed.

Lemma her_loop_inv h eb pairs (i0 : nat) tr w tr' w' acs gs rs :
  for_enumerate (her_step h eb) pairs (Z.of_nat i0) tr w = (Ok tr', w') →
  dict_get (buffer_at w eb) "ac" = Some acs →
  dict_get tr "g" = Some gs →
  dict_get tr "r" = Some rs →
  ∃ gs' rs' k,
    dict_get tr' "g" = Some gs' ∧
    dict_get tr' "r" = Some rs' ∧
    length gs' = length gs ∧
    length rs' = length rs ∧
    (∀ key, key ≠ "g" → key ≠ "r" → dict_get tr' key = dict_get tr key) ∧
    dict_keys tr' = dict_keys tr ∧
    w' = advance k w ∧
    (∀ j, j < i0 → gs' !! j = gs !! j ∧ rs' !! j = rs !! j) ∧
    (∀ j e t, pairs !! j = Some (e, t) →
       ∃ g0 q g_fin rf ag_next,
         her_offsets h (rng_src w) (rng_pos w) (length pairs) !! j = Some q ∧
         gs !! (i0 + j) = Some g0 ∧
         her_goal h (buffer_at w eb) e t (uniform_of (rng_src w q)) (rng_src w (S q)) g0
           = Some g_fin ∧
         reward_func h = Some rf ∧
         step_at (buffer_at w eb) "ag" e (t + 1) = Some ag_next ∧
         gs' !! (i0 + j) = Some g_fin ∧
         rs' !! (i0 + j) = Some (scalar (rf ag_next g_fin))).
Proof.
  revert i0 tr w gs rs.
  induction pairs as [|[e t] pairs IH]; intros i0 tr w gs rs Hrun Hac Hg Hr.
  - simpl in Hrun. injection Hrun as <- <-.
    exists gs, rs, 0. rewrite advance_0. split_and!; try done.
  - simpl in Hrun. apply bind_Ok_inv in Hrun as (tr1 & w1 & Hstep & Hrun).
    destruct (her_step_inv _ _ _ _ _ _ _ _ _ _ Hstep Hac)
      as (gs0 & rs0 & g0 & g_fin & rf & ag_next &
          Hg' & Hr' & Hg0 & Hgoal & Hrf & Hnext & Hi & Hg1 & Hr1 & Hother1 & Hkeys1 & ->).
    rewrite Hg in Hg'. injection Hg' as <-. rewrite Hr in Hr'. injection Hr' as <-.
    replace (Z.of_nat i0 + 1)%Z with (Z.of_nat (S i0)) in Hrun by lia.
    change (raw w 0) with (rng_src w (rng_pos w)) in *.
    change (raw w 1) with (rng_src w (S (rng_pos w))) in *.
    set (k := if Qltb (uniform_of (rng_src w (rng_pos w))) (future_p h)
              then 2 else 1) in *.
    destruct (IH _ _ _ _ _ Hrun Hac Hg1 Hr1)
      as (gs' & rs' & k' & Hg2 & Hr2 & Hlg & Hlr & Hother2 & Hkeys2 & -> & Hbefore & Hat).
    rewrite length_insert in Hlg, Hlr.
    assert (Hig : i0 < length gs) by (by eapply lookup_lt_Some).
    exists gs', rs', (k' + k). split_and!; try done.
    + intros key Hkg Hkr. rewrite Hother2 by done. by apply Hother1.
    + congruence.
    + by rewrite advance_advance.
    + intros j Hj. destruct (Hbefore j) as [Hgj Hrj]; [lia |].
      rewrite Hgj, Hrj. rewrite !list_lookup_insert_ne by lia. done.
    + intros [|j] e' t' Hj.
      * simpl in Hj. injection Hj as <- <-. rewrite Nat.add_0_r.
        destruct (Hbefore i0) as [Hgj Hrj]; [lia |].
        exists g0, (rng_pos w), g_fin, rf, ag_next. split_and!; try done.
        -- rewrite Hgj. by apply list_lookup_insert_eq.
        -- rewrite Hrj. by apply list_lookup_insert_eq.
      * simpl in Hj. destruct (Hat j e' t' Hj)
          as (g0' & q & g_fin' & rf' & ag_next' & Hq & Hg0' & Hgoal' & Hrf' &
              Hnext' & Hgs' & Hrs').
        replace (i0 + S j) with (S i0 + j) by lia.
        rewrite list_lookup_insert_ne in Hg0' by lia.
        exists g0', q, g_fin', rf', ag_next'. split_and!; try done.
        cbn [length her_offsets lookup list_lookup]. rewrite <- Hq.
        change (rng_src (advance k w)) with (rng_src w).
        change (rng_pos (advance k w)) with (k + rng_pos w).
        f_equal. f_equal. unfold k.
        by destruct (Qltb (uniform_of (rng_src w (rng_pos w))) (future_p h)).
Qed.

Lemma uniform_of_range r : (0 <= uniform_of r)%Q ∧ (uniform_of r < 1)%Q.
Proof.
  unfold uniform_of, Qle, Qlt. simpl.
  change (2 ^ 53)%positive with 9007199254740992%positive.
  change (2 ^ 53)%Z with 9007199254740992%Z.
  pose proof (Z.mod_pos_bound r 9007199254740992 ltac:(lia)). lia.
Qed.

(** The uniform draw made from the word [r] is below a threshold of
    [a / 2^53] exactly for the [a] smallest values of [r mod 2^53]. *)
Lemma Qltb_uniform_of r a p :
  (p == a # 2 ^ 53)%Q →
  Qltb (uniform_of r) p = true ↔ (r mod 2 ^ 53 < a)%Z.
Proof.
  intros Hp. unfold Qltb. rewrite negb_true_iff, <- not_true_iff_false, Qle_bool_iff.
  rewrite Hp. unfold uniform_of, Qle. simpl.
  change (2 ^ 53)%positive with 9007199254740992%positive.
  change (2 ^ 53)%Z with 9007199254740992%Z. lia.
Qed.

Lemma Qltb_nonpos u p : (0 <= u)%Q → (p <= 0)%Q → Qltb u p = false.
Proof.
  intros Hu Hp. unfold Qltb. apply negb_false_iff, Qle_bool_iff.
  by apply Qle_trans with 0%Q.
Qed.

(** What a batch of the hindsight sampler is made of. *)
Lemma her_sample_inv h eb n w b w' :
  sample_her_transitions h eb n w = (Ok b, w') →
  let it := buffer_at w eb in
  ∃ pairs tr gs rs acs c_g c_r,
    dict_get it "ac" = Some acs ∧
    heap w' = heap w ∧
    drawn it (rng_src w) (rng_pos w) n = Some (pairs, tr) ∧
    length pairs = Z.to_nat n ∧
    Forall (valid_draw acs) pairs ∧
    length gs = length pairs ∧
    length rs = length pairs ∧
    stack_column gs = Ok c_g ∧ dict_get b "g" = Some c_g ∧
    stack_column rs = Ok c_r ∧ dict_get b "r" = Some c_r ∧
    (∀ key, key ≠ "g" → key ≠ "r" →
       match dict_get tr key with
       | Some col => ∃ c, stack_column col = Ok c ∧ dict_get b key = Some c
       | None => dict_get b key = None
       end) ∧
    ∀ i e t, pairs !! i = Some (e, t) →
      ∃ g_stored q g_fin rf ag_next,
        her_offsets h (rng_src w) (2 * Z.to_nat n + rng_pos w) (Z.to_nat n) !! i = Some q ∧
        step_at it "g" e t = Some g_stored ∧
        her_goal h it e t (uniform_of (rng_src w q)) (rng_src w (S q)) g_stored
          = Some g_fin ∧
        gs !! i = Some g_fin ∧
        reward_func h = Some rf ∧
        step_at it "ag" e (t + 1) = Some ag_next ∧
        rs !! i = Some (scalar (rf ag_next g_fin)).
Proof.
  intros Hrun it. subst it. rewrite sample_her_transitions_prefix in Hrun.
  apply bind_Ok_inv in Hrun as ([pairs tr] & w1 & Hpre & Hrun).
  apply bind_Ok_inv in Hrun as (tr' & w2 & Hloop & Hstack).
  unfold lift_res in Hstack. injection Hstack as Hstack <-. simpl in Hloop.
  destruct (draw_and_gather_Ok _ _ _ _ _ Hpre) as (w0 & Hw0 & Hdrawn & ->).
  destruct (drawn_inv _ _ _ _ _ _ Hdrawn)
    as (acs & Hac & Hlen & Hvalid & Hnd & Hcols & ob_next & Hob_next & Htr_next).
  simpl in Hloop.
  set (tr_r := dict_set tr "r" (np_zeros (Z.to_nat n))) in *.
  assert (Hr : dict_get tr_r "r" = Some (np_zeros (Z.to_nat n))) by apply dict_get_set_eq.
  assert (Hnd_r : NoDup (dict_keys tr_r)) by (by apply dict_set_NoDup).
  (* at least one sample, since the batch was stacked *)
  destruct pairs as [|[e0 t0] pairs'].
  { exfalso. simpl in Hloop. injection Hloop as <- <-.
    simpl in Hob_next. injection Hob_next as <-.
    pose proof (stack_transitions_inv _ _ Hnd_r Hstack "ob_next") as Hs.
    unfold tr_r in Hs. rewrite dict_get_set_ne, Htr_next in Hs by done.
    by destruct Hs as (c & Hc & _). }
  (* so the store had its key ["ac"] *)
  assert (w0 = w) as ->.
  { destruct Hw0 as [-> | [-> Hnone]]; [done |]. exfalso.
    assert (Hac0 : dict_get (buffer_at (with_ac eb w) eb) "ac" = Some []).
    { unfold buffer_at, with_ac. simpl. rewrite lookup_total_insert_eq. simpl.
      by rewrite dict_get_set_eq. }
    rewrite Hac0 in Hac. injection Hac as <-.
    apply Forall_cons in Hvalid as [(ep & _ & Hep & _) _]. done. }
  set (it := buffer_at w eb) in *.
  set (w1 := advance (2 * length ((e0, t0) :: pairs')) w) in *.
  assert (Hac1 : dict_get (buffer_at w1 eb) "ac" = Some acs) by done.
  assert (Hg : ∃ gs0, dict_get tr_r "g" = Some gs0).
  { simpl in Hloop. apply bind_Ok_inv in Hloop as (tr1 & w3 & Hstep & _).
    destruct (her_step_inv _ _ 0 _ _ _ _ _ _ _ Hstep Hac1) as (gs0 & _ & _ & _ & _ & _ & Hg0 & _).
    eauto. }
  destruct Hg as [gs0 Hg].
  assert (Hg_col : mapM (λ et : Z * Z, step_at it "g" et.1 et.2) ((e0, t0) :: pairs') = Some gs0).
  { unfold tr_r in Hg. rewrite dict_get_set_ne in Hg by done.
    specialize (Hcols "g" ltac:(done)). rewrite Hg in Hcols.
    destruct (dict_get it "g"); [|done]. destruct Hcols as (col & Hcol & [= ->]). done. }
  destruct (her_loop_inv _ _ _ 0 _ _ _ _ _ _ _ Hloop Hac1 Hg Hr)
    as (gs' & rs' & k & Hg' & Hr' & Hlg & Hlr & Hother & Hkeys & -> & _ & Hat).
  assert (Hnd' : NoDup (dict_keys tr')) by (by rewrite Hkeys).
  pose proof (stack_transitions_inv _ _ Hnd' Hstack "g") as Hsg. rewrite Hg' in Hsg.
  pose proof (stack_transitions_inv _ _ Hnd' Hstack "r") as Hsr. rewrite Hr' in Hsr.
  destruct Hsg as (c_g & Hc_g & Hb_g). destruct Hsr as (c_r & Hc_r & Hb_r).
  apply mapM_Some in Hg_col. pose proof (Forall2_length _ _ _ Hg_col) as Hlen_g.
  exists ((e0, t0) :: pairs'), tr, gs', rs', acs, c_g, c_r.
  split_and!; try done.
  - by rewrite Hlg, <- Hlen_g.
  - rewrite Hlr. unfold np_zeros. by rewrite length_replicate.
  - intros key Hkg Hkr.
    pose proof (stack_transitions_inv _ _ Hnd' Hstack key) as Hs.
    rewrite (Hother key Hkg Hkr) in Hs. unfold tr_r in Hs.
    by rewrite dict_get_set_ne in Hs.
  - intros i e t Hi.
    destruct (Hat i e t Hi)
      as (g0 & q & g_fin & rf & ag_next & Hq & Hg0 & Hgoal & Hrf & Hnext & Hgi & Hri).
    simpl in Hg0.
    pose proof (Forall2_lookup_lr _ _ _ _ _ _ Hg_col Hi Hg0) as Hstored. simpl in Hstored.
    exists g0, q, g_fin, rf, ag_next. split_and!; try done.
    rewrite <- Hlen. exact Hq.
Qed.

(** The columns of a hindsight batch other than ["g"] and ["r"] are the
    stacked store entries at the draws. *)
Lemma her_other_columns it src p n pairs tr (b : batch_t) :
  drawn it src p n = Some (pairs, tr) →
  (∀ key, key ≠ "g" → key ≠ "r" →
     match dict_get tr key with
     | Some col => ∃ c, stack_column col = Ok c ∧ dict_get b key = Some c
     | None => dict_get b key = None
     end) →
  (∀ key, key ≠ "g" → key ≠ "r" → key ≠ "ob_next" →
     match dict_get it key with
     | Some _ => ∃ col c, mapM (λ et, step_at it key et.1 et.2) pairs = Some col ∧
                          stack_column col = Ok c ∧ dict_get b key = Some c
     | None => dict_get b key = None
     end) ∧
  ∃ col c, mapM (λ et, step_at it "ob" et.1 (et.2 + 1)%Z) pairs = Some col ∧
           stack_column col = Ok c ∧ dict_get b "ob_next" = Some c.
Proof.
  intros Hd Hb.
  destruct (drawn_inv _ _ _ _ _ _ Hd)
    as (acs & _ & _ & _ & _ & Hcols & ob_next & Hob_next & Htr_next).
  split.
  - intros key Hkg Hkr Hkn. specialize (Hcols key Hkn). specialize (Hb key Hkg Hkr).
    destruct (dict_get it key).
    + destruct Hcols as (col & Hcol & Htr). rewrite Htr in Hb.
      destruct Hb as (c & Hc & Hbk). by exists col, c.
    + by rewrite Hcols in Hb.
  - specialize (Hb "ob_next" ltac:(done) ltac:(done)). rewrite Htr_next in Hb.
    destruct Hb as (c & Hc & Hbk). by exists ob_next, c.
Qed.

(** C2: a batch the hindsight sampler returns is a function of the store
    [it] and of the raw words [raw 0], [raw 1], ... the generator
    produces.  Sample [i] is drawn, as by the uniform sampler, at the
    episode [e = raw i mod len(ac)] and the time step
    [t = raw (i + batch_size) mod len(ac[e])]; every column other than
    ["g"] and ["r"] is the stack of the store's entries at these draws.
    The hindsight loop then reads fresh words: round [i] starts at the
    first word [q] no earlier round has read, and the words of the rounds
    come after those of the draws, so each sample is decided by words of
    its own.  Its uniform draw is [u = (word q mod 2^53) / 2^53], in
    [[0, 1)], and [u < future_p] holds for exactly [a] of the [2^53]
    values of the word when [future_p] is [a / 2^53].  If [u < future_p]
    fails, the sample keeps the goal [g[e][t]] gathered for it and reads
    one word.  If it holds, the sample reads a second word [r] and
    [future_t = t + 1 + r mod (len(ac[e]) - t)], which lies between
    [t + 1] and [len(ac[e])] inclusive and takes each of these values on
    exactly one residue of [r]; the goal is [ag[e][future_t]] exactly when
    [reward_func(ag[e][t], ag[e][future_t], None) < 0], a check on [ag] at
    time [t] and not [t + 1], and is the gathered goal otherwise.  The
    column ["g"] of the batch is the stack of these goals. *)
Theorem her_goal_relabel (h : HERSampler) (eb : loc) (n : Z) (w w' : world)
    (b : batch_t) :
  sample_her_transitions h eb n w = (Ok b, w') →
  let it := buffer_at w eb in
  let m := Z.to_nat n in
  let qs := her_offsets h (rng_src w) (2 * m + rng_pos w) m in
  ∃ pairs gs acs c_g,
    dict_get it "ac" = Some acs ∧
    buffer_at w' eb = it ∧
    length pairs = m ∧
    length gs = m ∧
    length qs = m ∧
    stack_column gs = Ok c_g ∧
    dict_get b "g" = Some c_g ∧
    (∀ key, key ≠ "g" → key ≠ "r" → key ≠ "ob_next" →
       match dict_get it key with
       | Some _ => ∃ col c, mapM (λ et, step_at it key et.1 et.2) pairs = Some col ∧
                            stack_column col = Ok c ∧ dict_get b key = Some c
       | None => dict_get b key = None
       end) ∧
    (∃ col c, mapM (λ et, step_at it "ob" et.1 (et.2 + 1)%Z) pairs = Some col ∧
              stack_column col = Ok c ∧ dict_get b "ob_next" = Some c) ∧
    ∀ i e t, pairs !! i = Some (e, t) →
      ∃ ep g_stored g_fin q,
        let u := uniform_of (rng_src w q) in
        let replace_goal := Qltb u (future_p h) in
        let future_t := (t + 1 + rng_src w (S q) mod (len ep + 1 - (t + 1)))%Z in
        e = (raw w i mod len acs)%Z ∧
        acs !! Z.to_nat e = Some ep ∧
        t = (raw w (i + m) mod len ep)%Z ∧
        (0 ≤ t < len ep)%Z ∧
        qs !! i = Some q ∧
        2 * m + rng_pos w ≤ q ∧
        (∀ j q', i < j → qs !! j = Some q' → (if replace_goal then S q else q) < q') ∧
        step_at it "g" e t = Some g_stored ∧
        gs !! i = Some g_fin ∧
        (0 <= u)%Q ∧ (u < 1)%Q ∧
        (∀ a, (future_p h == a # 2 ^ 53)%Q →
           replace_goal = true ↔ (rng_src w q mod 2 ^ 53 < a)%Z) ∧
        (t + 1 ≤ future_t ≤ len ep)%Z ∧
        (∀ f r, (t + 1 ≤ f ≤ len ep)%Z →
           (t + 1 + r mod (len ep + 1 - (t + 1)) = f)%Z ↔
           (r mod (len ep - t) = f - (t + 1))%Z) ∧
        (replace_goal = false → g_fin = g_stored) ∧
        (replace_goal = true →
           ∃ rf ag_t future_ag,
             reward_func h = Some rf ∧
             step_at it "ag" e t = Some ag_t ∧
             step_at it "ag" e future_t = Some future_ag ∧
             g_fin = if Qltb (rf ag_t future_ag) 0 then future_ag else g_stored).
Proof.
  intros Hrun it m qs.
  destruct (her_sample_inv _ _ _ _ _ _ Hrun)
    as (pairs & tr & gs & rs & acs & c_g & c_r & Hac & Hheap & Hd & Hlen & Hvalid & Hlg & _ &
        Hc_g & Hb_g & _ & _ & Hcols & Hat).
  fold it in Hac, Hd, Hat.
  destruct (her_other_columns _ _ _ _ _ _ _ Hd Hcols) as [Hkeys Hnext].
  exists pairs, gs, acs, c_g. split_and!; try done.
  { unfold it, buffer_at. by rewrite Hheap. }
  { by rewrite Hlg. }
  { apply length_her_offsets. }
  intros i e t Hi.
  destruct (Hat i e t Hi)
    as (g_stored & q & g_fin & rf & ag_next & Hq & Hstored & Hgoal & Hgi & Hrf & _).
  pose proof (proj1 (Forall_lookup _ _) Hvalid i (e, t) Hi) as (ep & He & Hep & Ht).
  simpl in He, Hep, Ht.
  destruct (drawn_lookup _ _ _ _ _ _ _ _ _ _ Hd Hac Hi) as (He' & ep' & Hep' & Ht').
  rewrite py_index_Some in Hep' by done.
  change episode with (list value) in *.
  rewrite Hep in Hep'. injection Hep' as <-.
  exists ep, g_stored, g_fin, q.
  destruct (uniform_of_range (rng_src w q)) as [Hu0 Hu1].
  pose proof (Z.mod_pos_bound (rng_src w (S q)) (len ep + 1 - (t + 1))).
  fold m in Hq, Ht'. fold qs in Hq.
  split_and!; try done; try lia.
  - unfold raw. rewrite Ht'. by rewrite Nat.add_assoc.
  - by eapply her_offsets_ge.
  - intros j q' Hij Hq'. by eapply her_offsets_lt.
  - intros a Ha. by apply Qltb_uniform_of.
  - intros f r Hf. replace (len ep + 1 - (t + 1))%Z with (len ep - t)%Z by lia. lia.
  - intros Hp. unfold her_goal in Hgoal. rewrite Hp in Hgoal. congruence.
  - intros Hp. unfold her_goal in Hgoal. rewrite Hp in Hgoal.
    change episode with (list value) in *.
    rewrite Hac in Hgoal. simpl in Hgoal.
    rewrite (py_index_Some acs e He) in Hgoal. rewrite Hep in Hgoal. simpl in Hgoal.
    destruct (step_at it "ag" e
                (t + 1 + rng_src w (S q) `mod` (len ep + 1 - (t + 1))))
      as [future_ag|] eqn:Hfag; [|done]. simpl in Hgoal.
    destruct (step_at it "ag" e t) as [ag_t|] eqn:Hagt; [|done].
    simpl in Hgoal.
    rewrite Hrf in Hgoal. simpl in Hgoal. injection Hgoal as <-.
    exists rf, ag_t, future_ag. done.
Qed.

Lemma her_goal_relabel_witness :
  ∃ b, (sample_her_transitions ex_her_quarter (_buffer (self ex_mixed_world)) 3
          ex_mixed_world).1 = Ok b ∧
       dict_get b "g" = Some (SArr (Ax [Sc 11; Sc 2; Sc 12])).
Proof.
  destruct (sample_her_transitions ex_her_quarter (_buffer (self ex_mixed_world)) 3
              ex_mixed_world) as [[b|err] w'] eqn:E; [|vm_compute in E; discriminate].
  exists b. split; [reflexivity |].
  destruct (her_goal_relabel _ _ _ _ _ _ E)
    as (pairs & gs & acs & c_g & Hac & _ & Hlen & Hlg & _ & Hc & Hg & _ & _ & Hat).
  clear E. vm_compute in Hac. injection Hac as <-.
  vm_compute in Hlen. vm_compute in Hlg.
  destruct pairs as [|[e0 t0] [|[e1 t1] [|[e2 t2] [|]]]]; try discriminate Hlen.
  destruct gs as [|g0 [|g1 [|g2 [|]]]]; try discriminate Hlg.
  (* the first sample draws one half and keeps its goal *)
  destruct (Hat 0 e0 t0 eq_refl)
    as (ep0 & gst0 & gf0 & q0 & He0 & Hep0 & Ht0 & _ & Hq0 & _ & _ & Hst0 & Hgi0 & _ & _ & _ &
        _ & _ & Hkeep0 & _).
  vm_compute in He0. subst e0. vm_compute in Hep0. injection Hep0 as <-.
  vm_compute in Ht0. subst t0. vm_compute in Hq0. injection Hq0 as <-.
  vm_compute in Hst0. injection Hst0 as <-. injection Hgi0 as ->.
  rewrite (Hkeep0 ltac:(vm_compute; reflexivity)) in Hc. clear Hkeep0.
  (* the other two draw next to zero and take the goal achieved last *)
  destruct (Hat 1 e1 t1 eq_refl)
    as (ep1 & gst1 & gf1 & q1 & He1 & Hep1 & Ht1 & _ & Hq1 & _ & _ & Hst1 & Hgi1 & _ & _ & _ &
        _ & _ & _ & Hrep1).
  vm_compute in He1. subst e1. vm_compute in Hep1. injection Hep1 as <-.
  vm_compute in Ht1. subst t1. vm_compute in Hq1. injection Hq1 as <-.
  vm_compute in Hst1. injection Hst1 as <-. injection Hgi1 as ->.
  destruct (Hrep1 ltac:(vm_compute; reflexivity))
    as (rf1 & ag1 & fag1 & Hrf1 & Hag1 & Hfag1 & Hgf1). clear Hrep1.
  change (Some ex_reward = Some rf1) in Hrf1. injection Hrf1 as <-.
  vm_compute in Hag1. injection Hag1 as <-.
  vm_compute in Hfag1. injection Hfag1 as <-.
  vm_compute in Hgf1. rewrite Hgf1 in Hc. clear Hgf1.
  destruct (Hat 2 e2 t2 eq_refl)
    as (ep2 & gst2 & gf2 & q2 & He2 & Hep2 & Ht2 & _ & Hq2 & _ & _ & Hst2 & Hgi2 & _ & _ & _ &
        _ & _ & _ & Hrep2).
  vm_compute in He2. subst e2. vm_compute in Hep2. injection Hep2 as <-.
  vm_compute in Ht2. subst t2. vm_compute in Hq2. injection Hq2 as <-.
  vm_compute in Hst2. injection Hst2 as <-. injection Hgi2 as ->.
  destruct (Hrep2 ltac:(vm_compute; reflexivity))
    as (rf2 & ag2 & fag2 & Hrf2 & Hag2 & Hfag2 & Hgf2). clear Hrep2.
  change (Some ex_reward = Some rf2) in Hrf2. injection Hrf2 as <-.
  vm_compute in Hag2. injection Hag2 as <-.
  vm_compute in Hfag2. injection Hfag2 as <-.
  vm_compute in Hgf2. rewrite Hgf2 in Hc. clear Hgf2 Hat.
  vm_compute in Hc. injection Hc as <-. exact Hg.
Defined.

(** C3: in a batch the hindsight sampler returns, sample [i] is drawn at
    the episode [e = raw i mod len(ac)] and the time step
    [t = raw (i + batch_size) mod len(ac[e])], a step of a stored episode;
    its final goal [g_final] is what the relabelling of the goal
    [g[e][t]] gathered for it gives on the sample's own words of the
    generator, and its reward is
    [reward_func(ag[e][t + 1], g_final, None)]; the columns ["g"] and
    ["r"] are the stacks of these goals and rewards, so no stored reward
    enters ["r"].  When [future_p <= 0] every sample ends with the goal
    gathered for it, and a sampler whose replay strategy is not
    ["future"] has [future_p = 0]. *)
Theorem her_reward_recomputed (h : HERSampler) (eb : loc) (n : Z) (w w' : world)
    (b : batch_t) :
  sample_her_transitions h eb n w = (Ok b, w') →
  let it := buffer_at w eb in
  let m := Z.to_nat n in
  let qs := her_offsets h (rng_src w) (2 * m + rng_pos w) m in
  (∃ pairs gs rs acs c_g c_r,
     dict_get it "ac" = Some acs ∧
     buffer_at w' eb = it ∧
     length pairs = m ∧
     length gs = m ∧
     length rs = m ∧
     stack_column gs = Ok c_g ∧ dict_get b "g" = Some c_g ∧
     stack_column rs = Ok c_r ∧ dict_get b "r" = Some c_r ∧
     (∀ i e t, pairs !! i = Some (e, t) →
        ∃ ep q g_stored g_final rf ag_next,
          e = (raw w i mod len acs)%Z ∧
          acs !! Z.to_nat e = Some ep ∧
          t = (raw w (i + m) mod len ep)%Z ∧
          (0 ≤ t < len ep)%Z ∧
          qs !! i = Some q ∧
          step_at it "g" e t = Some g_stored ∧
          her_goal h it e t (uniform_of (rng_src w q)) (rng_src w (S q)) g_stored
            = Some g_final ∧
          gs !! i = Some g_final ∧
          reward_func h = Some rf ∧
          step_at it "ag" e (t + 1) = Some ag_next ∧
          rs !! i = Some (scalar (rf ag_next g_final))) ∧
     ((future_p h <= 0)%Q →
      ∀ i e t, pairs !! i = Some (e, t) →
        ∃ g_stored, step_at it "g" e t = Some g_stored ∧ gs !! i = Some g_stored)) ∧
  (∀ strategy replace_future rf,
     strategy ≠ "future" →
     future_p (HERSampler_init strategy replace_future rf) = 0%Q).
Proof.
  intros Hrun it m qs. split.
  - destruct (her_sample_inv _ _ _ _ _ _ Hrun)
      as (pairs & tr & gs & rs & acs & c_g & c_r & Hac & Hheap & Hd & Hlen & Hvalid & Hlg &
          Hlr & Hc_g & Hb_g & Hc_r & Hb_r & _ & Hat).
    fold it in Hac, Hd, Hat.
    exists pairs, gs, rs, acs, c_g, c_r. split_and!; try done.
    + unfold it, buffer_at. by rewrite Hheap.
    + by rewrite Hlg.
    + by rewrite Hlr.
    + intros i e t Hi.
      destruct (Hat i e t Hi)
        as (g_stored & q & g_fin & rf & ag_next & Hq & Hstored & Hgoal & Hgi & Hrf &
            Hnext & Hri).
      pose proof (proj1 (Forall_lookup _ _) Hvalid i (e, t) Hi) as (ep & He & Hep & Ht).
      simpl in He, Hep, Ht.
      destruct (drawn_lookup _ _ _ _ _ _ _ _ _ _ Hd Hac Hi) as (He' & ep' & Hep' & Ht').
      rewrite py_index_Some in Hep' by done.
      change episode with (list value) in *.
      rewrite Hep in Hep'. injection Hep' as <-.
      exists ep, q, g_stored, g_fin, rf, ag_next. fold m in Hq, Ht'. fold qs in Hq.
      split_and!; try done; try lia.
      unfold raw. rewrite Ht'. by rewrite Nat.add_assoc.
    + intros Hp i e t Hi.
      destruct (Hat i e t Hi)
        as (g_stored & q & g_fin & rf & ag_next & _ & Hstored & Hgoal & Hgi & _).
      exists g_stored. split; [done |].
      unfold her_goal in Hgoal.
      rewrite Qltb_nonpos in Hgoal; [congruence | apply uniform_of_range | done].
  - intros strategy replace_future rf Hs. unfold HERSampler_init. simpl.
    apply String.eqb_neq in Hs. by rewrite Hs.
Qed.

Lemma her_reward_recomputed_witness :
  ∃ b, (sample_her_transitions ex_her_quarter (_buffer (self ex_mixed_world)) 3
          ex_mixed_world).1 = Ok b ∧
       dict_get b "r" = Some (SArr (Ax [Sc 0; Sc 0; Sc (-1)])).
Proof.
  destruct (sample_her_transitions ex_her_quarter (_buffer (self ex_mixed_world)) 3
              ex_mixed_world) as [[b|err] w'] eqn:E; [|vm_compute in E; discriminate].
  exists b. split; [reflexivity |].
  destruct (her_reward_recomputed _ _ _ _ _ _ E)
    as ((pairs & gs & rs & acs & c_g & c_r & Hac & _ & Hlen & _ & Hlr & _ & _ & Hc & Hr &
         Hat & _) & _).
  clear E. vm_compute in Hac. injection Hac as <-.
  vm_compute in Hlen. vm_compute in Hlr.
  destruct pairs as [|[e0 t0] [|[e1 t1] [|[e2 t2] [|]]]]; try discriminate Hlen.
  destruct rs as [|r0 [|r1 [|r2 [|]]]]; try discriminate Hlr.
  destruct (Hat 0 e0 t0 eq_refl)
    as (ep0 & q0 & gst0 & gf0 & rf0 & an0 & He0 & Hep0 & Ht0 & _ & Hq0 & Hst0 & Hgoal0 & _ &
        Hrf0 & Han0 & Hri0).
  vm_compute in He0. subst e0. vm_compute in Hep0. injection Hep0 as <-.
  vm_compute in Ht0. subst t0. vm_compute in Hq0. injection Hq0 as <-.
  vm_compute in Hst0. injection Hst0 as <-.
  vm_compute in Hgoal0. injection Hgoal0 as <-.
  change (Some ex_reward = Some rf0) in Hrf0. injection Hrf0 as <-.
  vm_compute in Han0. injection Han0 as <-.
  vm_compute in Hri0. injection Hri0 as ->.
  destruct (Hat 1 e1 t1 eq_refl)
    as (ep1 & q1 & gst1 & gf1 & rf1 & an1 & He1 & Hep1 & Ht1 & _ & Hq1 & Hst1 & Hgoal1 & _ &
        Hrf1 & Han1 & Hri1).
  vm_compute in He1. subst e1. vm_compute in Hep1. injection Hep1 as <-.
  vm_compute in Ht1. subst t1. vm_compute in Hq1. injection Hq1 as <-.
  vm_compute in Hst1. injection Hst1 as <-.
  vm_compute in Hgoal1. injection Hgoal1 as <-.
  change (Some ex_reward = Some rf1) in Hrf1. injection Hrf1 as <-.
  vm_compute in Han1. injection Han1 as <-.
  vm_compute in Hri1. injection Hri1 as ->.
  destruct (Hat 2 e2 t2 eq_refl)
    as (ep2 & q2 & gst2 & gf2 & rf2 & an2 & He2 & Hep2 & Ht2 & _ & Hq2 & Hst2 & Hgoal2 & _ &
        Hrf2 & Han2 & Hri2).
  vm_compute in He2. subst e2. vm_compute in Hep2. injection Hep2 as <-.
  vm_compute in Ht2. subst t2. vm_compute in Hq2. injection Hq2 as <-.
  vm_compute in Hst2. injection Hst2 as <-.
  vm_compute in Hgoal2. injection Hgoal2 as <-.
  change (Some ex_reward = Some rf2) in Hrf2. injection Hrf2 as <-.
  vm_compute in Han2. injection Han2 as <-.
  vm_compute in Hri2. injection Hri2 as ->.
  clear Hat. vm_compute in Hc. injection Hc as <-. exact Hr.
Defined.

(** ** Uniform sampling from a well-formed store *)

Lemma episodes_ok_lookup acs extra slots e ep :
  episodes_ok acs extra slots = true → acs !! e = Some ep →
  ∃ ep', slots !! e = Some ep' ∧ length ep + extra ≤ length ep'.
Proof.
  unfold episodes_ok. intros [Hlen Hall]%andb_true_iff Hep.
  apply Nat.leb_le in Hlen.
  destruct (lookup_lt_is_Some_2 slots e) as [ep' Hep'].
  { apply lookup_lt_Some in Hep. change episode with (list value) in *. lia. }
  exists ep'. split; [done |].
  apply Is_true_true_2, forallb_True in Hall.
  assert (Hz : zip acs slots !! e = Some (ep, ep')).
  { unfold zip. apply lookup_zip_with_Some. eauto. }
  pose proof (proj1 (Forall_lookup _ _) Hall e _ Hz) as Hp. simpl in Hp.
  apply Is_true_true_1, Nat.leb_le in Hp. done.
Qed.

Lemma column_homogeneous_sig slots :
  column_homogeneous slots = true →
  ∃ σ, Forall (λ v, sig_of v = Some σ) (mjoin slots).
Proof.
  unfold column_homogeneous. destruct (mjoin slots) as [|v0 vs] eqn:E.
  - intros _. exists (SigArr []). constructor.
  - destruct (sig_of v0) as [σ|]; [|done]. intros Hall. exists σ.
    apply Is_true_true_2, forallb_True in Hall.
    eapply Forall_impl; [exact Hall |]. intros v Hv. simpl in Hv.
    by apply bool_decide_unpack in Hv.
Qed.

Lemma store_wfb_inv it :
  store_wfb it = true →
  ∃ acs obs,
    dict_get it "ac" = Some acs ∧
    dict_get it "ob" = Some obs ∧
    acs ≠ [] ∧
    Forall (λ ep, ep ≠ []) acs ∧
    episodes_ok acs 1 obs = true ∧
    ∀ key slots, dict_get it key = Some slots →
      episodes_ok acs 0 slots = true ∧
      ∃ σ, Forall (λ v, sig_of v = Some σ) (mjoin slots).
Proof.
  unfold store_wfb. destruct (dict_get it "ac") as [acs|]; [|done].
  destruct (dict_get it "ob") as [obs|]; [|done].
  intros [[[Hne Hsteps]%andb_true_iff Hob]%andb_true_iff Hall]%andb_true_iff.
  exists acs, obs. split_and!; try done.
  - by destruct acs.
  - apply Is_true_true_2, forallb_True in Hsteps.
    eapply Forall_impl; [exact Hsteps |]. intros ep Hep. by destruct ep.
  - intros key slots Hkey. apply dict_get_elem in Hkey.
    apply Is_true_true_2, forallb_True in Hall.
    pose proof (proj1 (Forall_forall _ _) Hall _ Hkey) as Hkv. simpl in Hkv.
    apply Is_true_true_1, andb_true_iff in Hkv as [Hok Hhom].
    split; [done |]. by apply column_homogeneous_sig.
Qed.

Lemma py_index_elem {A} (l : list A) i x : py_index l i = Some x → x ∈ l.
Proof.
  unfold py_index. destruct (0 <=? i)%Z.
  - apply list_elem_of_lookup_2.
  - destruct (0 <=? len l + i)%Z; [apply list_elem_of_lookup_2 | done].
Qed.

Lemma step_at_elem it key e t v :
  step_at it key e t = Some v →
  ∃ slots, dict_get it key = Some slots ∧ v ∈ mjoin slots.
Proof.
  unfold step_at. destruct (dict_get it key) as [slots|]; [|done]. simpl.
  change episode with (list value) in *.
  destruct (py_index slots e) as [ep|] eqn:He; [|done]. simpl. intros Ht.
  exists slots. split; [done |]. apply list_elem_of_join. exists ep.
  split; [by eapply py_index_elem | by eapply py_index_elem].
Qed.

Lemma fold_res_set_prov {X C} (body : dict C → X → res (dict C))
    (kf : X → string) (g : X → res C) (l : list X) (acc b : dict C) :
  (∀ acc x, body acc x = (c ← g x; Ok (dict_set acc (kf x) c))) →
  fold_res body l acc = Ok b →
  ∀ k a, dict_get b k = Some a →
    dict_get acc k = Some a ∨ ∃ x, x ∈ l ∧ kf x = k ∧ g x = Ok a.
Proof.
  intros Hbody. revert acc. induction l as [|x l IH]; intros acc Hfold k a Hk; simpl in *.
  - injection Hfold as <-. by left.
  - rewrite Hbody in Hfold. destruct (g x) as [c|e] eqn:Hg; simpl in Hfold; [|done].
    destruct (IH _ Hfold k a Hk) as [Hacc|(x' & Hx' & Hkf & Hgx')].
    + rewrite dict_get_set in Hacc. destruct (String.eqb (kf x) k) eqn:E.
      * apply String.eqb_eq in E. injection Hacc as <-. right. exists x.
        split_and!; [left | done | done].
      * by left.
    + right. exists x'. split_and!; [by right | done | done].
Qed.

Lemma mapM_res_ok {A B} (f : A → res B) (P : B → Prop) (l : list A) :
  (∀ x, x ∈ l → ∃ y, f x = Ok y ∧ P y) →
  ∃ ys, mapM f l = Ok ys ∧ Forall P ys ∧ length ys = length l.
Proof.
  induction l as [|x l IH]; intros Hl.
  - exists []. by split_and!.
  - destruct (Hl x) as (y & Hy & HPy); [left |].
    destruct IH as (ys & Hys & HP & Hlen); [intros x' Hx'; apply Hl; by right |].
    exists (y :: ys). cbn. rewrite Hy. cbn. rewrite Hys. cbn.
    split_and!; [done | by constructor | by rewrite Hlen].
Qed.

Lemma mapM_as_array_ok (col : list value) (s : list nat) :
  Forall (λ v, ∃ a, as_array v = Some a ∧ shape a = s) col →
  ∃ rows, mapM as_array col = Some rows ∧
          length rows = length col ∧ Forall (λ a, shape a = s) rows.
Proof.
  induction 1 as [|v col (a & Ha & Hs) _ (rows & Hrows & Hlen & Hall)].
  - exists []. by split_and!.
  - exists (a :: rows). cbn. rewrite Ha. cbn. rewrite Hrows. cbn.
    split_and!; [done | by rewrite Hlen | by constructor].
Qed.

Lemma np_stack_values_ok (col : list value) (s : list nat) :
  col ≠ [] →
  Forall (λ v, ∃ a, as_array v = Some a ∧ shape a = s) col →
  ∃ rows, np_stack_values col = Ok (Ax rows) ∧ length rows = length col.
Proof.
  intros Hne Hcol.
  destruct (mapM_as_array_ok col s Hcol) as (rows & Hrows & Hlen & Hall).
  exists rows. split; [|done]. unfold np_stack_values. rewrite Hrows. cbn.
  destruct rows as [|a rows]; [by destruct col |]. cbn.
  apply Forall_cons in Hall as [Ha Hall].
  assert (Hsame : forallb (λ b, bool_decide (shape b = shape a)) rows = true).
  { apply Is_true_true_1, forallb_True. eapply Forall_impl; [exact Hall |].
    intros b Hb. simpl. apply bool_decide_pack. congruence. }
  by rewrite Hsame.
Qed.

Lemma sig_of_arr v s :
  sig_of v = Some (SigArr s) →
  (∀ d, v ≠ VDict d) ∧ ∃ a, as_array v = Some a ∧ shape a = s.
Proof.
  destruct v as [a|d|l]; unfold sig_of.
  - intros [= <-]. split; [done | eauto].
  - destruct (mapM _ (dict_keys d)); done.
  - destruct (as_array (VList l)) as [a|] eqn:E; [|done]. intros [= <-].
    split; [done | eauto].
Qed.

Lemma sig_of_dict v fields :
  sig_of v = Some (SigDict fields) →
  ∃ d, v = VDict d ∧ dict_keys d = fields.*1 ∧
       Forall (λ ks, ∃ x a, dict_get d ks.1 = Some x ∧ as_array x = Some a ∧
                            shape a = ks.2) fields.
Proof.
  destruct v as [a|d|l]; unfold sig_of.
  - done.
  - destruct (mapM _ (dict_keys d)) as [fs|] eqn:E; [|done]. intros [= <-].
    exists d. split; [done |]. apply mapM_Some in E.
    induction E as [|k y ks fs Hk _ [IH1 IH2]]; [by split |].
    destruct (dict_get d k) as [x|] eqn:Hx; [|done]. simpl in Hk.
    destruct (as_array x) as [a|] eqn:Ha; [|done]. injection Hk as <-.
    split.
    + simpl. by f_equal.
    + constructor; [|done]. exists x, a. done.
  - destruct (as_array (VList l)); done.
Qed.

(** A non-empty column of one signature stacks, one row per entry. *)
Lemma stack_column_ok (col : list value) (σ : signature) :
  col ≠ [] →
  Forall (λ v, sig_of v = Some σ) col →
  ∃ c, stack_column col = Ok c ∧ batch_rows (length col) c.
Proof.
  intros Hne Hsig. destruct col as [|v0 col']; [done |].
  set (col := v0 :: col') in *.
  unfold stack_column. change (py_index col 0) with (Some v0). cbn [of_opt mbind res_bind].
  destruct σ as [s|fields].
  - assert (Harr : Forall (λ v, ∃ a, as_array v = Some a ∧ shape a = s) col).
    { eapply Forall_impl; [exact Hsig |]. intros v Hv. by apply sig_of_arr in Hv as [_ ?]. }
    destruct (np_stack_values_ok col s Hne Harr) as (rows & Hrows & Hlen).
    exists (SArr (Ax rows)). split; [|by simpl; rewrite Hlen].
    apply Forall_cons in Hsig as [Hv0 _]. apply sig_of_arr in Hv0 as [Hnd _].
    destruct v0 as [a0|d0|l0]; [| by destruct (Hnd d0) |]; rewrite Hrows; done.
  - pose proof Hsig as Hsig0. apply Forall_cons in Hsig0 as [Hv0 _].
    apply sig_of_dict in Hv0 as (d0 & -> & Hkeys0 & _).
    set (g := λ sub_key : string,
           col0 ← mapM (λ v_, subscript v_ sub_key) col; np_stack_values col0).
    set (body := λ (acc : dict nd) (sub_key : string),
           col0 ← mapM (λ v_, subscript v_ sub_key) col;
           a ← np_stack_values col0; Ok (dict_set acc sub_key a)).
    assert (Hbody : ∀ acc x, body acc x = (c ← g x; Ok (dict_set acc (id x) c))).
    { intros acc x. unfold body, g.
      destruct (mapM (λ v_ : value, subscript v_ x) col); cbn; [|done].
      by destruct (np_stack_values _). }
    assert (Hg : ∀ k, k ∈ dict_keys d0 →
              ∃ rows, g k = Ok (Ax rows) ∧ length rows = length col).
    { intros k Hk. rewrite Hkeys0 in Hk.
      apply list_elem_of_fmap in Hk as ([k' s] & -> & Hks). simpl.
      destruct (mapM_res_ok (λ v_, subscript v_ k')
                  (λ x, ∃ a, as_array x = Some a ∧ shape a = s) col)
        as (xs & Hxs & Hall & Hlen).
      { intros v Hv. pose proof (proj1 (Forall_forall _ _) Hsig v Hv) as Hsv.
        apply sig_of_dict in Hsv as (d & -> & _ & Hfields).
        pose proof (proj1 (Forall_forall _ _) Hfields _ Hks) as (x & a & Hx & Ha & Hs).
        simpl in *. exists x. rewrite Hx. split; [done | eauto]. }
      destruct (np_stack_values_ok xs s) as (rows & Hrows & Hlen'); [| done |].
      { intros ->. simpl in Hlen. done. }
      exists rows. unfold g. rewrite Hxs. cbn. split; [done |].
      rewrite Hlen'. exact Hlen. }
    destruct (fold_res_set_ok body id g (dict_keys d0) [] Hbody) as [cols Hcols].
    { intros k Hk. destruct (Hg k Hk) as (rows & Hrows & _). eauto. }
    exists (SDict cols). fold body. rewrite Hcols. cbn. split; [done |].
    intros k a Hka.
    destruct (fold_res_set_prov body id g _ _ _ Hbody Hcols k a Hka)
      as [?|(x & Hx & <- & Hgx)]; [done |].
    destruct (Hg x Hx) as (rows & Hrows & Hlen). rewrite Hrows in Hgx.
    injection Hgx as <-. simpl. by rewrite Hlen.
Qed.

Lemma dict_elem_get {V} (d : dict V) k v :
  NoDup (dict_keys d) → (k, v) ∈ d → dict_get d k = Some v.
Proof.
  unfold dict_keys. induction d as [|[k0 v0] d IH]; simpl; intros Hnd Hin.
  - by apply elem_of_nil in Hin.
  - apply NoDup_cons in Hnd as [Hk0 Hnd].
    apply elem_of_cons in Hin as [[= -> ->]|Hin].
    + by rewrite String.eqb_refl.
    + destruct (String.eqb k0 k) eqn:E; [|by apply IH].
      apply String.eqb_eq in E. subst. exfalso. apply Hk0.
      apply list_elem_of_fmap. by exists (k, v).
Qed.

Lemma step_at_ok it key acs slots extra e t d :
  dict_get it key = Some slots →
  episodes_ok acs extra slots = true →
  valid_draw acs (e, t) →
  (0 ≤ d ≤ Z.of_nat extra)%Z →
  is_Some (step_at it key e (t + d)).
Proof.
  intros Hkey Hok (ep & He & Hep & Ht) Hd. simpl in *.
  destruct (episodes_ok_lookup _ _ _ _ _ Hok Hep) as (ep' & Hep' & Hlen).
  unfold step_at. rewrite Hkey. simpl.
  change episode with (list value) in *.
  rewrite py_index_Some, Hep' by done. simpl.
  rewrite py_index_Some by lia. apply lookup_lt_is_Some_2.
  unfold len in Ht. lia.
Qed.

Lemma t_draws_ok acs src p es :
  Forall (λ ep, ep ≠ []) acs →
  Forall (λ e, 0 ≤ e < len acs)%Z es →
  is_Some (t_draws acs src p es).
Proof.
  intros Hsteps Hes. revert p. induction Hes as [|e es He _ IH]; intros p; simpl.
  - by eexists.
  - destruct (lookup_lt_is_Some_2 acs (Z.to_nat e)) as [ep Hep].
    { unfold len in He. lia. }
    unfold t_draw. rewrite py_index_Some by lia.
    change episode with (list value) in *. rewrite Hep. simpl.
    assert (ep ≠ []) as Hne.
    { eapply (proj1 (Forall_forall _ _) Hsteps). by eapply list_elem_of_lookup_2. }
    destruct (Z.leb_spec (len ep) 0) as [Hle|_].
    { destruct ep; [done |]. unfold len in Hle. simpl in Hle. lia. }
    simpl. destruct (IH (S p)) as [ts ->]. by eexists.
Qed.

Lemma gather_cols_ok it pairs ks acc :
  (∀ key, key ∈ ks → is_Some (mapM (λ et, step_at it key et.1 et.2) pairs)) →
  is_Some (gather_cols it pairs ks acc).
Proof.
  revert acc. induction ks as [|k ks IH]; intros acc Hks; simpl.
  - by eexists.
  - destruct (Hks k) as [col ->]; [left |]. simpl. apply IH.
    intros key Hkey. apply Hks. by right.
Qed.

Lemma valid_draws_zip acs es ts :
  Forall (λ e, 0 ≤ e < len acs)%Z es →
  Forall2 (λ e t, ∃ ep, py_index acs e = Some ep ∧ (0 ≤ t < len ep)%Z) es ts →
  Forall (valid_draw acs) (zip es ts).
Proof.
  intros Hes Hts. induction Hts as [|e t es ts (ep & Hep & Ht) _ IH]; simpl.
  - constructor.
  - apply Forall_cons in Hes as [He Hes]. constructor; [|by apply IH].
    exists ep. simpl. rewrite py_index_Some in Hep by lia.
    split_and!; [lia | done | lia | lia].
Qed.

(** On a well-formed store every stage of the gathering succeeds. *)
Lemma drawn_ok it src p n :
  store_wfb it = true → (1 ≤ n)%Z → is_Some (drawn it src p n).
Proof.
  intros Hwf Hn.
  destruct (store_wfb_inv it Hwf) as (acs & obs & Hac & Hob & Hne & Hsteps & Hobs & Hkeys).
  unfold drawn. rewrite Hac. simpl.
  destruct (e_draws (len acs) src p n) as [es|] eqn:Hes.
  2: { unfold e_draws in Hes. destruct (Z.ltb_spec n 0); [lia |].
       destruct (Z.eqb_spec n 0); [lia |].
       destruct (Z.leb_spec (len acs) 0) as [Hle|]; [|done].
       destruct acs; [done |]. unfold len in Hle. simpl in Hle. lia. }
  simpl. pose proof (e_draws_inv _ _ _ _ _ Hes) as [Hlen Hrange].
  destruct (t_draws_ok acs src (length es + p) es Hsteps Hrange) as [ts Hts].
  rewrite Hts. simpl.
  pose proof (valid_draws_zip _ _ _ Hrange (t_draws_inv _ _ _ _ _ Hts)) as Hvalid.
  destruct (gather_cols_ok it (zip es ts) (dict_keys it) []) as [tr ->].
  { intros key Hkey. apply mapM_is_Some.
    destruct (dict_get it key) as [slots|] eqn:Hslots;
      [|by apply dict_get_None in Hslots].
    destruct (Hkeys key slots Hslots) as [Hok _].
    eapply Forall_impl; [exact Hvalid |]. intros [e t] Hv. simpl.
    rewrite <- (Z.add_0_r t). by eapply step_at_ok. }
  simpl.
  destruct (mapM (λ et, step_at it "ob" et.1 (et.2 + 1)%Z) (zip es ts))
    as [ob_next|] eqn:Hnext; [by eexists |].
  exfalso. apply eq_None_not_Some in Hnext. apply Hnext, mapM_is_Some.
  eapply Forall_impl; [exact Hvalid |]. intros [e t] Hv. simpl.
  by eapply step_at_ok.
Qed.

Lemma mapM_column {A B} (f : A → option B) (P : B → Prop) l col :
  mapM f l = Some col → (∀ x v, x ∈ l → f x = Some v → P v) →
  length col = length l ∧ Forall P col.
Proof.
  intros Hcol%mapM_Some HP. induction Hcol as [|x v l col Hx _ IH].
  - by split.
  - destruct IH as [Hlen Hall]; [intros x' v' Hx'; apply HP; by right |].
    split; [simpl; by rewrite Hlen |]. constructor; [|done].
    eapply HP; [left | done].
Qed.

(** On a well-formed store the sampler returns the batch of the draws
    that the raw words determine. *)
Lemma RandomSampler_func_drawn eb n w :
  store_wfb (buffer_at w eb) = true → (1 ≤ n)%Z →
  ∃ b pairs tr,
    RandomSampler_func eb n w = (Ok b, advance (2 * Z.to_nat n) w) ∧
    drawn (buffer_at w eb) (rng_src w) (rng_pos w) n = Some (pairs, tr) ∧
    length pairs = Z.to_nat n ∧
    batch_of (buffer_at w eb) pairs b.
Proof.
  intros Hwf Hn. set (it := buffer_at w eb) in *.
  destruct (store_wfb_inv it Hwf) as (acs & obs & Hac & Hob & Hne & Hsteps & Hobs & Hkeys).
  destruct (drawn_ok it (rng_src w) (rng_pos w) n Hwf Hn) as [[pairs tr] Hd].
  pose proof (draw_and_gather_sim eb n w acs Hac) as Hsim. fold it in Hsim.
  destruct (draw_and_gather eb n w) as [[x|err] w1] eqn:Hpre;
    rewrite Hd in Hsim; [|done].
  destruct Hsim as [[= <-] ->]. simpl.
  destruct (drawn_inv _ _ _ _ _ _ Hd)
    as (acs' & Hac' & Hlen & Hvalid & Hnd & Hcols & (nxt & Hnxt & Htr_nxt)).
  assert (Hstack : ∀ key slots col f,
            dict_get it key = Some slots →
            mapM (λ et : Z * Z, step_at it key et.1 (f et.2)) pairs = Some col →
            ∃ c, stack_column col = Ok c ∧ batch_rows (length pairs) c).
  { intros key slots col f Hslots Hcol.
    destruct (Hkeys key slots Hslots) as [_ [σ Hσ]].
    destruct (mapM_column _ (λ v, sig_of v = Some σ) _ _ Hcol) as [Hl Hall].
    { intros et v _ Hv. apply step_at_elem in Hv as (slots' & Hs' & Hin).
      rewrite Hslots in Hs'. injection Hs' as <-.
      by apply (proj1 (Forall_forall _ _) Hσ). }
    rewrite <- Hl. apply (stack_column_ok col σ); [|done].
    intros ->. simpl in Hl. lia. }
  assert (Hall : ∀ key col, dict_get tr key = Some col →
            ∃ c, stack_column col = Ok c ∧ batch_rows (length pairs) c).
  { intros key col Hcol. destruct (decide (key = "ob_next")) as [->|Hkey].
    - rewrite Htr_nxt in Hcol. injection Hcol as <-.
      by apply (Hstack "ob" obs nxt (λ t, (t + 1)%Z)).
    - specialize (Hcols key Hkey).
      destruct (dict_get it key) as [slots|] eqn:Hslots; [|congruence].
      destruct Hcols as (col' & Hcol' & Hget). rewrite Hget in Hcol.
      injection Hcol as <-. by apply (Hstack key slots col' (λ t, t)). }
  destruct (stack_transitions_ok tr) as [b Hb].
  { intros k v Hkv. destruct (Hall k v) as (c & Hc & _); [|by eexists].
    by apply dict_elem_get. }
  pose proof (stack_transitions_inv tr b Hnd Hb) as Hinv.
  exists b, pairs, tr. split_and!; [| done | done | split].
  - rewrite RandomSampler_func_prefix, (bind_Ok _ _ _ _ _ Hpre).
    unfold lift_res. simpl. by rewrite Hb, Hlen.
  - intros key Hkey. specialize (Hcols key Hkey). specialize (Hinv key).
    destruct (dict_get it key) as [slots|] eqn:Hslots.
    + destruct Hcols as (col & Hcol & Hget). rewrite Hget in Hinv.
      destruct Hinv as (c & Hc & Hbk). exists col, c. split_and!; try done.
      destruct (Hall key col Hget) as (c' & Hc' & Hrows). congruence.
    + by rewrite Hcols in Hinv.
  - specialize (Hinv "ob_next"). rewrite Htr_nxt in Hinv.
    destruct Hinv as (c & Hc & Hbk). exists nxt, c. split_and!; try done.
    destruct (Hall "ob_next" nxt Htr_nxt) as (c' & Hc' & Hrows). congruence.
Qed.

(** Every sequence of valid draws is produced by some raw words. *)
Lemma drawn_src_of it acs n target p pairs tr :
  dict_get it "ac" = Some acs →
  length target = Z.to_nat n →
  Forall (valid_draw acs) target →
  drawn it (src_of target p) p n = Some (pairs, tr) →
  pairs = target.
Proof.
  intros Hac Hlen Hvalid Hd.
  destruct (drawn_inv _ _ _ _ _ _ Hd) as (_ & _ & Hlen' & _).
  apply list_eq. intros i.
  destruct (pairs !! i) as [[e t]|] eqn:Hi.
  - assert (Hlt : (i < length target)%nat).
    { apply lookup_lt_Some in Hi. lia. }
    destruct (lookup_lt_is_Some_2 target i Hlt) as [[e' t'] Hti].
    rewrite Hti. f_equal.
    destruct (proj1 (Forall_lookup _ _) Hvalid i _ Hti) as (ep' & He' & Hep' & Ht').
    simpl in He', Hep', Ht'.
    destruct (drawn_lookup _ _ _ _ _ _ _ _ _ _ Hd Hac Hi) as (He & ep & Hep & Ht).
    assert (He1 : src_of target p (i + p) = e').
    { unfold src_of. destruct (Nat.ltb_spec (i + p) (p + length target)); [|lia].
      replace (i + p - p)%nat with i by lia.
      by rewrite list_lookup_fmap, Hti. }
    assert (Ht1 : src_of target p (i + (Z.to_nat n + p)) = t').
    { unfold src_of.
      destruct (Nat.ltb_spec (i + (Z.to_nat n + p)) (p + length target)); [lia |].
      replace (i + (Z.to_nat n + p) - p - length target)%nat with i by lia.
      by rewrite list_lookup_fmap, Hti. }
    rewrite He1 in He. rewrite Ht1 in Ht.
    assert (e = e') as ->.
    { rewrite He. apply Z.mod_small. apply lookup_lt_Some in Hep'.
      unfold len. change episode with (list value) in *. lia. }
    rewrite py_index_Some in Hep by done.
    change episode with (list value) in *.
    rewrite Hep' in Hep. injection Hep as <-.
    rewrite Ht. f_equal. by apply Z.mod_small.
  - apply lookup_ge_None in Hi. symmetry. apply lookup_ge_None. lia.
Qed.

(** C7, amended.  On a well-formed store (at least one episode, no
    episode without a step, entries that stack) and for a batch size of
    at least 1, [RandomSampler.sample_func] returns a batch with exactly
    [batch_size] rows under every key; draw number [i] is the episode
    [e = raw i mod len(ac)] and the time step
    [t = raw (i + batch_size) mod len(ac[e])], so [0 <= t < len(ac[e])]
    and each draw depends on its own two raw words only; the batch holds
    the stacked [store[key][e][t]] under every key and the stacked
    [ob[e][t + 1]] under [ob_next]; and every sequence of [batch_size]
    valid draws, repetitions included, is the outcome for some raw
    words. *)
Theorem RandomSampler_batch (eb : loc) (n : Z) (w : world) (acs : list episode) :
  store_wfb (buffer_at w eb) = true →
  dict_get (buffer_at w eb) "ac" = Some acs →
  (1 ≤ n)%Z →
  wp (RandomSampler_func eb n) (λ b w',
      w' = advance (2 * Z.to_nat n) w ∧
      ∃ pairs,
        length pairs = Z.to_nat n ∧
        Forall (valid_draw acs) pairs ∧
        (∀ i e t, pairs !! i = Some (e, t) →
           e = (raw w i mod len acs)%Z ∧
           ∃ ep, py_index acs e = Some ep ∧
                 t = (raw w (i + Z.to_nat n) mod len ep)%Z) ∧
        batch_of (buffer_at w eb) pairs b) w ∧
  ∀ target, length target = Z.to_nat n → Forall (valid_draw acs) target →
    ∃ src, wp (RandomSampler_func eb n)
             (λ b _, batch_of (buffer_at w eb) target b)
             (mkWorld (self w) (heap w) src (rng_pos w)).
Proof.
  intros Hwf Hac Hn. split.
  - destruct (RandomSampler_func_drawn eb n w Hwf Hn)
      as (b & pairs & tr & Hrun & Hd & Hlen & Hb).
    unfold wp. rewrite Hrun. split; [done |]. exists pairs.
    destruct (drawn_inv _ _ _ _ _ _ Hd) as (acs' & Hac' & _ & Hvalid & _).
    rewrite Hac in Hac'. injection Hac' as <-.
    split_and!; [done | done | | done].
    intros i e t Hi.
    destruct (drawn_lookup _ _ _ _ _ _ _ _ _ _ Hd Hac Hi) as (He & ep & Hep & Ht).
    split; [done |]. exists ep. split; [done |].
    unfold raw. by rewrite <- Nat.add_assoc.
  - intros target Hlen Hvalid.
    set (w0 := mkWorld (self w) (heap w) (src_of target (rng_pos w)) (rng_pos w)).
    exists (src_of target (rng_pos w)). fold w0.
    destruct (RandomSampler_func_drawn eb n w0 Hwf Hn)
      as (b & pairs & tr & Hrun & Hd & _ & Hb).
    change (buffer_at w0 eb) with (buffer_at w eb) in Hd, Hb.
    apply (drawn_src_of _ acs) in Hd as ->; [|done..].
    unfold wp. by rewrite Hrun.
Qed.

Lemma RandomSampler_batch_witness :
  store_wfb (buffer_of ex_full) = true ∧
  ∃ b, (RandomSampler_func (_buffer (self ex_full)) 3 ex_full).1 = Ok b ∧
       ∃ pairs, length pairs = 3%nat ∧ batch_of (buffer_of ex_full) pairs b.
Proof.
  split; [vm_compute; reflexivity |].
  destruct (RandomSampler_batch (_buffer (self ex_full)) 3 ex_full
              (default [] (dict_get (buffer_of ex_full) "ac")))
    as [Hwp _]; [vm_compute; reflexivity | vm_compute; reflexivity | lia |].
  unfold wp in Hwp.
  destruct (RandomSampler_func (_buffer (self ex_full)) 3 ex_full) as [[b|err] w'];
    [|done].
  destruct Hwp as (_ & pairs & Hlen & _ & _ & Hb).
  exists b. split; [reflexivity |]. exists pairs. split; [exact Hlen | exact Hb].
Defined.

(** C7 as stated fails for a batch size of 0: on a store that holds two
    episodes the sampler draws nothing, and stacking the empty columns
    raises [IndexError] at [v[0]]. *)
Lemma sample_func_zero_batch_raises :
  store_wfb (buffer_of ex_full) = true ∧
  (RandomSampler_func (_buffer (self ex_full)) 0 ex_full).1 = Raise IndexError ∧
  ¬ (∃ b, (RandomSampler_func (_buffer (self ex_full)) 0 ex_full).1 = Ok b).
Proof.
  split_and!; [by vm_compute | by vm_compute |].
  intros [b Hb]. vm_compute in Hb. discriminate.
Qed.

(** ** What [store_episode] leaves as it is *)

Lemma frame_bind {A B} l (m : M A) (f : A → M B) w :
  frame l w (m w).2 →
  (∀ a w1, m w = (Ok a, w1) → frame l w1 (f a w1).2) →
  frame l w (bind m f w).2.
Proof.
  unfold bind. destruct (m w) as [[a|e] w1]; simpl; intros H1 H2; [|done].
  eapply frame_trans; [exact H1 | by apply H2].
Qed.

Lemma getitem_frame l k w : frame l w (getitem l k w).2.
Proof.
  rewrite getitem_eq. destruct (dict_get _ _); [apply frame_refl |].
  destruct (default_factory (heap w !!! l)) eqn:E; [|apply frame_refl].
  split_and!; simpl; try done.
  - by rewrite lookup_total_insert_eq.
  - intros l' Hl'. by rewrite lookup_insert_ne.
Qed.

Lemma setitem_frame l k v w : frame l w (setitem l k v w).2.
Proof.
  rewrite setitem_eq. split_and!; simpl; try done.
  - by rewrite lookup_total_insert_eq.
  - intros l' Hl'. by rewrite lookup_insert_ne.
Qed.

Lemma lift_opt_world {A} (e : exn) (o : option A) w : (lift_opt e o w).2 = w.
Proof. by destruct o. Qed.

Lemma lift_opt_frame {A} l (e : exn) (o : option A) w :
  frame l w (lift_opt e o w).2.
Proof. rewrite lift_opt_world. apply frame_refl. Qed.

Lemma for_frame {A} l (body : A → M unit) (xs : list A) w :
  (∀ x w1, self w1 = self w → frame l w1 (body x w1).2) →
  frame l w (for_ xs body w).2.
Proof.
  revert w. induction xs as [|x xs IH]; intros w Hbody; simpl.
  - apply frame_refl.
  - apply frame_bind; [by apply Hbody |].
    intros [] w1 Hrun. apply IH. intros x' w2 Hself. apply Hbody.
    pose proof (Hbody x w eq_refl) as Hf. rewrite Hrun in Hf.
    destruct Hf as [Hs _]. simpl in Hs. congruence.
Qed.

Ltac frame_steps :=
  repeat first
    [ apply frame_refl | apply getitem_frame | apply setitem_frame
    | apply lift_opt_frame
    | apply frame_bind; [|intros ? ? _] ].

(** The loops and the assertion write to the dictionary only. *)
Lemma store_new_key_frame r k w :
  frame (_buffer (self w)) w (store_new_key r k w).2.
Proof.
  unfold store_new_key.
  change (bind get_self ?f w) with (f (self w) w). cbv beta.
  destruct (_current_size (self w) <? _size (self w))%Z; frame_steps.
Qed.

Lemma store_step_key_frame r k w :
  frame (_buffer (self w)) w (store_step_key r k w).2.
Proof.
  unfold store_step_key.
  change (bind get_self ?f w) with (f (self w) w). cbv beta. frame_steps.
Qed.

Lemma check_lengths_frame w : frame (_buffer (self w)) w (check_lengths w).2.
Proof.
  unfold check_lengths.
  change (bind get_self ?f w) with (f (self w) w). cbv beta.
  apply frame_bind; [apply frame_refl |]. intros has_ac w1 _.
  destruct has_ac; [|apply frame_refl]. frame_steps.
  match goal with |- context [if ?c then _ else _] => destruct c end;
    apply frame_refl.
Qed.

(** The last statement moves the cursor or does nothing; when it raises
    it has written nothing. *)
Lemma close_if_done_effect r w :
  let w' := (close_if_done r w).2 in
  heap w' = heap w ∧ rng_src w' = rng_src w ∧ rng_pos w' = rng_pos w ∧
  (self w' = self w ∨ (close_if_done r w).1 = Ok tt ∧ self w' = closed (self w)).
Proof.
  unfold close_if_done, bind, lift_opt, lift_res.
  destruct (dict_get r "done") as [done|]; simpl; [|by split_and!; try left].
  destruct (py_index done (-1)) as [last|]; simpl; [|by split_and!; try left].
  destruct (truthy last) as [[]|]; simpl; try (by split_and!; try left).
  destruct (_size (self w) =? 0)%Z; simpl; [by split_and!; try left |].
  split_and!; try done. by right.
Qed.

(** The first two stages of [store_episode] taken together. *)
Lemma store_episode_writes r w :
  frame (_buffer (self w)) w
    ((s <- get_self ;;
      (if _new_episode s
       then for_ (_keys s) (store_new_key r)
       else for_ (_keys s) (store_step_key r)) ;;
      check_lengths) w).2.
Proof.
  change (bind get_self ?f w) with (f (self w) w). cbv beta.
  apply frame_bind.
  - destruct (_new_episode (self w)); apply for_frame; intros k w1 Hself;
      rewrite <- Hself; [apply store_new_key_frame | apply store_step_key_frame].
  - intros [] w1 Hrun.
    assert (Hself : self w1 = self w).
    { assert (Hf : frame (_buffer (self w)) w w1).
      { destruct (_new_episode (self w)).
        - pose proof (for_frame (_buffer (self w)) (store_new_key r) (_keys (self w)) w) as H.
          rewrite Hrun in H. apply H. intros k w2 Hs. rewrite <- Hs.
          apply store_new_key_frame.
        - pose proof (for_frame (_buffer (self w)) (store_step_key r) (_keys (self w)) w) as H.
          rewrite Hrun in H. apply H. intros k w2 Hs. rewrite <- Hs.
          apply store_step_key_frame. }
      by destruct Hf. }
    rewrite <- Hself. apply check_lengths_frame.
Qed.

Lemma store_episode_split r w :
  store_episode r w =
  ((s <- get_self ;;
    (if _new_episode s
     then for_ (_keys s) (store_new_key r)
     else for_ (_keys s) (store_step_key r)) ;;
    check_lengths) ;; close_if_done r) w.
Proof.
  unfold store_episode, bind, get_self. simpl.
  destruct (_new_episode (self w)).
  - destruct (for_ _ _ w) as [[[]|e] w1]; [|done]. by destruct (check_lengths w1) as [[[]|e] w2].
  - destruct (for_ _ _ w) as [[[]|e] w1]; [|done]. by destruct (check_lengths w1) as [[[]|e] w2].
Qed.

Lemma store_episode_effect r w :
  let out := store_episode r w in
  frame (_buffer (self w)) w
    (mkWorld (self w) (heap out.2) (rng_src out.2) (rng_pos out.2)) ∧
  (self out.2 = self w ∨ out.1 = Ok tt ∧ self out.2 = closed (self w)).
Proof.
  simpl. pose proof (store_episode_writes r w) as Hf.
  rewrite store_episode_split. set (stage := bind get_self _) in *.
  unfold bind. destruct (stage w) as [[[]|e] w1]; simpl in Hf |- *;
    destruct Hf as (Hs & Hsrc1 & Hpos1 & Hdef & Hother).
  - destruct (close_if_done_effect r w1) as (Hheap & Hsrc & Hpos & Hself).
    split.
    + rewrite Hheap, Hsrc, Hpos. by split_and!.
    + rewrite Hs in Hself. exact Hself.
  - split; [by split_and! | by left].
Qed.

(** [store_episode], returning or raising, writes to the dictionary of
    the buffer and to the cursor only: capacity, keys, sampler and the
    reference to the dictionary stay, no other object and no random word
    is touched, [_new_episode] stays [True], and a call that raises has
    not moved the cursor. *)
Theorem store_episode_frame (r : rollout_t) (w : world) :
  let out := store_episode r w in
  _size (self out.2) = _size (self w) ∧
  _keys (self out.2) = _keys (self w) ∧
  _sample_func (self out.2) = _sample_func (self w) ∧
  _buffer (self out.2) = _buffer (self w) ∧
  rng_src out.2 = rng_src w ∧ rng_pos out.2 = rng_pos w ∧
  (∀ l, l ≠ _buffer (self w) → heap out.2 !! l = heap w !! l) ∧
  default_factory (heap out.2 !!! _buffer (self w)) =
    default_factory (heap w !!! _buffer (self w)) ∧
  (_new_episode (self w) = true → _new_episode (self out.2) = true) ∧
  (∀ e, out.1 = Raise e → self out.2 = self w).
Proof.
  destruct (store_episode_effect r w) as [(_ & Hsrc & Hpos & Hdef & Hother) Hself].
  simpl in *.
  split_and!; try done; try (by destruct Hself as [->|[_ ->]]).
  intros e He. destruct Hself as [?|[Hok _]]; [done | congruence].
Qed.

Lemma for_world_inv {A} (P : world → Prop) (body : A → M unit) xs w :
  P w → (∀ x w1, P w1 → P (body x w1).2) → P (for_ xs body w).2.
Proof.
  intros Hw Hbody. revert w Hw. induction xs as [|x xs IH]; intros w Hw; simpl.
  - done.
  - unfold bind. pose proof (Hbody x w Hw) as H1.
    destruct (body x w) as [[[]|e] w1]; [by apply IH | done].
Qed.

(** No call ever clears [_new_episode]: after the construction and any
    calls of [store_episode], with any rollouts and whether they return
    or raise, the flag is [True], and the next call runs the loop that
    starts a new episode. *)
Theorem new_episode_always (n : Z) (ks : list string) (f : sampler)
    (rs : list rollout_t) (w0 : world) :
  let w := ((ReplayBuffer_init n ks f ;; for_ rs store_episode) w0).2 in
  _new_episode (self w) = true ∧
  ∀ r, store_episode r w =
       (for_ (_keys (self w)) (store_new_key r) ;;
        check_lengths ;; close_if_done r) w.
Proof.
  assert (Hnew : _new_episode (self ((ReplayBuffer_init n ks f ;;
                    for_ rs store_episode) w0).2) = true).
  { rewrite (bind_Ok _ _ _ _ _ (ReplayBuffer_init_eq n ks f w0)).
    apply (for_world_inv (λ w, _new_episode (self w) = true)); [done |].
    intros r w1 Hw1. destruct (store_episode_effect r w1) as [_ [->|[_ ->]]]; done. }
  cbv zeta. set (w := (_ w0).2) in *. split; [done |]. intros r.
  unfold store_episode. change (bind get_self ?g w) with (g (self w) w).
  cbv beta. by rewrite Hnew.
Qed.

(** [clear()] resets the cursor and binds a new, empty [defaultdict]; it
    does not touch the dictionary the buffer held before, which keeps
    its episodes for whoever still refers to it. *)
Theorem clear_keeps_old_dictionary (w : world) :
  is_Some (heap w !! _buffer (self w)) →
  wp clear (λ _ w',
    _idx (self w') = 0%Z ∧ _current_size (self w') = 0%Z ∧
    _new_episode (self w') = true ∧
    _buffer (self w') ≠ _buffer (self w) ∧
    buffer_of w' = [] ∧
    default_factory (heap w' !!! _buffer (self w')) = true ∧
    buffer_at w' (_buffer (self w)) = buffer_of w ∧
    (∀ l, l ≠ _buffer (self w') → heap w' !! l = heap w !! l) ∧
    _size (self w') = _size (self w) ∧ _keys (self w') = _keys (self w) ∧
    _sample_func (self w') = _sample_func (self w)) w.
Proof.
  intros Hold. unfold wp.
  change (clear w) with
    (Ok tt,
     mkWorld (mkReplayBuffer (_size (self w)) (_keys (self w)) (_sample_func (self w))
                0%Z 0%Z true (fresh (dom (heap w))))
       (<[fresh (dom (heap w)):=PyDict true []]> (heap w)) (rng_src w) (rng_pos w)).
  assert (Hfresh : fresh (dom (heap w)) ≠ _buffer (self w)).
  { intros Heq. apply (is_fresh (dom (heap w))). rewrite Heq.
    by apply elem_of_dom. }
  unfold buffer_of, buffer_at. simpl.
  split_and!; try done.
  - by rewrite lookup_total_insert_eq.
  - by rewrite lookup_total_insert_eq.
  - by rewrite lookup_total_insert_ne.
  - intros l Hl. by rewrite lookup_insert_ne.
Qed.

Lemma clear_keeps_old_dictionary_witness :
  buffer_at (clear ex_full).2 (_buffer (self ex_full)) = buffer_of ex_full ∧
  buffer_of (clear ex_full).2 = [].
Proof.
  assert (H : is_Some (heap ex_full !! _buffer (self ex_full)))
    by (vm_compute; eauto).
  pose proof (clear_keeps_old_dictionary ex_full H) as Hwp.
  unfold wp in Hwp. destruct (clear ex_full) as [[[]|e] w']; [|destruct Hwp].
  destruct Hwp as (_ & _ & _ & _ & Hnew & _ & Hold & _).
  split; [exact Hold | exact Hnew].
Defined.

(** ** Rollouts that do not close their episode *)

Lemma open_inv_step n ks rs r w :
  (1 ≤ n)%Z → NoDup ks → "ob" ∈ ks → "ac" ∈ ks →
  open_inv n ks rs w →
  Forall (λ r, contract ks r false) (rs ++ [r]) →
  ∃ w', store_episode r w = (Ok tt, w') ∧ open_inv n ks (rs ++ [r]) w'.
Proof.
  intros Hn Hnd Hob Hac (Hsize & Hkeys & Hnew & Hdef & Hcs & Hidx & Hslots) Hall.
  set (s := self w) in *.
  assert (Hr : contract ks r false).
  { apply Forall_app in Hall as [_ Hr]. by apply Forall_cons in Hr as [? _]. }
  destruct Hr as (Hr & _ & _ & done & last & Hdone & Hlast & Hflag).
  destruct (rs ++ [r]) as [|r0 rest] eqn:Hrs; [by destruct rs |].
  apply Forall_cons in Hall as [(_ & Hlen0 & _) _].
  assert (Hlt : (_current_size s <? _size s)%Z = true).
  { rewrite Hcs, Hsize. apply Z.ltb_lt. lia. }
  assert (Hnew_slots : ∀ k, k ∈ ks →
    slots_of (stored_new s r (buffer_at w (_buffer s))) k = history (r0 :: rest) k).
  { intros k Hk. rewrite stored_new_slots by (rewrite Hkeys; done).
    rewrite Hlt. change (buffer_at w (_buffer s)) with (buffer_of w).
    rewrite Hslots by done. rewrite <- Hrs. unfold history. by rewrite fmap_app. }
  destruct (store_episode_new r w done last false
    (slots_of (stored_new s r (buffer_at w (_buffer s))) "ob")
    (slots_of (stored_new s r (buffer_at w (_buffer s))) "ac")
    (rollout_get r0 "ob") (rollout_get r0 "ac"))
    as (w' & E & Hbuf & Hdef' & Hself & _); fold s; try done.
  - rewrite Hkeys. done.
  - intros Hfull. congruence.
  - apply stored_new_get. by rewrite Hkeys.
  - apply stored_new_get. by rewrite Hkeys.
  - rewrite Hnew_slots by done. by rewrite Hidx.
  - rewrite Hnew_slots by done. by rewrite Hidx.
  - rewrite Hsize. lia.
  - exists w'. split; [done |]. unfold open_inv, buffer_of. rewrite Hself.
    fold s. fold s in Hbuf, Hdef'. rewrite Hbuf. split_and!; try done.
Qed.

Lemma open_inv_steps n ks rs rs' w :
  (1 ≤ n)%Z → NoDup ks → "ob" ∈ ks → "ac" ∈ ks →
  open_inv n ks rs w →
  Forall (λ r, contract ks r false) (rs ++ rs') →
  wp (for_ rs' store_episode) (λ _ w', open_inv n ks (rs ++ rs') w') w.
Proof.
  intros Hn Hnd Hob Hac. revert rs w.
  induction rs' as [|r rs' IH]; intros rs w Hinv Hall; simpl.
  - unfold wp. simpl. by rewrite app_nil_r.
  - assert (Heq : rs ++ r :: rs' = (rs ++ [r]) ++ rs') by (by rewrite <- app_assoc).
    rewrite Heq in Hall |- *.
    destruct (open_inv_step n ks rs r w) as (w1 & E & Hinv1); try done.
    { by apply Forall_app in Hall as [? _]. }
    apply wp_bind. eapply wp_eq; [exact E |].
    by apply IH.
Qed.

(** Rollouts whose last [done] flag is false never move the cursor, so
    every one of them is appended as a slot of its own: after [rs] such
    calls every tracked key has [length rs] slots, whatever the
    capacity, and [_current_size] is still 0. *)
Theorem store_episode_open_grows (n : Z) (ks : list string) (f : sampler)
    (rs : list rollout_t) (w0 : world) :
  (1 ≤ n)%Z → NoDup ks → "ob" ∈ ks → "ac" ∈ ks →
  Forall (λ r, contract ks r false) rs →
  wp (ReplayBuffer_init n ks f ;; for_ rs store_episode)
     (λ _ w,
        _idx (self w) = 0%Z ∧ _current_size (self w) = 0%Z ∧
        ∀ k, k ∈ ks →
          slots_of (buffer_of w) k = history rs k ∧
          length (slots_of (buffer_of w) k) = length rs) w0.
Proof.
  intros Hn Hnd Hob Hac Hrs. apply wp_bind.
  eapply wp_eq; [apply ReplayBuffer_init_eq |].
  eapply wp_mono; [apply (open_inv_steps n ks [] rs); try done |].
  - unfold open_inv, buffer_of, buffer_at, slots_of. simpl.
    rewrite lookup_total_insert_eq. by split_and!.
  - intros [] w (_ & _ & _ & _ & Hcs & Hidx & Hslots). simpl in *.
    split_and!; [done | done |]. intros k Hk. rewrite Hslots by done.
    split; [done |]. unfold history. by rewrite length_fmap.
Qed.

Lemma store_episode_open_grows_witness :
  wp (ReplayBuffer_init 2 ex_keys RandomSampler_sample_func ;;
      for_ [ex_rollout 0 0; ex_rollout 10 0; ex_rollout 20 0] store_episode)
     (λ _ w, _current_size (self w) = 0%Z ∧
             length (slots_of (buffer_of w) "ob") = 3) ex_world.
Proof.
  eapply wp_mono.
  - apply (store_episode_open_grows 2 ex_keys RandomSampler_sample_func
             [ex_rollout 0 0; ex_rollout 10 0; ex_rollout 20 0] ex_world).
    + lia.
    + by apply (bool_decide_unpack (NoDup ex_keys)).
    + set_solver.
    + set_solver.
    + repeat (apply Forall_cons; split; [apply (ex_rollout_contract _ 0) |]).
      apply Forall_nil_2.
  - intros [] w (_ & Hcs & Hslots). split; [exact Hcs |].
    assert (Hob : "ob" ∈ ex_keys) by left.
    exact (proj2 (Hslots "ob" Hob)).
Defined.

(** ** Batch sizes no sampler serves *)

Lemma stack_column_nil : stack_column [] = Raise IndexError.
Proof. done. Qed.

(** What the common beginning of the samplers returns has a column
    ["ob_next"] with one entry per requested transition. *)
Lemma draw_and_gather_ob_next eb n w x w' :
  draw_and_gather eb n w = (Ok x, w') →
  NoDup (dict_keys x.2) ∧
  ∃ col, dict_get x.2 "ob_next" = Some col ∧ length col = Z.to_nat n.
Proof.
  intros Hrun. destruct x as [pairs tr].
  destruct (draw_and_gather_Ok _ _ _ _ _ Hrun) as (w1 & _ & Hd & _).
  destruct (drawn_inv _ _ _ _ _ _ Hd)
    as (acs & _ & Hlen & _ & Hnd & _ & col & Hcol & Hget).
  split; [done |]. exists col. split; [done |].
  apply length_mapM in Hcol. lia.
Qed.

Lemma RandomSampler_func_rows eb n w b w' :
  RandomSampler_func eb n w = (Ok b, w') → (1 ≤ n)%Z.
Proof.
  rewrite RandomSampler_func_prefix. intros Hrun.
  apply bind_Ok_inv in Hrun as (x & w1 & Hpre & Htail).
  unfold lift_res in Htail. injection Htail as Htail _.
  destruct (draw_and_gather_ob_next _ _ _ _ _ Hpre) as (Hnd & col & Hcol & Hlen).
  pose proof (stack_transitions_inv _ _ Hnd Htail "ob_next") as Hc.
  rewrite Hcol in Hc. destruct Hc as (c & Hc & _).
  destruct col as [|v col]; [by rewrite stack_column_nil in Hc |].
  simpl in Hlen. lia.
Qed.

Lemma LearnedRewardReplayBuffer_sample_rows _rew n w b w' :
  LearnedRewardReplayBuffer_sample _rew n w = (Ok b, w') → (1 ≤ n)%Z.
Proof.
  rewrite LearnedRewardReplayBuffer_sample_prefix. intros Hrun.
  apply bind_Ok_inv in Hrun as (x & w1 & Hpre & Htail).
  unfold lift_res in Htail. injection Htail as Htail _.
  destruct (draw_and_gather_ob_next _ _ _ _ _ Hpre) as (Hnd & col & Hcol & Hlen).
  destruct (dict_get x.2 "ob") as [ob|]; [|done]. simpl in Htail.
  rewrite Hcol in Htail. simpl in Htail.
  destruct (dict_get x.2 "env_rew") as [env_col|]; [|done]. simpl in Htail.
  destruct (np_array env_col) as [env|]; [|done]. simpl in Htail.
  destruct (np_add env (_rew ob col)) as [sum|]; [|done]. simpl in Htail.
  pose proof (stack_transitions_inv _ _ (dict_set_NoDup _ "rew" _ Hnd) Htail "ob_next")
    as Hc.
  rewrite dict_get_set_ne, Hcol in Hc by done. destruct Hc as (c & Hc & _).
  destruct col as [|v col]; [by rewrite stack_column_nil in Hc |].
  simpl in Hlen. lia.
Qed.

Lemma sample_her_transitions_rows h eb n w b w' :
  sample_her_transitions h eb n w = (Ok b, w') →
  (1 ≤ n)%Z ∧ is_Some (reward_func h).
Proof.
  intros Hrun.
  destruct (her_sample_inv _ _ _ _ _ _ Hrun)
    as (pairs & tr & gs & rs & acs & c_g & c_r & _ & _ & _ & Hlen & _ & Hgs & _ & Hc & _ & _ &
        _ & _ & Hall).
  destruct pairs as [|[e t] pairs].
  - destruct gs; [by rewrite stack_column_nil in Hc | done].
  - split; [simpl in Hlen; lia |].
    destruct (Hall 0%nat e t eq_refl) as (? & ? & ? & rf & ? & _ & _ & _ & _ & Hrf & _).
    by exists rf.
Qed.

(** No sampler returns an empty batch: with a batch size of 0 or less,
    [RandomSampler.sample_func], [HERSampler.sample_her_transitions],
    [ReplayBuffer.sample] and [LearnedRewardReplayBuffer.sample] raise,
    whatever the store holds. *)
Theorem samplers_reject_nonpositive_batch (n : Z) (w : world) :
  (n ≤ 0)%Z →
  (∀ f eb, raises (call_sampler f eb n) w) ∧
  raises (sample n) w ∧
  (∀ _rew, raises (LearnedRewardReplayBuffer_sample _rew n) w).
Proof.
  intros Hn.
  assert (Hcall : ∀ f eb, raises (call_sampler f eb n) w).
  { intros f eb. unfold raises.
    destruct (call_sampler f eb n w) as [[b|e] w'] eqn:E; [|done].
    destruct f as [|h]; simpl in E.
    - apply RandomSampler_func_rows in E. lia.
    - apply sample_her_transitions_rows in E as [? _]. lia. }
  split_and!; [done | apply Hcall |].
  intros _rew. unfold raises.
  destruct (LearnedRewardReplayBuffer_sample _rew n w) as [[b|e] w'] eqn:E; [|done].
  apply LearnedRewardReplayBuffer_sample_rows in E. lia.
Qed.

Lemma samplers_reject_nonpositive_batch_witness :
  raises (sample 0) ex_full ∧ raises (sample (-2)) ex_goal_world.
Proof.
  split.
  - destruct (samplers_reject_nonpositive_batch 0 ex_full) as (_ & H & _);
      [lia | exact H].
  - destruct (samplers_reject_nonpositive_batch (-2) ex_goal_world) as (_ & H & _);
      [lia | exact H].
Defined.

(** A [HERSampler] built without a reward function (the default
    [reward_func=None]) never returns a batch: every call of
    [sample_her_transitions] raises. *)
Theorem her_without_reward_func_raises (h : HERSampler) (eb : loc) (n : Z)
    (w : world) :
  reward_func h = None → raises (sample_her_transitions h eb n) w.
Proof.
  intros Hnone. unfold raises.
  destruct (sample_her_transitions h eb n w) as [[b|e] w'] eqn:E; [|done].
  apply sample_her_transitions_rows in E as [_ [rf Hrf]]. congruence.
Qed.

Lemma her_without_reward_func_raises_witness :
  raises (sample_her_transitions (HERSampler_init "future" 1 None)
            (_buffer (self ex_goal_world)) 3) ex_goal_world.
Proof. apply her_without_reward_func_raises. reflexivity. Defined.

(** ** What sampling leaves as it is *)

Lemma store_kept_refl w : store_kept w w.
Proof. by split_and!. Qed.

Lemma store_kept_trans w1 w2 w3 :
  store_kept w1 w2 → store_kept w2 w3 → store_kept w1 w3.
Proof.
  intros (Hs1 & Hr1 & Hp1 & Hh1) (Hs2 & Hr2 & Hp2 & Hh2).
  split_and!; [congruence | congruence | lia |].
  intros l. destruct (Hh1 l) as [Hd1 Hk1]. destruct (Hh2 l) as [Hd2 Hk2].
  split; [congruence |]. intros k v Hk. by apply Hk2, Hk1.
Qed.

Lemma keeps_ret {A} (a : A) : keeps (ret a).
Proof. intros w. apply store_kept_refl. Qed.

Lemma keeps_raise {A} (e : exn) : keeps (raise (A:=A) e).
Proof. intros w. apply store_kept_refl. Qed.

Lemma keeps_lift_res {A} (r : res A) : keeps (lift_res r).
Proof. intros w. apply store_kept_refl. Qed.

Lemma keeps_lift_opt {A} (e : exn) (o : option A) : keeps (lift_opt e o).
Proof. apply keeps_lift_res. Qed.

Lemma keeps_bind {A B} (m : M A) (f : A → M B) :
  keeps m → (∀ a, keeps (f a)) → keeps (bind m f).
Proof.
  intros Hm Hf w. unfold bind. specialize (Hm w).
  destruct (m w) as [[a|e] w1]; [|done].
  eapply store_kept_trans; [exact Hm | apply Hf].
Qed.

Lemma keeps_map_M {A B} (f : A → M B) (l : list A) :
  (∀ x, keeps (f x)) → keeps (map_M f l).
Proof.
  intros Hf. induction l as [|x l IH]; simpl; [apply keeps_ret |].
  apply keeps_bind; [done |]. intros y.
  apply keeps_bind; [done |]. intros ys. apply keeps_ret.
Qed.

Lemma keeps_foldM {A S} (body : S → A → M S) (l : list A) (st : S) :
  (∀ st x, keeps (body st x)) → keeps (foldM body l st).
Proof.
  intros Hf. revert st. induction l as [|x l IH]; intros st; simpl;
    [apply keeps_ret |].
  apply keeps_bind; [done |]. intros st'. apply IH.
Qed.

Lemma keeps_for_enumerate {A S} (body : Z → A → S → M S) (l : list A) i (st : S) :
  (∀ i x st, keeps (body i x st)) → keeps (for_enumerate body l i st).
Proof.
  intros Hf. revert i st. induction l as [|x l IH]; intros i st; simpl;
    [apply keeps_ret |].
  apply keeps_bind; [done |]. intros st'. apply IH.
Qed.

(** Reading a missing key of a [defaultdict] adds the key, with an empty
    list; nothing that was there changes. *)
Lemma keeps_getitem l k : keeps (getitem l k).
Proof.
  intros w. rewrite getitem_eq.
  destruct (dict_get (buffer_at w l) k) as [v|] eqn:Hk; [apply store_kept_refl |].
  destruct (default_factory (heap w !!! l)) eqn:Hdef; [|apply store_kept_refl].
  split_and!; simpl; try done. intros l'. unfold buffer_at. simpl.
  destruct (decide (l' = l)) as [->|Hne].
  - rewrite lookup_total_insert_eq. simpl. split; [done |].
    intros k' v Hk'. rewrite dict_get_set_ne; [done |].
    intros ->. unfold buffer_at in Hk. congruence.
  - by rewrite lookup_total_insert_ne.
Qed.

Lemma keeps_keys l : keeps (keys l).
Proof. intros w. apply store_kept_refl. Qed.

Lemma keeps_randint low high : keeps (randint low high).
Proof.
  intros w. rewrite randint_eq. destruct (high <=? low)%Z;
    [apply store_kept_refl |].
  split_and!; simpl; try done. lia.
Qed.

Lemma keeps_randint_n low high n : keeps (randint_n low high n).
Proof.
  unfold randint_n. destruct (n <? 0)%Z; [apply keeps_raise |].
  destruct (n =? 0)%Z; [apply keeps_ret |].
  apply keeps_map_M. intros _. apply keeps_randint.
Qed.

Lemma keeps_uniform : keeps uniform.
Proof. intros w. rewrite uniform_eq. split_and!; simpl; try done. lia. Qed.

Lemma keeps_lookup_step eb key e t : keeps (lookup_step eb key e t).
Proof.
  unfold lookup_step. apply keeps_bind; [apply keeps_getitem |]. intros slots.
  apply keeps_bind; [apply keeps_lift_opt |]. intros ep. apply keeps_lift_opt.
Qed.

Lemma keeps_episode_length eb e : keeps (episode_length eb e).
Proof.
  unfold episode_length. apply keeps_bind; [apply keeps_getitem |]. intros acs.
  apply keeps_bind; [apply keeps_lift_opt |]. intros ep. apply keeps_ret.
Qed.

Lemma keeps_call_reward_func h ag g : keeps (call_reward_func h ag g).
Proof.
  unfold call_reward_func. destruct (reward_func h);
    [apply keeps_ret | apply keeps_raise].
Qed.

Ltac keeps_steps :=
  repeat first
    [ apply keeps_ret | apply keeps_raise | apply keeps_lift_opt
    | apply keeps_lift_res | apply keeps_getitem | apply keeps_keys
    | apply keeps_randint | apply keeps_randint_n | apply keeps_uniform
    | apply keeps_lookup_step | apply keeps_episode_length
    | apply keeps_call_reward_func
    | apply keeps_map_M; intros ?
    | apply keeps_foldM; intros ? ?
    | apply keeps_bind; [|intros ?] ].

Lemma keeps_draw_and_gather eb n : keeps (draw_and_gather eb n).
Proof. unfold draw_and_gather. keeps_steps. Qed.

Lemma keeps_her_step h eb i et tr : keeps (her_step h eb i et tr).
Proof.
  unfold her_step. apply keeps_bind; [apply keeps_uniform |]. intros u.
  apply keeps_bind; [|intros ?; keeps_steps].
  destruct (Qltb u (future_p h)); [|apply keeps_ret].
  keeps_steps. match goal with |- keeps (if ?c then _ else _) => destruct c end;
    keeps_steps.
Qed.

Lemma keeps_call_sampler f eb n : keeps (call_sampler f eb n).
Proof.
  intros w. destruct f as [|h]; simpl.
  - rewrite RandomSampler_func_prefix. revert w.
    apply keeps_bind; [apply keeps_draw_and_gather |]. intros x. apply keeps_lift_res.
  - rewrite sample_her_transitions_prefix. revert w.
    apply keeps_bind; [apply keeps_draw_and_gather |]. intros x.
    apply keeps_bind; [|intros ?; apply keeps_lift_res].
    apply keeps_for_enumerate. intros i et tr. apply keeps_her_step.
Qed.

Lemma keeps_LearnedRewardReplayBuffer_sample _rew n :
  keeps (LearnedRewardReplayBuffer_sample _rew n).
Proof.
  intros w. rewrite LearnedRewardReplayBuffer_sample_prefix.
  generalize (_buffer (self w)). intros eb. revert w.
  apply keeps_bind; [apply keeps_draw_and_gather |]. intros x. apply keeps_lift_res.
Qed.

(** A common beginning that returns for a batch size of at least 1 has
    not written to any dictionary. *)
Lemma draw_and_gather_heap eb n w x w' :
  draw_and_gather eb n w = (Ok x, w') → (1 ≤ n)%Z →
  heap w' = heap w ∧
  ∃ acs, dict_get (buffer_at w eb) "ac" = Some acs.
Proof.
  intros Hrun Hn.
  destruct (draw_and_gather_Ok _ _ _ _ _ Hrun) as (w1 & [->|[-> Hnone]] & Hd & ->).
  - split; [done |]. destruct x as [pairs tr].
    destruct (drawn_inv _ _ _ _ _ _ Hd) as (acs & Hac & _). eauto.
  - exfalso. unfold drawn in Hd.
    assert (Hac : dict_get (buffer_at (with_ac eb w) eb) "ac" = Some []).
    { unfold buffer_at, with_ac. simpl. rewrite lookup_total_insert_eq. simpl.
      by rewrite dict_get_set_eq. }
    rewrite Hac in Hd. simpl in Hd. unfold e_draws in Hd.
    destruct (Z.ltb_spec n 0); [done |].
    destruct (Z.eqb_spec n 0); [lia |]. done.
Qed.

Lemma her_loop_world h eb pairs (i0 : nat) tr w tr' w' acs :
  for_enumerate (her_step h eb) pairs (Z.of_nat i0) tr w = (Ok tr', w') →
  dict_get (buffer_at w eb) "ac" = Some acs →
  ∃ k, w' = advance k w.
Proof.
  revert i0 tr w. induction pairs as [|[e t] pairs IH]; intros i0 tr w Hrun Hac;
    simpl in Hrun.
  - injection Hrun as <- <-. exists 0. by rewrite advance_0.
  - apply bind_Ok_inv in Hrun as (tr1 & w1 & Hstep & Hrest).
    destruct (her_step_inv _ _ _ _ _ _ _ _ _ _ Hstep Hac)
      as (? & ? & ? & ? & ? & ? & _ & _ & _ & _ & _ & _ & _ & _ & _ & _ & _ & ->).
    replace (Z.of_nat i0 + 1)%Z with (Z.of_nat (S i0)) in Hrest by lia.
    destruct (IH _ _ _ Hrest Hac) as [k' ->]. eexists (k' + _).
    apply advance_advance.
Qed.

Lemma call_sampler_heap f eb n w b w' :
  call_sampler f eb n w = (Ok b, w') → heap w' = heap w.
Proof.
  intros E. destruct f as [|h]; simpl in E.
  - pose proof (RandomSampler_func_rows _ _ _ _ _ E) as Hn.
    rewrite RandomSampler_func_prefix in E.
    apply bind_Ok_inv in E as (x & w1 & Hpre & Htail).
    unfold lift_res in Htail. injection Htail as _ <-.
    by destruct (draw_and_gather_heap _ _ _ _ _ Hpre Hn).
  - destruct (sample_her_transitions_rows _ _ _ _ _ _ E) as [Hn _].
    rewrite sample_her_transitions_prefix in E.
    apply bind_Ok_inv in E as (x & w1 & Hpre & E).
    apply bind_Ok_inv in E as (tr' & w2 & Hloop & Htail).
    unfold lift_res in Htail. injection Htail as _ <-.
    destruct (draw_and_gather_heap _ _ _ _ _ Hpre Hn) as [Hheap [acs Hac]].
    assert (Hac1 : dict_get (buffer_at w1 eb) "ac" = Some acs).
    { unfold buffer_at in *. by rewrite Hheap. }
    destruct (her_loop_world h eb x.1 0 _ _ _ _ acs Hloop Hac1) as [k ->].
    done.
Qed.

(** Sampling never alters what is stored.  Whatever the sampler and the
    outcome, every entry of every dictionary is afterwards what it was
    and the buffer object is untouched; a call that raises can at most
    have added a missing key with an empty list to a [defaultdict], and
    a call that returns a batch has written nothing at all. *)
Theorem sampling_keeps_store (f : sampler) (eb : loc) (n : Z)
    (_rew : list value → list value → nd) (w : world) :
  let out := call_sampler f eb n w in
  let learned := LearnedRewardReplayBuffer_sample _rew n w in
  store_kept w out.2 ∧
  (∀ b, out.1 = Ok b → heap out.2 = heap w) ∧
  store_kept w learned.2 ∧
  (∀ b, learned.1 = Ok b → heap learned.2 = heap w).
Proof.
  cbv zeta. split_and!.
  - apply keeps_call_sampler.
  - intros b Hb. destruct (call_sampler f eb n w) as [r w'] eqn:E.
    simpl in Hb. subst r. by eapply call_sampler_heap.
  - apply keeps_LearnedRewardReplayBuffer_sample.
  - intros b Hb.
    destruct (LearnedRewardReplayBuffer_sample _rew n w) as [r w'] eqn:E.
    simpl in Hb. subst r.
    pose proof (LearnedRewardReplayBuffer_sample_rows _ _ _ _ _ E) as Hn.
    rewrite LearnedRewardReplayBuffer_sample_prefix in E.
    apply bind_Ok_inv in E as (x & w1 & Hpre & Htail).
    unfold lift_res in Htail. injection Htail as _ <-.
    by destruct (draw_and_gather_heap _ _ _ _ _ Hpre Hn).
Qed.

(** ** Edge cases of the store *)

(** On a [defaultdict] store without the key ["ac"], as a buffer has it
    before the first episode, a sampler asked for a batch raises
    [ValueError], and its reading of [episode_batch["ac"]] has left the
    key ["ac"] in the dictionary, with an empty list. *)
Theorem sample_before_first_episode (f : sampler) (eb : loc) (n : Z) (w : world) :
  default_factory (heap w !!! eb) = true →
  dict_get (buffer_at w eb) "ac" = None →
  n ≠ 0%Z →
  call_sampler f eb n w = (Raise ValueError, with_ac eb w) ∧
  dict_get (buffer_at (with_ac eb w) eb) "ac" = Some [].
Proof.
  intros Hdef Hac Hn.
  assert (Hget : getitem eb "ac" w = (Ok [], with_ac eb w))
    by (by rewrite getitem_eq, Hac, Hdef).
  assert (Hdraw : randint_n 0 (len (@nil episode)) n (with_ac eb w) =
                  (Raise ValueError, with_ac eb w)).
  { change (len (@nil episode)) with 0%Z. rewrite randint_n_empty_range.
    destruct (n <? 0)%Z; [done |]. by destruct (Z.eqb_spec n 0). }
  split.
  - destruct f as [|h]; simpl.
    + unfold RandomSampler_func. rewrite (bind_Ok _ _ _ _ _ Hget).
      by rewrite (bind_Raise _ _ _ _ _ Hdraw).
    + unfold sample_her_transitions. rewrite (bind_Ok _ _ _ _ _ Hget).
      by rewrite (bind_Raise _ _ _ _ _ Hdraw).
  - unfold buffer_at, with_ac. simpl. rewrite lookup_total_insert_eq. simpl.
    by rewrite dict_get_set_eq.
Qed.

Lemma sample_before_first_episode_witness :
  (sample 3 ex_fresh).1 = Raise ValueError ∧
  buffer_of (sample 3 ex_fresh).2 = [("ac", [])].
Proof.
  destruct (sample_before_first_episode RandomSampler_sample_func
              (_buffer (self ex_fresh)) 3 ex_fresh) as [Hrun _];
    [reflexivity | reflexivity | lia |].
  change (sample 3 ex_fresh) with
    (call_sampler RandomSampler_sample_func (_buffer (self ex_fresh)) 3 ex_fresh).
  rewrite Hrun. split; [reflexivity | vm_compute; reflexivity].
Defined.

(** A buffer constructed with a capacity of 0 or less stores nothing:
    the first [store_episode] takes the overwriting branch on the empty
    list of slots and raises [IndexError], leaving the first tracked key
    in the dictionary with no slot. *)
Theorem store_episode_zero_capacity (n : Z) (k : string) (ks : list string)
    (f : sampler) (r : rollout_t) (x : list value) (w0 : world) :
  (n ≤ 0)%Z → dict_get r k = Some x →
  ∃ w', (ReplayBuffer_init n (k :: ks) f ;; store_episode r) w0
          = (Raise IndexError, w') ∧
        buffer_of w' = [(k, [])] ∧
        _idx (self w') = 0%Z ∧ _current_size (self w') = 0%Z.
Proof.
  intros Hn Hk. rewrite (bind_Ok _ _ _ _ _ (ReplayBuffer_init_eq n (k :: ks) f w0)).
  set (l := fresh (dom (heap w0))).
  set (w1 := mkWorld _ _ _ _).
  assert (Hbuf : buffer_at w1 l = []).
  { unfold buffer_at, w1. simpl. by rewrite lookup_total_insert_eq. }
  assert (Hdef : default_factory (heap w1 !!! l) = true).
  { unfold w1. simpl. by rewrite lookup_total_insert_eq. }
  set (w2 := mkWorld (self w1) (<[l:=PyDict true [(k, [])]]> (heap w1))
               (rng_src w1) (rng_pos w1)).
  assert (Hkey : store_new_key r k w1 = (Raise IndexError, w2)).
  { unfold store_new_key. change (bind get_self ?g w1) with (g (self w1) w1).
    cbv beta. change (_current_size (self w1)) with 0%Z.
    change (_size (self w1)) with n. change (_buffer (self w1)) with l.
    destruct (Z.ltb_spec 0 n); [lia |].
    rewrite Hk. unfold lift_opt at 1, lift_res, of_opt, bind at 1.
    assert (Hget : getitem l k w1 = (Ok [], w2)) by (by rewrite getitem_eq, Hbuf, Hdef).
    by rewrite (bind_Ok _ _ _ _ _ Hget). }
  exists w2. split_and!; [| | done | done].
  - unfold store_episode. change (bind get_self ?g w1) with (g (self w1) w1).
    cbv beta. change (_new_episode (self w1)) with true. cbv iota.
    change (_keys (self w1)) with (k :: ks). simpl for_.
    apply bind_Raise. apply bind_Raise. exact Hkey.
  - unfold buffer_of, buffer_at, w2. simpl. by rewrite lookup_total_insert_eq.
Qed.

Lemma store_episode_zero_capacity_witness :
  ((ReplayBuffer_init 0 ex_keys RandomSampler_sample_func ;;
    store_episode (ex_rollout 0 1)) ex_world).1 = Raise IndexError.
Proof.
  destruct (store_episode_zero_capacity 0 "ob" ["ac"; "rew"; "done"]
              RandomSampler_sample_func (ex_rollout 0 1)
              [ex_ob 0; ex_ob 1; ex_ob 2] ex_world) as (w' & Hrun & _);
    [lia | reflexivity |].
  change ex_keys with ["ob"; "ac"; "rew"; "done"]. by rewrite Hrun.
Defined.

Lemma check_lengths_fail w obs acs ob ac :
  dict_get (buffer_of w) "ob" = Some obs →
  dict_get (buffer_of w) "ac" = Some acs →
  py_index obs (_idx (self w)) = Some ob →
  py_index acs (_idx (self w)) = Some ac →
  length ob ≠ length ac + 1 →
  check_lengths w = (Raise AssertionError, w).
Proof.
  intros Hob Hac Hiob Hiac Hlen. unfold check_lengths, buffer_of in *.
  unfold bind at 1. simpl.
  unfold bind at 1, contains, heap_get, bind at 1. simpl.
  fold (buffer_at w (_buffer (self w))). unfold dict_mem. rewrite Hac.
  unfold bind at 1. rewrite getitem_eq, Hob.
  unfold bind at 1, lift_opt, lift_res. rewrite Hiob. simpl.
  unfold bind at 1. rewrite getitem_eq, Hac.
  unfold bind at 1. rewrite Hiac. simpl.
  unfold len. destruct (Z.eqb_spec (Z.of_nat (length ob)) (Z.of_nat (length ac) + 1));
    [lia | done].
Qed.

(** A call that finds, after its appends, a bad slot at the cursor. *)
Lemma store_episode_assert_fails r w ob ac :
  let s := self w in
  _new_episode s = true →
  default_factory (heap w !!! _buffer s) = true →
  (_current_size s < _size s)%Z →
  (0 ≤ _idx s)%Z →
  NoDup (_keys s) → "ob" ∈ _keys s → "ac" ∈ _keys s →
  (∀ k, k ∈ _keys s → is_Some (dict_get r k)) →
  (slots_of (buffer_of w) "ob" ++ [rollout_get r "ob"]) !! Z.to_nat (_idx s) = Some ob →
  (slots_of (buffer_of w) "ac" ++ [rollout_get r "ac"]) !! Z.to_nat (_idx s) = Some ac →
  length ob ≠ length ac + 1 →
  ∃ w', store_episode r w = (Raise AssertionError, w') ∧ mismatched w'.
Proof.
  intros s Hnew Hdef Hroom Hidx Hnd Hob Hac Hr Hiob Hiac Hlen.
  assert (Hlt : (_current_size s <? _size s)%Z = true) by (apply Z.ltb_lt; lia).
  destruct (for_append r (_keys s) w Hdef Hlt Hr)
    as (w1 & E1 & (Hs & Hrs & Hrp & Hd & Hfr) & B1).
  fold s in B1, Hd.
  assert (Hslots : ∀ k, k ∈ _keys s →
            dict_get (buffer_of w1) k = Some (slots_of (buffer_of w) k ++ [rollout_get r k]) ∧
            slots_of (buffer_of w1) k = slots_of (buffer_of w) k ++ [rollout_get r k]).
  { intros k Hk. unfold buffer_of at 1 3. rewrite Hs. fold s. rewrite B1.
    rewrite fold_append_get, fold_append_in by done. done. }
  destruct (Hslots "ob" Hob) as [Hgob Hsob].
  destruct (Hslots "ac" Hac) as [Hgac Hsac].
  exists w1. split.
  - unfold store_episode. unfold bind at 1. simpl. fold s. rewrite Hnew.
    unfold bind at 1. rewrite E1. apply bind_Raise.
    apply (check_lengths_fail w1 _ _ ob ac Hgob Hgac); rewrite ?Hs; fold s;
      try (rewrite py_index_Some by done); done.
  - unfold mismatched. rewrite Hs. fold s. split_and!; try done.
    + by rewrite Hd.
    + exists ob, ac. by rewrite Hsob, Hsac.
Qed.

(** An episode with the wrong number of observations makes
    [store_episode] raise [AssertionError] after the episode was
    appended and before the cursor moved.  While the buffer has room the
    bad slot stays at the cursor, later calls append behind it, and the
    assertion, which looks at the slot at the cursor, fails in every
    later call too, whatever rollout is handed over. *)
Theorem assertion_failure_persists :
  (∀ n ks f r w0,
     (1 ≤ n)%Z → NoDup ks → "ob" ∈ ks → "ac" ∈ ks →
     (∀ k, k ∈ ks → is_Some (dict_get r k)) →
     length (rollout_get r "ob") ≠ length (rollout_get r "ac") + 1 →
     ∃ w', (ReplayBuffer_init n ks f ;; store_episode r) w0
             = (Raise AssertionError, w') ∧ mismatched w') ∧
  (∀ r w,
     mismatched w →
     (∀ k, k ∈ _keys (self w) → is_Some (dict_get r k)) →
     ∃ w', store_episode r w = (Raise AssertionError, w') ∧ mismatched w').
Proof.
  split.
  - intros n ks f r w0 Hn Hnd Hob Hac Hr Hlen.
    rewrite (bind_Ok _ _ _ _ _ (ReplayBuffer_init_eq n ks f w0)).
    set (w1 := mkWorld _ _ _ _).
    assert (Hbuf : buffer_of w1 = []).
    { unfold buffer_of, buffer_at, w1. simpl. by rewrite lookup_total_insert_eq. }
    apply (store_episode_assert_fails r w1 (rollout_get r "ob") (rollout_get r "ac"));
      try done; try (simpl; lia).
    + unfold w1. simpl. by rewrite lookup_total_insert_eq.
    + by rewrite Hbuf.
    + by rewrite Hbuf.
  - intros r w (Hnew & Hdef & Hroom & Hidx & Hnd & Hob & Hac & ob & ac & Hiob & Hiac & Hlen) Hr.
    apply (store_episode_assert_fails r w ob ac); try done.
    + by apply lookup_app_l_Some.
    + by apply lookup_app_l_Some.
Qed.

Lemma assertion_failure_persists_witness :
  ∃ w' w'',
    (ReplayBuffer_init 2 ex_keys RandomSampler_sample_func ;;
     store_episode ex_short_rollout) ex_world = (Raise AssertionError, w') ∧
    store_episode (ex_rollout 0 1) w' = (Raise AssertionError, w'').
Proof.
  assert (Hall : ∀ r : rollout_t, dict_keys r = ex_keys →
            ∀ k, k ∈ ex_keys → is_Some (dict_get r k)).
  { intros r Hr k Hk. rewrite <- Hr in Hk.
    destruct (dict_get r k) eqn:E; [by eexists |].
    by apply dict_get_None in E. }
  destruct assertion_failure_persists as [Hfirst Hlater].
  destruct (Hfirst 2%Z ex_keys RandomSampler_sample_func ex_short_rollout ex_world)
    as (w' & Hrun & Hbad).
  - lia.
  - by apply (bool_decide_unpack (NoDup ex_keys)).
  - left.
  - right. left.
  - by apply Hall.
  - vm_compute. lia.
  - assert (Hkeys : _keys (self w') = ex_keys).
    { replace w' with
        ((ReplayBuffer_init 2 ex_keys RandomSampler_sample_func ;;
          store_episode ex_short_rollout) ex_world).2 by (by rewrite Hrun).
      vm_compute. reflexivity. }
    destruct (Hlater (ex_rollout 0 1) w' Hbad) as (w'' & Hrun' & _).
    + rewrite Hkeys. by apply Hall.
    + exists w', w''. split; [exact Hrun | exact Hrun'].
Defined.

Lemma for_app {A} (l1 l2 : list A) (body : A → M unit) w :
  for_ (l1 ++ l2) body w = (for_ l1 body ;; for_ l2 body) w.
Proof.
  revert w. induction l1 as [|x l1 IH]; intros w; simpl.
  - done.
  - unfold bind. destruct (body x w) as [[[]|e] w1]; [|done].
    rewrite IH. done.
Qed.

(** [store_episode] is not atomic.  While the buffer has room, a rollout
    that lacks the tracked key [k] makes the call raise [KeyError] when
    the loop reaches [k]: the values of the keys listed before [k] have
    been appended by then and stay, [k] itself has been given an empty
    list of slots if it had none, and the cursor has not moved. *)
Theorem store_episode_missing_key (r : rollout_t) (w : world)
    (ks1 : list string) (k : string) (ks2 : list string) :
  _new_episode (self w) = true →
  default_factory (heap w !!! _buffer (self w)) = true →
  (_current_size (self w) < _size (self w))%Z →
  _keys (self w) = ks1 ++ k :: ks2 →
  (∀ k', k' ∈ ks1 → is_Some (dict_get r k')) →
  dict_get r k = None →
  ∃ w', store_episode r w = (Raise KeyError, w') ∧
        self w' = self w ∧
        let it1 := fold_left (append_key r) ks1 (buffer_of w) in
        buffer_of w' = if dict_mem it1 k then it1 else dict_set it1 k [].
Proof.
  intros Hnew Hdef Hroom Hkeys Hr Hk. set (s := self w) in *.
  assert (Hlt : (_current_size s <? _size s)%Z = true) by (apply Z.ltb_lt; lia).
  destruct (for_append r ks1 w Hdef Hlt Hr)
    as (w1 & E1 & (Hs & Hrs & Hrp & Hd & Hfr) & B1).
  fold s in B1, Hd.
  set (it1 := fold_left (append_key r) ks1 (buffer_at w (_buffer s))) in *.
  assert (Hkey : ∃ w2, store_new_key r k w1 = (Raise KeyError, w2) ∧
            self w2 = s ∧
            buffer_at w2 (_buffer s) = if dict_mem it1 k then it1 else dict_set it1 k []).
  { unfold store_new_key. change (bind get_self ?g w1) with (g (self w1) w1).
    cbv beta. rewrite Hs. fold s. rewrite Hlt.
    unfold bind at 1. rewrite getitem_eq, B1. unfold dict_mem.
    destruct (dict_get it1 k) as [slots|] eqn:Hit.
    - exists w1. unfold bind, lift_opt. rewrite Hk. simpl. by split_and!.
    - rewrite Hd, Hdef. eexists. unfold bind, lift_opt. rewrite Hk. simpl.
      split_and!; [done | done |]. unfold buffer_at. simpl.
      by rewrite lookup_total_insert_eq. }
  destruct Hkey as (w2 & E2 & Hs2 & B2).
  exists w2. split_and!; [| done |].
  - unfold store_episode. change (bind get_self ?g w) with (g (self w) w).
    cbv beta. fold s. rewrite Hnew, Hkeys. apply bind_Raise.
    rewrite for_app. rewrite (bind_Ok _ _ _ _ _ E1). simpl for_.
    apply bind_Raise. exact E2.
  - cbv zeta. unfold buffer_of. rewrite Hs2. exact B2.
Qed.

Lemma store_episode_missing_key_witness :
  let r := [("ob", [ex_ob 0; ex_ob 1; ex_ob 2]); ("done", [scalar 0; scalar 1])] in
  (store_episode r ex_fresh).1 = Raise KeyError ∧
  buffer_of (store_episode r ex_fresh).2 =
    [("ob", [[ex_ob 0; ex_ob 1; ex_ob 2]]); ("ac", [])].
Proof.
  cbv zeta.
  destruct (store_episode_missing_key
              [("ob", [ex_ob 0; ex_ob 1; ex_ob 2]); ("done", [scalar 0; scalar 1])]
              ex_fresh ["ob"] "ac" ["rew"; "done"]) as (w' & Hrun & _ & Hbuf).
  - reflexivity.
  - reflexivity.
  - simpl. lia.
  - reflexivity.
  - intros k' Hk'. apply list_elem_of_singleton in Hk' as ->. by eexists.
  - reflexivity.
  - rewrite Hrun. simpl. split; [reflexivity |]. rewrite Hbuf. vm_compute. reflexivity.
Defined.

(** ** Loading demonstrations: failures and limits *)

Lemma load_demo_malformed fs p e w :
  malformed fs p e → load_demo fs p w = (Raise e, w).
Proof.
  unfold malformed, load_demo, lift_opt, lift_res, bind.
  destruct (pickle_load fs p) as [data|]; simpl; [|by intros ->].
  intros [[-> Hkey]|(-> & [obs Hobs] & Hact & [rew Hrew])].
  - destruct (dict_get data "obs"); simpl; [|done].
    destruct (dict_get data "actions"); simpl; [|done].
    destruct (dict_get data "rewards"); simpl; [|done].
    by destruct Hkey as [?|[?|?]].
  - rewrite Hobs. simpl. rewrite Hact. simpl. rewrite Hrew. simpl. done.
Qed.

(** [load_demonstrations] fails fast and keeps what it stored: at the
    first file that cannot be loaded it raises (the exception of [open]
    or [pickle.load] for a file that cannot be opened or unpickled,
    [KeyError] for a missing key, [IndexError] for a file without
    actions), the demonstrations before that file are in the buffer, the
    file itself has left no trace, and no later file is opened. *)
Theorem load_demonstrations_fails_fast (fs : filesystem) (demo_folder : string)
    (num_demos : Z) (entries : list DirEntry) (l1 : list string) (p : string)
    (l2 : list string) (e : exn) (w w1 : world) :
  scandir fs demo_folder = Some entries →
  scan_demos entries num_demos [] 0 = l1 ++ p :: l2 →
  for_ l1 (load_demo fs) w = (Ok tt, w1) →
  malformed fs p e →
  load_demonstrations fs demo_folder num_demos w = (Raise e, w1).
Proof.
  intros Hscan Hdemos Hl1 Hbad.
  unfold load_demonstrations. unfold bind at 1. unfold lift_opt, lift_res.
  rewrite Hscan. simpl. rewrite Hdemos, for_app.
  rewrite (bind_Ok _ _ _ _ _ Hl1). simpl for_.
  apply bind_Raise. by apply load_demo_malformed.
Qed.

Lemma load_demonstrations_fails_fast_witness :
  (∃ w1, for_ ["mixed/a.pkl"] (load_demo ex_bad_fs) ex_fresh = (Ok tt, w1) ∧
         load_demonstrations ex_bad_fs "mixed" 5 ex_fresh = (Raise IndexError, w1) ∧
         length (slots_of (buffer_of w1) "ac") = 1) ∧
  (∃ w1, for_ ["broken/a.pkl"] (load_demo ex_bad_fs) ex_fresh = (Ok tt, w1) ∧
         load_demonstrations ex_bad_fs "broken" 5 ex_fresh
           = (Raise UnpicklingError, w1)).
Proof.
  split.
  - destruct (for_ ["mixed/a.pkl"] (load_demo ex_bad_fs) ex_fresh) as [[[]|err] w1] eqn:E;
      [|vm_compute in E; discriminate].
    exists w1. split; [reflexivity |]. split.
    + apply (load_demonstrations_fails_fast ex_bad_fs "mixed" 5
               [mkDirEntry "mixed/a.pkl" true; mkDirEntry "mixed/empty.pkl" true;
                mkDirEntry "mixed/c.pkl" true]
               ["mixed/a.pkl"] "mixed/empty.pkl" ["mixed/c.pkl"] IndexError ex_fresh w1).
      * reflexivity.
      * vm_compute. reflexivity.
      * exact E.
      * right. split_and!; [reflexivity | by eexists | reflexivity | by eexists].
    + vm_compute in E. injection E as <-. vm_compute. reflexivity.
  - destruct (for_ ["broken/a.pkl"] (load_demo ex_bad_fs) ex_fresh) as [[[]|err] w1] eqn:E;
      [|vm_compute in E; discriminate].
    exists w1. split; [reflexivity |].
    apply (load_demonstrations_fails_fast ex_bad_fs "broken" 5
             [mkDirEntry "broken/a.pkl" true; mkDirEntry "broken/corrupt.pkl" true]
             ["broken/a.pkl"] "broken/corrupt.pkl" [] UnpicklingError ex_fresh w1).
    + reflexivity.
    + vm_compute. reflexivity.
    + exact E.
    + reflexivity.
Defined.

(** With a negative [num_demos] the scanning loop stops after the first
    directory entry, whatever it is: that entry is loaded if it is a
    demonstration file, and nothing is loaded otherwise, even when
    demonstration files follow. *)
Theorem load_demonstrations_negative (fs : filesystem) (demo_folder : string)
    (num_demos : Z) (d : DirEntry) (rest : list DirEntry) (w : world) :
  (num_demos < 0)%Z →
  scandir fs demo_folder = Some (d :: rest) →
  load_demonstrations fs demo_folder num_demos w =
  if is_demo d then load_demo fs (path d) w else (Ok tt, w).
Proof.
  intros Hn Hscan.
  unfold load_demonstrations. unfold bind at 1. unfold lift_opt, lift_res.
  rewrite Hscan. simpl. destruct (is_demo d).
  - destruct (Z.ltb_spec num_demos (0 + 1)); [|lia]. simpl. unfold bind.
    by destruct (load_demo fs (path d) w) as [[[]|err] w1].
  - destruct (Z.ltb_spec num_demos 0); [|lia]. done.
Qed.

Lemma load_demonstrations_negative_witness :
  load_demonstrations ex_fs "none" (-1) ex_fresh = (Ok tt, ex_fresh) ∧
  load_demonstrations ex_fs "demos" (-1) ex_fresh =
    load_demo ex_fs "demos/a.pkl" ex_fresh.
Proof.
  split.
  - apply (load_demonstrations_negative ex_fs "none" (-1)
             (mkDirEntry "none/readme.md" true) [] ex_fresh); [lia | reflexivity].
  - apply (load_demonstrations_negative ex_fs "demos" (-1)
             (mkDirEntry "demos/a.pkl" true)
             [mkDirEntry "demos/notes.txt" true; mkDirEntry "demos/b.pkl" true;
              mkDirEntry "demos/old.pkl" false; mkDirEntry "demos/c.pkl" true] ex_fresh);
      [lia | reflexivity].
Defined.

(** [LearnedRewardReplayBuffer.sample] reads the environment reward from
    the key ["env_rew"]: on a store without that key (one filled with
    rollouts that carry ["rew"], say) every call raises. *)
Theorem learned_sample_needs_env_rew (_rew : list value → list value → nd)
    (n : Z) (w : world) :
  dict_get (buffer_of w) "env_rew" = None →
  raises (LearnedRewardReplayBuffer_sample _rew n) w.
Proof.
  intros Hnone. unfold raises.
  destruct (LearnedRewardReplayBuffer_sample _rew n w) as [[b|e] w'] eqn:E; [|done].
  rewrite LearnedRewardReplayBuffer_sample_prefix in E.
  apply bind_Ok_inv in E as ([pairs tr] & w1 & Hpre & Htail).
  unfold lift_res in Htail. injection Htail as Htail _. simpl in Htail.
  destruct (draw_and_gather_Ok _ _ _ _ _ Hpre) as (w0 & Hw0 & Hd & _).
  destruct (drawn_inv _ _ _ _ _ _ Hd) as (acs & _ & _ & _ & _ & Hcols & _).
  specialize (Hcols "env_rew" ltac:(done)).
  assert (Hnone0 : dict_get (buffer_at w0 (_buffer (self w))) "env_rew" = None).
  { destruct Hw0 as [->|[-> _]]; [done |].
    unfold buffer_at, with_ac. simpl. rewrite lookup_total_insert_eq. simpl.
    by rewrite dict_get_set_ne. }
  rewrite Hnone0 in Hcols.
  destruct (dict_get tr "ob"); [|done]. simpl in Htail.
  destruct (dict_get tr "ob_next"); [|done]. simpl in Htail.
  by rewrite Hcols in Htail.
Qed.

Lemma learned_sample_needs_env_rew_witness :
  raises (LearnedRewardReplayBuffer_sample (λ _ _, Sc 0) 3) ex_full.
Proof. apply learned_sample_needs_env_rew. vm_compute. reflexivity. Defined.

(** ** The rewards of [PusherEnv] *)

Lemma Qltb_lt x y : Qltb x y = true ↔ (x < y)%Q.
Proof.
  unfold Qltb. rewrite negb_true_iff, <- not_true_iff_false, Qle_bool_iff.
  split; [apply Qnot_le_lt | apply Qlt_not_le].
Qed.

Lemma Qltb_ge x y : Qltb x y = false ↔ (y <= x)%Q.
Proof. unfold Qltb. by rewrite negb_false_iff, Qle_bool_iff. Qed.

Lemma np_clip_range x b : (0 <= b)%Q → (0 <= np_clip x 0 b)%Q ∧ (np_clip x 0 b <= b)%Q.
Proof.
  intros Hb. unfold np_clip.
  destruct (Qltb x 0) eqn:E1; [apply Qltb_lt in E1 | apply Qltb_ge in E1].
  - destruct (Qltb b 0) eqn:E2; [apply Qltb_lt in E2 | apply Qltb_ge in E2];
      split; lra.
  - destruct (Qltb b x) eqn:E2; [apply Qltb_lt in E2 | apply Qltb_ge in E2];
      split; lra.
Qed.

Lemma np_clip_mono x y b :
  (0 <= b)%Q → (x <= y)%Q → (np_clip x 0 b <= np_clip y 0 b)%Q.
Proof.
  intros Hb Hxy. unfold np_clip.
  destruct (Qltb x 0) eqn:E1; [apply Qltb_lt in E1 | apply Qltb_ge in E1];
  destruct (Qltb y 0) eqn:E2; [apply Qltb_lt in E2 | apply Qltb_ge in E2 |
                               apply Qltb_lt in E2 | apply Qltb_ge in E2];
  repeat match goal with
         | |- context [Qltb ?u ?v] =>
             let E := fresh "E" in
             destruct (Qltb u v) eqn:E; [apply Qltb_lt in E | apply Qltb_ge in E]
         end; lra.
Qed.

Lemma np_clip_low x b : (0 <= b)%Q → (x <= 0)%Q → (np_clip x 0 b == 0)%Q.
Proof.
  intros Hb Hx. unfold np_clip.
  destruct (Qltb x 0) eqn:E1; [apply Qltb_lt in E1 | apply Qltb_ge in E1];
  match goal with
  | |- context [Qltb ?u ?v] =>
      let E := fresh "E" in
      destruct (Qltb u v) eqn:E; [apply Qltb_lt in E | apply Qltb_ge in E]
  end; lra.
Qed.

Lemma np_clip_high x b : (0 <= b)%Q → (b <= x)%Q → (np_clip x 0 b == b)%Q.
Proof.
  intros Hb Hx. unfold np_clip.
  destruct (Qltb x 0) eqn:E1; [apply Qltb_lt in E1 | apply Qltb_ge in E1];
  match goal with
  | |- context [Qltb ?u ?v] =>
      let E := fresh "E" in
      destruct (Qltb u v) eqn:E; [apply Qltb_lt in E | apply Qltb_ge in E]
  end; lra.
Qed.

Lemma huber_loss_mono x y :
  (0 <= x)%Q → (x <= y)%Q → (huber_loss x <= huber_loss y)%Q.
Proof.
  intros Hx Hxy. unfold huber_loss.
  destruct (Qltb x 0.2) eqn:E1; [apply Qltb_lt in E1 | apply Qltb_ge in E1];
  (destruct (Qltb y 0.2) eqn:E2; [apply Qltb_lt in E2 | apply Qltb_ge in E2]);
  nra.
Qed.

Lemma huber_loss_0 : (huber_loss 0 == 0)%Q.
Proof. reflexivity. Qed.

Lemma huber_loss_pos b : (0.2 < b)%Q → (0 < huber_loss b)%Q.
Proof.
  intros Hb. unfold huber_loss.
  destruct (Qltb b 0.2) eqn:E; [apply Qltb_lt in E | apply Qltb_ge in E]; lra.
Qed.

Lemma huber_loss_eq x y :
  (0 <= x)%Q → (x == y)%Q → (huber_loss x == huber_loss y)%Q.
Proof.
  intros Hx Hxy. apply Qle_antisym; apply huber_loss_mono; lra.
Qed.

Lemma _huber_eq x bound :
  (0.2 < bound)%Q → _huber x bound 0.2 = Ok (huber_loss x).
Proof.
  intros Hb. unfold _huber. apply Qltb_lt in Hb. by rewrite Hb.
Qed.

Lemma loss_range c b :
  (0.2 < b)%Q → (0 <= c)%Q → (c <= b)%Q →
  (0 <= huber_loss c / huber_loss b)%Q ∧ (huber_loss c / huber_loss b <= 1)%Q.
Proof.
  intros Hb H0 Hc. pose proof (huber_loss_pos b Hb) as Hpos.
  pose proof (huber_loss_mono 0 c ltac:(lra) H0) as Hlo.
  rewrite huber_loss_0 in Hlo.
  pose proof (huber_loss_mono c b H0 Hc) as Hhi.
  split; [apply Qle_shift_div_l | apply Qle_shift_div_r]; lra.
Qed.

Lemma _reward_fn_eq x bound :
  (0.2 < bound)%Q →
  _reward_fn x bound =
  Ok (1 - huber_loss (np_clip x 0 bound) / huber_loss bound)%Q.
Proof.
  intros Hb. unfold _reward_fn. rewrite !_huber_eq by done. simpl.
  destruct (np_clip_range x bound) as [H0 H1]; [lra |].
  destruct (loss_range _ _ Hb H0 H1) as [Hlo Hhi].
  apply Qle_bool_iff in Hlo, Hhi. by rewrite Hlo, Hhi.
Qed.

Lemma _reward_fn_bounds x bound :
  (0.2 < bound)%Q →
  ∃ r, _reward_fn x bound = Ok r ∧
       (0 <= r)%Q ∧ (r <= 1)%Q ∧
       ((x <= 0)%Q → (r == 1)%Q) ∧
       ((bound <= x)%Q → (r == 0)%Q).
Proof.
  intros Hb. rewrite _reward_fn_eq by done. eexists. split; [done |].
  destruct (np_clip_range x bound) as [H0 H1]; [lra |].
  destruct (loss_range _ _ Hb H0 H1) as [Hlo Hhi].
  pose proof (huber_loss_pos bound Hb) as Hpos.
  split_and!; try lra.
  - intros Hx. pose proof (np_clip_low x bound ltac:(lra) Hx) as Hc.
    rewrite (huber_loss_eq _ 0 H0 Hc), huber_loss_0.
    unfold Qdiv. lra.
  - intros Hx. pose proof (np_clip_high x bound ltac:(lra) Hx) as Hc.
    rewrite (huber_loss_eq _ bound H0 Hc).
    unfold Qdiv. rewrite Qmult_inv_r by lra. lra.
Qed.

(** [_reward_fn(x, bound)] needs [bound > 0.2] (the [delta] of
    [_huber]): otherwise the assertion of [_huber] fails.  For such a
    bound neither assertion fails, the reward lies in [[0, 1]], it is 1
    for [x <= 0] and 0 for [x >= bound]. *)
Theorem reward_fn_range (x bound : Q) :
  ((0.2 < bound)%Q →
   ∃ r, _reward_fn x bound = Ok r ∧
        (0 <= r)%Q ∧ (r <= 1)%Q ∧
        ((x <= 0)%Q → (r == 1)%Q) ∧
        ((bound <= x)%Q → (r == 0)%Q)) ∧
  ((bound <= 0.2)%Q → _reward_fn x bound = Raise AssertionError).
Proof.
  split.
  - apply _reward_fn_bounds.
  - intros Hb. unfold _reward_fn, _huber.
    apply Qltb_ge in Hb. by rewrite Hb.
Qed.

Lemma reward_fn_range_witness :
  (∃ r, _reward_fn 1 0.7 = Ok r ∧ (r == 0)%Q) ∧
  _reward_fn 0 0.2 = Raise AssertionError.
Proof.
  destruct (reward_fn_range 1 0.7) as [Hin _].
  destruct (reward_fn_range 0 0.2) as [_ Hout].
  split.
  - destruct Hin as (r & Hr & _ & _ & _ & Hzero); [lra |].
    exists r. split; [exact Hr | apply Hzero; lra].
  - apply Hout. lra.
Defined.

(** The reward never grows with the distance. *)
Theorem reward_fn_antitone (x y bound : Q) :
  (0.2 < bound)%Q → (x <= y)%Q →
  ∃ rx ry, _reward_fn x bound = Ok rx ∧ _reward_fn y bound = Ok ry ∧
           (ry <= rx)%Q.
Proof.
  intros Hb Hxy. rewrite !_reward_fn_eq by done. eexists _, _.
  split; [done |]. split; [done |].
  destruct (np_clip_range x bound) as [H0 _]; [lra |].
  pose proof (np_clip_mono x y bound ltac:(lra) Hxy) as Hc.
  pose proof (huber_loss_mono _ _ H0 Hc) as Hh.
  pose proof (huber_loss_pos bound Hb) as Hpos.
  assert (Hdiv : (huber_loss (np_clip x 0 bound) / huber_loss bound <=
                  huber_loss (np_clip y 0 bound) / huber_loss bound)%Q).
  { unfold Qdiv. apply Qmult_le_compat_r; [done |].
    apply Qinv_le_0_compat. lra. }
  lra.
Qed.

Lemma reward_fn_antitone_witness :
  ∃ rx ry, _reward_fn 0.1 0.7 = Ok rx ∧ _reward_fn 0.5 0.7 = Ok ry ∧ (ry <= rx)%Q.
Proof. apply reward_fn_antitone; lra. Defined.

(** The shaped rewards.  For all distances [_forward_reward] returns:
    neither assertion fails, and the reward is the weighted sum
    [0.5 r1 + 0.375 r2 + 0.125 r3] of the three partial rewards, in
    [[0, 1]].  [_reset_reward] without [_sparse_remove_rew] returns the
    same number for the distance to the start; with it the reward is the
    success reward plus [0.125 r3], so at most [0.125] above it. *)
Theorem shaped_rewards (obj_to_arm_dist obj_to_point_dist control_dist : Q) :
  ∃ r1 r2 r3 shaped,
    _reward_fn obj_to_point_dist 0.7 = Ok r1 ∧
    _reward_fn obj_to_arm_dist 0.7 = Ok r2 ∧
    _reward_fn control_dist 3.464 = Ok r3 ∧
    (shaped == 0.5 * r1 + 0.375 * r2 + 0.125 * r3)%Q ∧
    (0 <= shaped)%Q ∧ (shaped <= 1)%Q ∧
    (∃ info, _forward_reward obj_to_arm_dist obj_to_point_dist control_dist
             = Ok (shaped, info)) ∧
    (∀ env, _sparse_remove_rew env = false →
       ∃ info, _reset_reward env obj_to_arm_dist obj_to_point_dist control_dist
               = Ok (shaped, info)) ∧
    (∀ env, _sparse_remove_rew env = true →
       let success_reward :=
         if _success env
         then (if use_aot env then aot_succ_rew env else success_rew env)
         else 0%Q in
       ∃ info, _reset_reward env obj_to_arm_dist obj_to_point_dist control_dist
               = Ok ((success_reward + 0.125 * r3)%Q, info) ∧
               (success_reward <= success_reward + 0.125 * r3)%Q ∧
               (success_reward + 0.125 * r3 <= success_reward + 0.125)%Q).
Proof.
  destruct (_reward_fn_bounds obj_to_point_dist 0.7)
    as (r1 & E1 & Hr1 & Hr1' & _); [lra |].
  destruct (_reward_fn_bounds obj_to_arm_dist 0.7)
    as (r2 & E2 & Hr2 & Hr2' & _); [lra |].
  destruct (_reward_fn_bounds control_dist 3.464)
    as (r3 & E3 & Hr3 & Hr3' & _); [lra |].
  set (shaped := py_sum (zip_with Qmult reward_coefs [r1; r2; r3])).
  assert (Hsum : (shaped == 0.5 * r1 + 0.375 * r2 + 0.125 * r3)%Q).
  { unfold shaped, py_sum, reward_coefs. simpl. lra. }
  assert (Hlo : (0 <= shaped)%Q) by lra.
  assert (Hhi : (shaped <= 1)%Q) by lra.
  exists r1, r2, r3, shaped. split_and!; try done.
  - unfold _forward_reward. rewrite E1, E2, E3.
    cbv beta iota zeta delta [mbind res_bind]. fold shaped.
    apply Qle_bool_iff in Hlo, Hhi. rewrite Hlo, Hhi. by eexists.
  - intros env Hsparse. unfold _reset_reward. rewrite E1, E2, E3.
    cbv beta iota zeta delta [mbind res_bind]. rewrite Hsparse. fold shaped.
    apply Qle_bool_iff in Hlo, Hhi. rewrite Hlo, Hhi. by eexists.
  - intros env Hsparse. cbv zeta. unfold _reset_reward.
    rewrite E1, E2, E3. cbv beta iota zeta delta [mbind res_bind].
    rewrite Hsparse. eexists.
    split; [done |]. split; lra.
Qed.

(** ** From [store_episode] to [sample] *)

Lemma ring_inv_step_exact n ks rs r w :
  (1 ≤ n)%Z → NoDup ks → "ob" ∈ ks → "ac" ∈ ks →
  ring_inv n ks rs w → contract ks r true →
  ∃ w', store_episode r w = (Ok tt, w') ∧ ring_inv n ks (rs ++ [r]) w' ∧
        buffer_of w' = stored_new (self w) r (buffer_of w).
Proof.
  intros Hn Hnd Hob Hac Hinv Hr.
  destruct (ring_inv_step n ks rs r w Hn Hnd Hob Hac Hinv Hr) as (w' & E & Hinv').
  exists w'. split_and!; [done | done |].
  destruct Hinv as (Hsize & Hkeys & Hnew & Hdef & Hcs & Hidx & Hring).
  destruct Hr as (Hr & _).
  pose proof E as E'. rewrite store_episode_split in E'.
  apply bind_Ok_inv in E' as ([] & w2 & Hstage & Hclose).
  change (bind get_self ?g w) with (g (self w) w) in Hstage. cbv beta in Hstage.
  rewrite Hnew in Hstage.
  apply bind_Ok_inv in Hstage as ([] & w1 & Hloop & Hcheck).
  assert (Hloop' : ∃ w1', for_ (_keys (self w)) (store_new_key r) w = (Ok tt, w1') ∧
            frame (_buffer (self w)) w w1' ∧
            buffer_at w1' (_buffer (self w)) = stored_new (self w) r (buffer_of w)).
  { unfold stored_new. destruct (_current_size (self w) <? _size (self w))%Z eqn:Hroom.
    - apply for_append; [done | done |]. by rewrite Hkeys.
    - apply for_overwrite; [done | by rewrite Hkeys |].
      intros k Hk. rewrite Hkeys in Hk. destruct (Hring k Hk) as [Hl _].
      unfold history in Hl. rewrite length_fmap in Hl.
      change (buffer_at w (_buffer (self w))) with (buffer_of w).
      unfold len. rewrite Hl. rewrite Hcs, Hsize in Hroom.
      apply Z.ltb_ge in Hroom. unfold len in Hroom.
      rewrite Hidx. pose proof (Z.mod_pos_bound (len rs) n ltac:(lia)).
      unfold len in *. lia. }
  destruct Hloop' as (w1' & Hloop1 & (Hs1 & _) & Hbuf1).
  rewrite Hloop in Hloop1. injection Hloop1 as <-.
  assert (Hob1 : dict_get (buffer_of w1) "ob" =
                 Some (slots_of (stored_new (self w) r (buffer_of w)) "ob")).
  { unfold buffer_of. rewrite Hs1, Hbuf1. apply stored_new_get. by rewrite Hkeys. }
  assert (Hac1 : dict_get (buffer_of w1) "ac" =
                 Some (slots_of (stored_new (self w) r (buffer_of w)) "ac")).
  { unfold buffer_of. rewrite Hs1, Hbuf1. apply stored_new_get. by rewrite Hkeys. }
  assert (Hw2 : w2 = w1).
  { revert Hcheck. unfold check_lengths.
    change (bind get_self ?g w1) with (g (self w1) w1). cbv beta.
    unfold bind at 1, contains, heap_get, bind at 1. simpl.
    fold (buffer_at w1 (_buffer (self w1))). fold (buffer_of w1).
    unfold dict_mem. rewrite Hac1.
    unfold bind at 1. rewrite getitem_eq. fold (buffer_of w1). rewrite Hob1.
    unfold bind at 1, lift_opt, lift_res.
    destruct (py_index _ (_idx (self w1))) as [ob|]; simpl; [|done].
    unfold bind at 1. rewrite getitem_eq. fold (buffer_of w1). rewrite Hac1.
    unfold bind at 1.
    destruct (py_index _ (_idx (self w1))) as [ac|]; simpl; [|done].
    destruct (len ob =? len ac + 1)%Z; [|done]. by intros [= <-]. }
  subst w2.
  destruct (close_if_done_effect r w1) as (Hheap & _ & _ & Hself).
  rewrite Hclose in Hheap, Hself. simpl in Hheap, Hself.
  unfold buffer_of at 1, buffer_at. rewrite Hheap.
  assert (Hb : _buffer (self w') = _buffer (self w)).
  { destruct Hself as [->|[_ ->]]; [by rewrite Hs1 | simpl; by rewrite Hs1]. }
  rewrite Hb. exact Hbuf1.
Qed.

Lemma dict_keys_set_sub {V} (d : dict V) k v x :
  x ∈ dict_keys (dict_set d k v) → x = k ∨ x ∈ dict_keys d.
Proof.
  rewrite dict_keys_set. case_bool_decide; [by right |].
  intros [?|Hx]%elem_of_app; [by right |].
  apply list_elem_of_singleton in Hx. by left.
Qed.

Lemma fold_set_keys {V} (f : dict V → string → dict V) ks it :
  (∀ it k, ∃ v, f it k = dict_set it k v) →
  (NoDup (dict_keys it) → NoDup (dict_keys (fold_left f ks it))) ∧
  (∀ x, x ∈ dict_keys (fold_left f ks it) → x ∈ ks ∨ x ∈ dict_keys it).
Proof.
  intros Hf. revert it. induction ks as [|k ks IH]; intros it; simpl.
  - split; [done | by right].
  - destruct (Hf it k) as [v ->]. destruct (IH (dict_set it k v)) as [Hnd Hsub].
    split.
    + intros Hit. by apply Hnd, dict_set_NoDup.
    + intros x Hx. destruct (Hsub x Hx) as [?|Hx'].
      * left. by right.
      * apply dict_keys_set_sub in Hx' as [->|?]; [left; left | by right].
Qed.

Lemma stored_new_keys s r it :
  (NoDup (dict_keys it) → NoDup (dict_keys (stored_new s r it))) ∧
  (∀ x, x ∈ dict_keys (stored_new s r it) → x ∈ _keys s ∨ x ∈ dict_keys it).
Proof.
  unfold stored_new. destruct (_current_size s <? _size s)%Z;
    apply fold_set_keys; intros it' k; eexists; reflexivity.
Qed.

Lemma keys_inv_init n ks f w :
  wp (ReplayBuffer_init n ks f) (λ _ w', keys_inv ks [] w') w.
Proof.
  unfold wp. rewrite ReplayBuffer_init_eq. unfold keys_inv, buffer_of, buffer_at.
  simpl. rewrite lookup_total_insert_eq. simpl. split_and!.
  - apply NoDup_nil_2.
  - intros k Hk. by apply elem_of_nil in Hk.
  - done.
Qed.

Lemma full_inv_steps n ks rs rs' w :
  (1 ≤ n)%Z → NoDup ks → "ob" ∈ ks → "ac" ∈ ks →
  ring_inv n ks rs w → keys_inv ks rs w →
  Forall (λ r, contract ks r true) rs' →
  wp (for_ rs' store_episode)
     (λ _ w', ring_inv n ks (rs ++ rs') w' ∧ keys_inv ks (rs ++ rs') w') w.
Proof.
  intros Hn Hnd Hob Hac. revert rs w.
  induction rs' as [|r rs' IH]; intros rs w Hinv Hkeys Hrs'; simpl.
  - unfold wp. simpl. by rewrite app_nil_r.
  - apply Forall_cons in Hrs' as [Hr Hrs'].
    destruct (ring_inv_step_exact n ks rs r w) as (w1 & E & Hinv1 & Hbuf); try done.
    apply wp_bind. eapply wp_eq; [exact E |].
    replace (rs ++ r :: rs') with ((rs ++ [r]) ++ rs') by (by rewrite <- app_assoc).
    apply IH; [done | | done].
    destruct Hkeys as (Hdup & Hsub & _).
    destruct Hinv as (_ & Hks & _).
    destruct (stored_new_keys (self w) r (buffer_of w)) as [Hdup' Hsub'].
    unfold keys_inv. rewrite Hbuf. split_and!.
    + by apply Hdup'.
    + intros k Hk. destruct (Hsub' k Hk) as [?|?]; [by rewrite <- Hks | by apply Hsub].
    + intros _ k Hk. rewrite stored_new_get by (by rewrite Hks). by eexists.
Qed.

(** Among [n] consecutive indices ending at [len], one is congruent to
    each slot number. *)
Lemma ring_slot_source (len n j : nat) :
  0 < n → j < Nat.min len n →
  ∃ i, len - n ≤ i < len ∧ i mod n = j.
Proof.
  intros Hn Hj. destruct (decide (len ≤ n)) as [Hle|Hgt].
  - exists j. split; [lia |]. apply Nat.mod_small. lia.
  - set (base := len - n). set (b := base mod n).
    assert (Hb : b < n) by (apply Nat.mod_upper_bound; lia).
    exists (base + (j + n - b) mod n). split.
    + pose proof (Nat.mod_upper_bound (j + n - b) n ltac:(lia)). lia.
    + rewrite Nat.Div0.add_mod_idemp_r.
      rewrite (Nat.div_mod_eq base n) at 1. fold b.
      replace (n * (base / n) + b + (j + n - b)) with (j + (1 + base / n) * n) by lia.
      rewrite Nat.Div0.mod_add. apply Nat.mod_small. lia.
Qed.

Lemma episodes_ok_intro acs extra slots :
  length acs ≤ length slots →
  (∀ j a s, acs !! j = Some a → slots !! j = Some s → length a + extra ≤ length s) →
  episodes_ok acs extra slots = true.
Proof.
  intros Hlen Hall. unfold episodes_ok. apply andb_true_iff. split.
  - apply Nat.leb_le. change episode with (list value) in *. lia.
  - apply Is_true_true_1, forallb_True, Forall_lookup.
    intros j [a s] Hj. simpl.
    apply lookup_zip_with_Some in Hj as (a' & s' & [= <- <-] & Ha & Hs).
    apply Is_true_true_2, Nat.leb_le. by eapply Hall.
Qed.

Lemma column_homogeneous_intro slots σ :
  Forall (λ v, sig_of v = Some σ) (mjoin slots) →
  column_homogeneous slots = true.
Proof.
  intros Hall. unfold column_homogeneous.
  destruct (mjoin slots) as [|v0 vs] eqn:E; [done |].
  pose proof Hall as Hall0. apply Forall_cons in Hall0 as [-> _].
  apply Is_true_true_1, forallb_True.
  eapply Forall_impl; [exact Hall |]. intros v Hv. simpl.
  by apply bool_decide_pack.
Qed.

Lemma dict_get_slots (it : dict (list episode)) k :
  is_Some (dict_get it k) → dict_get it k = Some (slots_of it k).
Proof. intros [v Hv]. unfold slots_of. by rewrite Hv. Qed.

(** Slot [j] holds, under every tracked key, the values of one and the
    same stored rollout. *)
Lemma ring_inv_slot n ks rs w k j s :
  (1 ≤ n)%Z → ring_inv n ks rs w → k ∈ ks →
  slots_of (buffer_of w) k !! j = Some s →
  ∃ r, r ∈ rs ∧ ∀ k', k' ∈ ks → slots_of (buffer_of w) k' !! j = Some (rollout_get r k').
Proof.
  intros Hn (_ & _ & _ & _ & _ & _ & Hring) Hk Hj.
  destruct (Hring k Hk) as [Hlen _]. unfold history in Hlen.
  rewrite length_fmap in Hlen. apply lookup_lt_Some in Hj. rewrite Hlen in Hj.
  destruct (ring_slot_source (length rs) (Z.to_nat n) j) as (i & Hi & Hmod);
    [lia | done |].
  destruct (lookup_lt_is_Some_2 rs i) as [r Hr]; [lia |].
  exists r. split; [by eapply list_elem_of_lookup_2 |].
  intros k' Hk'. destruct (Hring k' Hk') as [_ Hat].
  unfold history in Hat. rewrite length_fmap in Hat.
  rewrite <- Hmod, Hat by done. by rewrite list_lookup_fmap, Hr.
Qed.

(** What closed episodes leave in the buffer is a store the samplers can
    read. *)
Lemma stored_wf n ks rs w :
  (1 ≤ n)%Z → "ob" ∈ ks → "ac" ∈ ks → rs ≠ [] →
  Forall (λ r, contract ks r true) rs → stackable ks rs →
  ring_inv n ks rs w → keys_inv ks rs w →
  store_wfb (buffer_of w) = true.
Proof.
  intros Hn Hob Hac Hne Hrs [Hsteps Hsig] Hinv (Hdup & Hsub & Hpres).
  specialize (Hpres Hne). set (it := buffer_of w) in *.
  pose proof (dict_get_slots it "ac" (Hpres "ac" Hac)) as Hgac.
  pose proof (dict_get_slots it "ob" (Hpres "ob" Hob)) as Hgob.
  assert (Hslot : ∀ k j s, k ∈ ks → slots_of it k !! j = Some s →
            ∃ r, r ∈ rs ∧ contract ks r true ∧
                 ∀ k', k' ∈ ks → slots_of it k' !! j = Some (rollout_get r k')).
  { intros k j s Hk Hj.
    destruct (ring_inv_slot n ks rs w k j s Hn Hinv Hk Hj) as (r & Hr & Hall).
    exists r. split_and!; [done | | done].
    by apply (proj1 (Forall_forall _ _) Hrs). }
  assert (Hlen : ∀ k, k ∈ ks → length (slots_of it k) = Nat.min (length rs) (Z.to_nat n)).
  { intros k Hk. destruct Hinv as (_ & _ & _ & _ & _ & _ & Hring).
    destruct (Hring k Hk) as [Hl _]. unfold history in Hl.
    by rewrite length_fmap in Hl. }
  assert (Hok : ∀ k extra, k ∈ ks →
            (∀ r, r ∈ rs → contract ks r true →
               length (rollout_get r "ac") + extra ≤ length (rollout_get r k)) →
            episodes_ok (slots_of it "ac") extra (slots_of it k) = true).
  { intros k extra Hk Hrk. apply episodes_ok_intro.
    - rewrite !Hlen by done. done.
    - intros j a s Ha Hs.
      destruct (Hslot "ac" j a Hac Ha) as (r & Hr & Hc & Hall).
      rewrite (Hall "ac" Hac) in Ha. rewrite (Hall k Hk) in Hs.
      injection Ha as <-. injection Hs as <-. by apply Hrk. }
  unfold store_wfb. fold it. rewrite Hgac, Hgob.
  apply andb_true_iff; split;
    [apply andb_true_iff; split; [apply andb_true_iff; split |] |].
  - destruct (slots_of it "ac") eqn:E; [|done].
    pose proof (Hlen "ac" Hac) as Hl. rewrite E in Hl. cbn [length] in Hl.
    destruct rs; [done |]. cbn [length] in Hl. lia.
  - apply Is_true_true_1, forallb_True, Forall_lookup. intros j ep Hj.
    destruct (Hslot "ac" j ep Hac Hj) as (r & Hr & _ & Hall).
    assert (ep = rollout_get r "ac") as ->.
    { apply (inj Some). etrans; [symmetry; exact Hj | exact (Hall "ac" Hac)]. }
    destruct (Hsteps r Hr) as [Hstep _].
    destruct (rollout_get r "ac"); done.
  - apply Hok; [done |]. intros r Hr (_ & Hl & _). lia.
  - apply Is_true_true_1, forallb_True, Forall_forall. intros [k slots] Hkv.
    simpl.
    assert (Hk : k ∈ ks).
    { apply Hsub. unfold dict_keys. apply list_elem_of_fmap. by exists (k, slots). }
    pose proof (dict_elem_get it k slots Hdup Hkv) as Hget.
    assert (slots = slots_of it k) as -> by (unfold slots_of; by rewrite Hget).
    apply Is_true_true_2, andb_true_iff. split.
    + apply Hok; [done |]. intros r Hr _.
      destruct (Hsteps r Hr) as [_ Hall]. rewrite Nat.add_0_r. by apply Hall.
    + destruct (Hsig k Hk) as [σ Hσ]. apply (column_homogeneous_intro _ σ).
      apply Forall_forall. intros v Hv.
      apply list_elem_of_join in Hv as (s & Hv & Hs).
      apply list_elem_of_lookup_1 in Hs as [j Hj].
      destruct (Hslot k j s Hk Hj) as (r & Hr & _ & Hall).
      assert (s = rollout_get r k) as ->.
      { apply (inj Some). etrans; [symmetry; exact Hj | exact (Hall k Hk)]. }
      by eapply Hσ.
Qed.

(** Storing and then sampling.  After a buffer with the uniform sampler
    was constructed for distinct keys with ["ob"] and ["ac"] among them
    and at least one episode was stored, every rollout being closed,
    within the contract and stackable, [sample(m)] for [m >= 1] returns
    a batch: it has [m] rows under every tracked key and under
    ["ob_next"], drawn at valid (episode, step) pairs of what the buffer
    holds, also after the ring has wrapped. *)
Theorem store_then_sample (n : Z) (ks : list string) (rs : list rollout_t)
    (m : Z) (w0 : world) :
  (1 ≤ n)%Z → NoDup ks → "ob" ∈ ks → "ac" ∈ ks → rs ≠ [] →
  Forall (λ r, contract ks r true) rs → stackable ks rs → (1 ≤ m)%Z →
  wp (ReplayBuffer_init n ks RandomSampler_sample_func ;;
      for_ rs store_episode ;;
      sample m)
     (λ b w,
        ∃ pairs,
          length pairs = Z.to_nat m ∧
          Forall (valid_draw (slots_of (buffer_of w) "ac")) pairs ∧
          batch_of (buffer_of w) pairs b ∧
          ∀ key, key ∈ ks ∨ key = "ob_next" →
            ∃ c, dict_get b key = Some c ∧ batch_rows (Z.to_nat m) c) w0.
Proof.
  intros Hn Hnd Hob Hac Hne Hrs Hstack Hm.
  pose proof (ring_inv_init n ks RandomSampler_sample_func w0) as Hr0.
  pose proof (keys_inv_init n ks RandomSampler_sample_func w0) as Hk0.
  unfold wp in Hr0, Hk0. rewrite ReplayBuffer_init_eq in Hr0, Hk0.
  apply wp_bind. eapply wp_eq; [apply ReplayBuffer_init_eq |].
  set (w1 := mkWorld _ _ _ _) in *.
  pose proof (full_inv_steps n ks [] rs w1 Hn Hnd Hob Hac Hr0 Hk0 Hrs) as Hsteps.
  apply wp_inv in Hsteps as ([] & w & E & Hring & Hkeys). simpl in Hring, Hkeys.
  assert (Hf : _sample_func (self w) = RandomSampler_sample_func).
  { pose proof (for_world_inv
      (λ w, _sample_func (self w) = RandomSampler_sample_func)
      store_episode rs w1 eq_refl) as H. rewrite E in H. apply H.
    intros r w2 Hw2. destruct (store_episode_effect r w2) as [_ [->|[_ ->]]]; done. }
  apply wp_bind. eapply wp_eq; [exact E |].
  pose proof (stored_wf n ks rs w Hn Hob Hac Hne Hrs Hstack Hring Hkeys) as Hwf.
  destruct (RandomSampler_func_drawn (_buffer (self w)) m w Hwf Hm)
    as (b & pairs & tr & Hrun & Hd & Hlen & Hb).
  assert (Hsample : sample m w = (Ok b, advance (2 * Z.to_nat m) w)).
  { unfold sample. change (bind get_self ?g w) with (g (self w) w). cbv beta.
    by rewrite Hf. }
  eapply wp_eq; [exact Hsample |].
  change (buffer_of (advance (2 * Z.to_nat m) w)) with (buffer_of w).
  destruct (drawn_inv _ _ _ _ _ _ Hd) as (acs & Hgac & _ & Hvalid & _).
  exists pairs. split_and!; [done | | done |].
  - unfold slots_of. fold (buffer_of w) in Hgac. by rewrite Hgac.
  - intros key Hkey. destruct Hb as [Hcols (col & c & _ & _ & Hnext & Hrows)].
    destruct (decide (key = "ob_next")) as [->|Hneq].
    + exists c. by rewrite <- Hlen.
    + destruct Hkey as [Hkey|?]; [|done]. specialize (Hcols key Hneq).
      destruct Hkeys as (_ & _ & Hpres).
      destruct (Hpres Hne key Hkey) as [slots Hslots].
      fold (buffer_of w) in Hcols. rewrite Hslots in Hcols.
      destruct Hcols as (col' & c' & _ & _ & Hget & Hrows').
      exists c'. by rewrite <- Hlen.
Qed.

Lemma ex_rollouts_stackable :
  stackable ex_keys [ex_rollout 0 1; ex_rollout 10 1; ex_rollout 20 1].
Proof.
  split.
  - intros r Hr.
    repeat (apply elem_of_cons in Hr as [->|Hr];
            [split; [done |]; intros k Hk; unfold ex_keys in Hk;
             repeat (apply elem_of_cons in Hk as [->|Hk]; [simpl; lia |]);
             by apply elem_of_nil in Hk |]).
    by apply elem_of_nil in Hr.
  - intros k Hk. unfold ex_keys in Hk.
    repeat (apply elem_of_cons in Hk as [->|Hk];
            [eexists; intros r v Hr Hv;
             repeat (apply elem_of_cons in Hr as [->|Hr];
                     [simpl in Hv;
                      repeat (apply elem_of_cons in Hv as [->|Hv]; [reflexivity |]);
                      by apply elem_of_nil in Hv |]);
             by apply elem_of_nil in Hr |]).
    by apply elem_of_nil in Hk.
Defined.

Lemma store_then_sample_witness :
  wp (ReplayBuffer_init 2 ex_keys RandomSampler_sample_func ;;
      for_ [ex_rollout 0 1; ex_rollout 10 1; ex_rollout 20 1] store_episode ;;
      sample 4)
     (λ b w, ∃ c, dict_get b "ob_next" = Some c ∧ batch_rows 4 c) ex_world.
Proof.
  eapply wp_mono.
  - apply (store_then_sample 2 ex_keys
             [ex_rollout 0 1; ex_rollout 10 1; ex_rollout 20 1] 4 ex_world).
    + lia.
    + by apply (bool_decide_unpack (NoDup ex_keys)).
    + left.
    + right. left.
    + done.
    + repeat (apply Forall_cons; split; [apply (ex_rollout_contract _ 1) |]).
      apply Forall_nil_2.
    + apply ex_rollouts_stackable.
    + lia.
  - intros b w (pairs & _ & _ & _ & Hrows). apply Hrows. by right.
Defined.

Lemma shaped_rewards_witness :
  ∃ shaped info, _forward_reward 0.1 0.3 1 = Ok (shaped, info) ∧
                 (0 <= shaped)%Q ∧ (shaped <= 1)%Q.
Proof.
  destruct (shaped_rewards 0.1 0.3 1)
    as (r1 & r2 & r3 & shaped & _ & _ & _ & _ & Hlo & Hhi & [info Hrun] & _).
  exists shaped, info. split; [exact Hrun | split; [exact Hlo | exact Hhi]].
Defined.


